(** * yt-downloader: the download orchestration pipeline of [server.js]

    A shallow embedding of the Express server of the repository:
    the filename sanitizer, the URL validator, the yt-dlp invoker with its
    version probe, the strategy runner, the file locator, the Invidious
    fallback, the retention sweeper and the [/download] route handler.

    [src/server.js] holds two revisions of the server.  The first one
    (lines 1-889) splits the download into [downloadViaYtDlp] and
    [downloadViaInvidious]; the second one (lines 890-1675) has a single
    [downloadVideoForWeb] that classifies its errors.  They are embedded
    in the modules [Rev1] and [Rev2]; what both share comes first. *)

From Stdlib Require Import List ZArith NArith Bool Lia String Ascii.
From Stdlib Require Import Sorting.Sorted Sorting.Permutation.
From Stdlib Require Import DecimalString.
Import ListNotations.

Set Implicit Arguments.

(* ================================================================== *)
(** * JavaScript strings *)
(* ================================================================== *)

(** A JavaScript string is a sequence of UTF-16 code units.  The regular
    expressions of the server carry no [u] flag, so they work on code
    units as well. *)
Definition jsstring := list N.

(** Literals of the source.  The file is UTF-8: a two-byte sequence is one
    code unit (the accented letters of the Portuguese messages), an ASCII
    byte is itself. *)
Fixpoint utf8_units (bytes : list N) : jsstring :=
  match bytes with
  | [] => []
  | b1 :: rest =>
      if (b1 <? 192)%N then b1 :: utf8_units rest
      else match rest with
           | b2 :: rest' => ((b1 - 192) * 64 + (b2 - 128))%N :: utf8_units rest'
           | [] => [b1]
           end
  end.

Definition js (s : string) : jsstring :=
  utf8_units (map N_of_ascii (list_ascii_of_string s)).

Definition str_eqb (a b : jsstring) : bool :=
  if list_eq_dec N.eq_dec a b then true else false.

Lemma str_eqb_eq (a b : jsstring) : str_eqb a b = true <-> a = b.
Proof.
  unfold str_eqb. destruct (list_eq_dec N.eq_dec a b); split; congruence.
Qed.

(** [String.prototype.startsWith] *)
Fixpoint startsWith (s prefix : jsstring) : bool :=
  match prefix, s with
  | [], _ => true
  | p :: prefix', c :: s' => N.eqb c p && startsWith s' prefix'
  | _ :: _, [] => false
  end.

(** [String.prototype.includes] *)
Fixpoint includes (s sub : jsstring) : bool :=
  startsWith s sub ||
  match s with
  | [] => false
  | _ :: s' => includes s' sub
  end.

(** What is left of [s] after the literal [lit], when [s] starts with it. *)
Fixpoint stripPrefix (lit s : jsstring) : option jsstring :=
  match lit, s with
  | [], _ => Some s
  | p :: lit', c :: s' => if N.eqb c p then stripPrefix lit' s' else None
  | _ :: _, [] => None
  end.

(** The class [\s] of a regular expression, which is also the set that
    [String.prototype.trim] strips: WhiteSpace and LineTerminator. *)
Definition isWhiteSpace (c : N) : bool :=
  existsb (N.eqb c)
    [9; 10; 11; 12; 13; 32; 160; 5760;
     8192; 8193; 8194; 8195; 8196; 8197; 8198; 8199; 8200; 8201; 8202;
     8232; 8233; 8239; 8287; 12288; 65279]%N.

Definition SPACE : N := 32%N.

(** The class of the nine characters that the sanitizer removes:
    less-than, greater-than, colon, double quote, slash, backslash, bar,
    question mark and star. *)
Definition isForbidden (c : N) : bool :=
  existsb (N.eqb c) [60; 62; 58; 34; 47; 92; 124; 63; 42]%N.

(** The first [replace] of the sanitizer: every forbidden character is
    deleted. *)
Definition removeForbidden (s : jsstring) : jsstring :=
  filter (fun c => negb (isForbidden c)) s.

(** [s.replace(/\s+/g, ' ')]: every maximal run of white space becomes
    one space.  [inRun] says that the previous code unit was white space,
    so that the current run has been replaced already. *)
Fixpoint replaceWsRuns (inRun : bool) (s : jsstring) : jsstring :=
  match s with
  | [] => []
  | c :: s' =>
      if isWhiteSpace c
      then (if inRun then replaceWsRuns true s'
            else SPACE :: replaceWsRuns true s')
      else c :: replaceWsRuns false s'
  end.

Definition collapseWhitespace (s : jsstring) : jsstring :=
  replaceWsRuns false s.

Fixpoint trimStart (s : jsstring) : jsstring :=
  match s with
  | [] => []
  | c :: s' => if isWhiteSpace c then trimStart s' else s
  end.

Definition trimEnd (s : jsstring) : jsstring := rev (trimStart (rev s)).

(** [String.prototype.trim] *)
Definition trim (s : jsstring) : jsstring := trimEnd (trimStart s).

(** [sanitizeFilename], server.js 553-555 (and 687-689, 1418-1420):
    delete the forbidden characters, replace every match of [\s+] by one
    space, then [trim()]. *)
Definition sanitizeFilename (filename : jsstring) : jsstring :=
  trim (collapseWhitespace (removeForbidden filename)).

(** Decimal rendering of an integer, as [Number.prototype.toString] and
    template literals do for integers. *)
Definition Z_to_js (z : Z) : jsstring :=
  js (NilEmpty.string_of_int (Z.to_int z)).

(** [s.padStart(2, '0')] *)
Definition padStart2 (s : jsstring) : jsstring :=
  match s with
  | [] => [48; 48]%N
  | [c] => [48%N; c]
  | _ => s
  end.

(** ** What the sanitizer promises *)

(** The white space of [s] is normalised: every white-space code unit is
    a space, and none is followed by another white-space code unit. *)
Definition wsCollapsed (s : jsstring) : Prop :=
  (forall c, In c s -> isWhiteSpace c = true -> c = SPACE) /\
  (forall a c d b, s = a ++ c :: d :: b ->
     isWhiteSpace c = true -> isWhiteSpace d = false).

Definition noLeadingWs (s : jsstring) : Prop :=
  forall c r, s = c :: r -> isWhiteSpace c = false.

Definition noTrailingWs (s : jsstring) : Prop :=
  forall r c, s = r ++ [c] -> isWhiteSpace c = false.

(** The words of a string: its maximal runs of code units that are not
    white space, in their order. *)
Fixpoint wordsOf (s : jsstring) : list jsstring :=
  match s with
  | [] => []
  | c :: s' =>
      if isWhiteSpace c then wordsOf s'
      else match s' with
           | [] => [[c]]
           | d :: _ =>
               if isWhiteSpace d then [c] :: wordsOf s'
               else match wordsOf s' with
                    | w :: ws => (c :: w) :: ws
                    | [] => [[c]]
                    end
           end
  end.

(** Words put together with a single space between two of them. *)
Fixpoint joinWords (ws : list jsstring) : jsstring :=
  match ws with
  | [] => []
  | w :: rest =>
      match rest with
      | [] => w
      | _ :: _ => w ++ SPACE :: joinWords rest
      end
  end.
(* ================================================================== *)
(** * The world the server runs in *)
(* ================================================================== *)

(** A JavaScript [Error]: the server reads [message] and [stack]. *)
Record JsError := mkError { message : jsstring; stack : jsstring }.

(** How a call ends: with a value, or with a thrown error. *)
Inductive Outcome (A : Type) : Type :=
| Return (a : A)
| Throw (e : JsError).
Arguments Return {A} a.
Arguments Throw {A} e.

(** An entry of the [downloads] directory, as [readdirSync] and
    [statSync] show it: name, [mtime] in milliseconds, size in bytes. *)
Record FileEntry := mkFile { fname : jsstring; mtime : Z; fsize : Z }.

(** The directory in [readdirSync] order. *)
Definition Dir := list FileEntry.

(** A stream of the Invidious API: [container], [qualityLabel], [url]. *)
Record InvFormat := mkFormat {
  container : jsstring;
  qualityLabel : option jsstring;
  furl : jsstring
}.

(** A number of JavaScript is a double.  The arithmetic that the server
    does on a duration ([/], [Math.floor], [%] and the decimal rendering)
    is exact on the integers that a double holds without loss, the safe
    integers, and the model computes there.  Any other double (a
    fraction, an integer of larger magnitude, an infinity, NaN) is told
    apart by [label] only: the model does not compute with it. *)
Inductive JsNumber : Type :=
| JsInt (z : Z)
| JsOther (label : N).

(** The fields that the server reads of an Invidious video document.
    [None] stands for a field that is absent. *)
Record InvData := mkInvData {
  d_error : bool;
  formatStreams : option (list InvFormat);
  d_title : option jsstring;
  d_author : option jsstring;
  lengthSeconds : option JsNumber;
  viewCount : option Z
}.

(** A [fetch] response: [ok], what [json()] gives and the byte length of
    what [arrayBuffer()] gives. *)
Record Response := mkResponse {
  ok : bool;
  json : Outcome InvData;
  arrayBuffer : Outcome Z
}.

(** The fields that the server reads of the document printed by
    [yt-dlp --dump-single-json]; numbers are given as [parseInt] reads
    them, [None] for an absent field or [NaN]; [id] is given as a
    template literal renders it. *)
Record YtInfo := mkInfo {
  title : option jsstring;
  video_id : jsstring;
  uploader : option jsstring;
  channel : option jsstring;
  duration : option Z;
  view_count : option Z;
  height : option Z
}.

(** What the server does to the outside, with what came back: child
    processes, timers, HTTP requests, and the files it writes or deletes. *)
Inductive Event : Type :=
| EvExec (cmd : jsstring) (timeout : Z) (res : Outcome jsstring)
| EvSleep (ms : Z)
| EvFetch (url : jsstring) (res : Outcome Response)
| EvWrite (name : jsstring) (size : Z) (err : option JsError)
| EvUnlink (name : jsstring) (err : option JsError).

(** What a child process leaves behind: its result, the clock and the
    directory when it ends. *)
Record ExecResult := mkExec {
  exec_result : Outcome jsstring;
  exec_now : Z;
  exec_dir : option Dir
}.

(** The environment: configuration, and how everything outside the
    server answers.  The answers depend on all that happened before, so
    the same command may fail once and succeed later. *)
Record Env := mkEnv {
  (** [process.env.NODE_ENV === 'production'] *)
  production : bool;
  (** [parseInt(process.env.FILE_CLEANUP_MAX_AGE_HOURS)], [None] for [NaN] *)
  cleanupMaxAgeHours : option Z;
  (** [child_process.exec], given history, clock, directory, command, timeout *)
  execOracle : list Event -> Z -> option Dir -> jsstring -> Z -> ExecResult;
  (** [fetch] *)
  fetchOracle : list Event -> jsstring -> Outcome Response;
  (** the error of [fs.unlinkSync] on an existing file, if it fails *)
  unlinkOracle : list Event -> jsstring -> option JsError;
  (** the error of [fs.writeFileSync], if it fails *)
  writeOracle : list Event -> jsstring -> Z -> option JsError;
  (** the error of a file-system call on a path that does not exist *)
  enoent : jsstring -> JsError;
  (** [JSON.parse] of the metadata; [Return None] for a falsy value *)
  jsonParse : jsstring -> Outcome (option YtInfo);
  (** [encodeURIComponent], which throws on a lone surrogate *)
  encodeURIComponent : jsstring -> Outcome jsstring;
  (** [Number.prototype.toLocaleString] *)
  toLocaleString : Z -> jsstring;
  (** the [stack] of [new Error(message)] *)
  stackOf : jsstring -> jsstring;
  (** the duration string of a double that is not a safe integer *)
  inexactDuration : JsNumber -> jsstring
}.

(** The state of one server process: the clock, the [downloads]
    directory ([None] when it does not exist) and the log of events. *)
Record World := mkWorld {
  env : Env;
  clock : Z;
  dir : option Dir;
  trace : list Event
}.

(** ** The monad of the server: state and exceptions *)

Definition M (A : Type) : Type := World -> Outcome A * World.

Definition ret {A} (a : A) : M A := fun w => (Return a, w).

Definition bind {A B} (m : M A) (f : A -> M B) : M B :=
  fun w => match m w with
           | (Return a, w') => f a w'
           | (Throw e, w') => (Throw e, w')
           end.

Notation "x <- m ;; k" := (bind m (fun x => k))
  (at level 61, m at next level, right associativity).
Notation "' pat <- m ;; k" :=
  (bind m (fun x => match x with pat => k end))
  (at level 61, pat pattern, m at next level, right associativity).
Notation "m ;;; k" := (bind m (fun _ => k))
  (at level 61, right associativity).

(** [throw e] *)
Definition throw {A} (e : JsError) : M A := fun w => (Throw e, w).

(** [throw new Error(msg)] *)
Definition throwNew {A} (msg : jsstring) : M A :=
  fun w => (Throw (mkError msg (stackOf (env w) msg)), w).

(** [try { m } catch (e) { ... }]: the outcome of [m] as a value. *)
Definition tryCatch {A} (m : M A) : M (Outcome A) :=
  fun w => let (r, w') := m w in (Return r, w').

Definition liftOutcome {A} (o : Outcome A) : M A := fun w => (o, w).

Definition getEnv : M Env := fun w => (Return (env w), w).

(** [Date.now()] *)
Definition dateNow : M Z := fun w => (Return (clock w), w).

Definition logEvent (e : Event) (w : World) : World :=
  mkWorld (env w) (clock w) (dir w) (trace w ++ [e]).

(** [await execAsync(cmd, { timeout })] *)
Definition execAsync (cmd : jsstring) (timeout : Z) : M jsstring :=
  fun w =>
    let r := execOracle (env w) (trace w) (clock w) (dir w) cmd timeout in
    (exec_result r,
     mkWorld (env w) (exec_now r) (exec_dir r)
             (trace w ++ [EvExec cmd timeout (exec_result r)])).

(** [await new Promise(resolve => setTimeout(resolve, ms))] *)
Definition sleep (ms : Z) : M unit :=
  fun w => (Return tt,
            mkWorld (env w) (clock w + ms) (dir w) (trace w ++ [EvSleep ms])).

(** [await fetch(url, ...)] *)
Definition fetch (url : jsstring) : M Response :=
  fun w =>
    let r := fetchOracle (env w) (trace w) url in
    (r, logEvent (EvFetch url r) w).

(** ** The [downloads] directory *)

Fixpoint statEntry (d : Dir) (name : jsstring) : option FileEntry :=
  match d with
  | [] => None
  | e :: d' => if str_eqb (fname e) name then Some e else statEntry d' name
  end.

Fixpoint removeEntry (d : Dir) (name : jsstring) : Dir :=
  match d with
  | [] => []
  | e :: d' => if str_eqb (fname e) name then d' else e :: removeEntry d' name
  end.

(** A written file replaces the entry of that name, or is a new entry. *)
Fixpoint putEntry (d : Dir) (f : FileEntry) : Dir :=
  match d with
  | [] => [f]
  | e :: d' => if str_eqb (fname e) (fname f) then f :: d'
               else e :: putEntry d' f
  end.

(** [fs.existsSync(downloadsDir)] *)
Definition existsDownloadsDir : M bool :=
  fun w => (Return (match dir w with Some _ => true | None => false end), w).

(** [fs.mkdirSync(downloadsDir, { recursive: true })] *)
Definition mkdirDownloadsDir : M unit :=
  fun w => (Return tt,
            mkWorld (env w) (clock w)
                    (match dir w with Some d => Some d | None => Some [] end)
                    (trace w)).

(** [fs.readdirSync(downloadsDir)] *)
Definition readdirSync : M (list jsstring) :=
  fun w => match dir w with
           | Some d => (Return (map fname d), w)
           | None => (Throw (enoent (env w) []), w)
           end.

(** [fs.existsSync(path.join(downloadsDir, name))] *)
Definition existsSync (name : jsstring) : M bool :=
  fun w => (Return (match dir w with
                    | Some d => match statEntry d name with
                                | Some _ => true
                                | None => false
                                end
                    | None => false
                    end), w).

(** [fs.statSync(path.join(downloadsDir, name))] *)
Definition statSync (name : jsstring) : M FileEntry :=
  fun w => match dir w with
           | Some d => match statEntry d name with
                       | Some e => (Return e, w)
                       | None => (Throw (enoent (env w) name), w)
                       end
           | None => (Throw (enoent (env w) name), w)
           end.

(** [fs.unlinkSync(path.join(downloadsDir, name))] *)
Definition unlinkSync (name : jsstring) : M unit :=
  fun w =>
    match dir w with
    | Some d =>
        match statEntry d name with
        | Some _ =>
            match unlinkOracle (env w) (trace w) name with
            | Some e => (Throw e, logEvent (EvUnlink name (Some e)) w)
            | None =>
                (Return tt,
                 mkWorld (env w) (clock w) (Some (removeEntry d name))
                         (trace w ++ [EvUnlink name None]))
            end
        | None =>
            (Throw (enoent (env w) name),
             logEvent (EvUnlink name (Some (enoent (env w) name))) w)
        end
    | None =>
        (Throw (enoent (env w) name),
         logEvent (EvUnlink name (Some (enoent (env w) name))) w)
    end.

(** [fs.writeFileSync(path.join(downloadsDir, name), Buffer.from(buffer))] *)
Definition writeFileSync (name : jsstring) (size : Z) : M unit :=
  fun w =>
    match dir w with
    | Some d =>
        match writeOracle (env w) (trace w) name size with
        | Some e => (Throw e, logEvent (EvWrite name size (Some e)) w)
        | None =>
            (Return tt,
             mkWorld (env w) (clock w)
                     (Some (putEntry d (mkFile name (clock w) size)))
                     (trace w ++ [EvWrite name size None]))
        end
    | None =>
        (Throw (enoent (env w) name),
         logEvent (EvWrite name size (Some (enoent (env w) name))) w)
    end.

(* ================================================================== *)
(** * Code shared by the two revisions *)
(* ================================================================== *)

(** ** Regular expressions

    A regular expression is read as a backtracking matcher in
    continuation-passing style: [k] is what must match after the piece. *)

Definition lit (l : jsstring) (k : jsstring -> bool) (s : jsstring) : bool :=
  match stripPrefix l s with
  | Some rest => k rest
  | None => false
  end.

(** [(l)?] *)
Definition opt (l : jsstring) (k : jsstring -> bool) (s : jsstring) : bool :=
  lit l k s || k s.

(** [(a|b)] *)
Definition alt (a b : (jsstring -> bool) -> jsstring -> bool)
    (k : jsstring -> bool) (s : jsstring) : bool :=
  a k s || b k s.

(** [[class]{n}] *)
Fixpoint classN (p : N -> bool) (n : nat) (k : jsstring -> bool)
    (s : jsstring) : bool :=
  match n with
  | O => k s
  | S n' => match s with
            | c :: s' => p c && classN p n' k s'
            | [] => false
            end
  end.

Definition inRange (lo hi c : N) : bool := ((lo <=? c) && (c <=? hi))%N.

(** [[\w-]] *)
Definition isWordOrDash (c : N) : bool :=
  inRange 97 122 c || inRange 65 90 c || inRange 48 57 c
  || N.eqb c 95 || N.eqb c 45.

(** [validateYouTubeUrl], server.js 221-224:
    [/^https?:\/\/(www\.)?(youtube\.com\/watch\?v=|youtu\.be\/)[\w-]{11}/.test(url)] *)
Definition validateYouTubeUrl (url : jsstring) : bool :=
  lit (js "http") (opt (js "s") (lit (js "://") (opt (js "www.")
    (alt (lit (js "youtube.com/watch?v=")) (lit (js "youtu.be/"))
       (classN isWordOrDash 11 (fun _ => true)))))) url.

(** [[^&\n?#]] *)
Definition isIdChar (c : N) : bool :=
  negb (existsb (N.eqb c) [38; 10; 63; 35]%N).

Fixpoint takeWhile (p : N -> bool) (s : jsstring) : jsstring :=
  match s with
  | [] => []
  | c :: s' => if p c then c :: takeWhile p s' else []
  end.

(** The capture [([^&\n?#]+)] after one of the two literals, at the start
    of [s]. *)
Definition videoIdAt (s : jsstring) : option jsstring :=
  let capture rest :=
    match takeWhile isIdChar rest with
    | [] => None
    | v => Some v
    end in
  match stripPrefix (js "youtube.com/watch?v=") s with
  | Some rest => capture rest
  | None => match stripPrefix (js "youtu.be/") s with
            | Some rest => capture rest
            | None => None
            end
  end.

(** [extractVideoId], server.js 795-799: the capture of the leftmost match
    of [/(?:youtube\.com\/watch\?v=|youtu\.be\/)([^&\n?#]+)/], or [null]. *)
Fixpoint extractVideoId (youtubeUrl : jsstring) : option jsstring :=
  match videoIdAt youtubeUrl with
  | Some v => Some v
  | None => match youtubeUrl with
            | [] => None
            | _ :: rest => extractVideoId rest
            end
  end.

(** ** Numbers *)

Definition digitValue (radix c : N) : option N :=
  let v := if inRange 48 57 c then Some (c - 48)%N
           else if inRange 97 122 c then Some (c - 87)%N
           else if inRange 65 90 c then Some (c - 55)%N
           else None in
  match v with
  | Some d => if (d <? radix)%N then Some d else None
  | None => None
  end.

Fixpoint parseDigits (radix : N) (acc : option N) (s : jsstring) : option N :=
  match s with
  | [] => acc
  | c :: s' =>
      match digitValue radix c with
      | Some d =>
          parseDigits radix
            (Some (radix * match acc with Some a => a | None => 0 end + d)%N) s'
      | None => acc
      end
  end.

(** [parseInt(s)] of a string, [None] for [NaN]. *)
Definition parseInt (s : jsstring) : option Z :=
  let s1 := trimStart s in
  let '(negative, s2) :=
    match s1 with
    | 45%N :: r => (true, r)
    | 43%N :: r => (false, r)
    | _ => (false, s1)
    end in
  let '(radix, s3) :=
    match s2 with
    | 48%N :: 120%N :: r => (16%N, r)
    | 48%N :: 88%N :: r => (16%N, r)
    | _ => (10%N, s2)
    end in
  match parseDigits radix None s3 with
  | Some n => Some (if negative then - Z.of_N n else Z.of_N n)%Z
  | None => None
  end.

Local Open Scope Z_scope.

(** [Number.MAX_SAFE_INTEGER], and [Number.isSafeInteger] of an integer. *)
Definition maxSafeInteger : Z := 2 ^ 53 - 1.

Definition isSafeInteger (z : Z) : bool := Z.abs z <=? maxSafeInteger.

(** The duration [M:SS]: [Math.floor(seconds / 60)], a colon, and
    [(seconds % 60).toString().padStart(2, '0')]; server.js 665-668 and
    [formatDuration], 691-695.  On a safe integer the quotient of the
    doubles, rounded, has the floor of the exact quotient, [%] is the
    remainder that takes the sign of [seconds], and both are rendered in
    decimal.  For any other double the string is what the environment
    says. *)
Definition formatDuration (e : Env) (seconds : JsNumber) : jsstring :=
  match seconds with
  | JsInt z =>
      if isSafeInteger z then
        let mins := z / 60 in
        let secs := Z.rem z 60 in
        Z_to_js mins ++ js ":" ++ padStart2 (Z_to_js secs)
      else inexactDuration e seconds
  | JsOther _ => inexactDuration e seconds
  end.

(** ** [Array.prototype.sort]

    The sort of ECMAScript is stable.  With a comparator that is a
    difference of keys every stable sort gives the same array, the one of
    this insertion sort: [x] goes behind [y] only when [cmp x y > 0]. *)

Section Sort.
Variable A : Type.
Variable cmp : A -> A -> Z.

Fixpoint insertSorted (x : A) (l : list A) : list A :=
  match l with
  | [] => [x]
  | y :: l' => if 0 <? cmp x y then y :: insertSorted x l'
               else x :: l
  end.

Definition sortWith (l : list A) : list A :=
  fold_right insertSorted [] l.
End Sort.

(** ** Results *)

(** The [videoInfo] of a result; [None] for [undefined]. *)
Record VideoInfo := mkVideoInfo {
  vi_title : option jsstring;
  vi_author : option jsstring;
  vi_duration : jsstring;
  vi_views : jsstring;
  vi_quality : jsstring;
  vi_method : option jsstring
}.

(** What a download returns: [{ filename, videoInfo }]. *)
Record DownloadResult := mkResult {
  filename : jsstring;
  videoInfo : VideoInfo
}.

Definition DQ : jsstring := [34%N].

(** A string between double quotes. *)
Definition quoted (s : jsstring) : jsstring := DQ ++ s ++ DQ.

(** A string is truthy when it is present and not empty. *)
Definition truthyStr (o : option jsstring) : option jsstring :=
  match o with
  | Some (c :: s) => Some (c :: s)
  | _ => None
  end.

(** A number is truthy when it is present and not zero. *)
Definition truthyNum (o : option Z) : option Z :=
  match o with
  | Some z => if z =? 0 then None else Some z
  | None => None
  end.

(** The message of the [TypeError] of [undefined.replace(...)]. *)
Definition typeErrorMessage : jsstring :=
  js "Cannot read properties of undefined (reading 'replace')".

(** [sanitizeFilename(x)] of a value that may be [undefined]. *)
Definition sanitizeFilenameOf (x : option jsstring) : M jsstring :=
  match x with
  | Some s => ret (sanitizeFilename s)
  | None => throwNew typeErrorMessage
  end.

(** [if (!fs.existsSync(downloadsDir)) fs.mkdirSync(downloadsDir, ...)] *)
Definition ensureDownloadsDir : M unit :=
  present <- existsDownloadsDir ;;
  if present then ret tt else mkdirDownloadsDir.

(** ** The yt-dlp invoker *)

(** [ytdlpOptions], server.js 568 and 1441. *)
Definition ytdlpOptions : list jsstring :=
  [js "yt-dlp"; js "python3 -m yt_dlp"; js "/opt/venv/bin/yt-dlp"].

Definition versionQuery (cmd : jsstring) : jsstring := cmd ++ js " --version".

(** The probe loop, server.js 570-579 (and 1443-1453): the first command
    whose version query succeeds, [undefined] when none does. *)
Fixpoint probe (options : list jsstring) : M (option jsstring) :=
  match options with
  | [] => ret None
  | cmd :: rest =>
      r <- tryCatch (execAsync (versionQuery cmd) 5000) ;;
      match r with
      | Return _ => ret (Some cmd)
      | Throw _ => probe rest
      end
  end.

(** [let ytDlpCommand] and the detection around the probe, server.js
    563-586.  [ytDlpCommand] is a local of the download function: every
    call detects the command anew. *)
Definition detectYtDlp (notFound : jsstring) : M jsstring :=
  e <- getEnv ;;
  if production e then
    found <- probe ytdlpOptions ;;
    match found with
    | Some cmd => ret cmd
    | None => throwNew notFound
    end
  else ret (js "./yt-dlp").

(** [`${ytDlpCommand} --dump-single-json --no-warnings "${videoUrl}"`] *)
Definition infoCommand (ytDlpCommand videoUrl : jsstring) : jsstring :=
  ytDlpCommand ++ js " --dump-single-json --no-warnings " ++ quoted videoUrl.

(** The video info fetcher, server.js 588-603 (and 1464-1484): the
    metadata query, [JSON.parse], the check of [info] and the sanitized
    title with its fall-back name. *)
Definition fetchInfo (ytDlpCommand videoUrl noInfo : jsstring)
  : M (YtInfo * jsstring) :=
  infoOutput <- execAsync (infoCommand ytDlpCommand videoUrl) 30000 ;;
  e <- getEnv ;;
  parsed <- liftOutcome (jsonParse e infoOutput) ;;
  match parsed with
  | None => throwNew noInfo
  | Some info =>
      sanitized <- sanitizeFilenameOf (title info) ;;
      t <- dateNow ;;
      let sanitizedTitle :=
        match sanitized with
        | [] => js "video_" ++ video_id info ++ js "_" ++ Z_to_js t
        | _ => sanitized
        end in
      ret (info, sanitizedTitle)
  end.

(** [`${sanitizedTitle}.%(ext)s`] *)
Definition outputTemplate (sanitizedTitle : jsstring) : jsstring :=
  sanitizedTitle ++ js ".%(ext)s".

(** ** The file locator *)

(** The [mtime] that the comparator reads by [statSync].  The names come
    from [readdirSync] of the same directory, so the entry is there. *)
Definition mtimeOf (d : Dir) (name : jsstring) : Z :=
  match statEntry d name with
  | Some e => mtime e
  | None => 0
  end.

(** [(a, b) => statSync(b).mtime - statSync(a).mtime] *)
Definition byMtimeDesc (d : Dir) (a b : jsstring) : Z :=
  mtimeOf d b - mtimeOf d a.

(** [names.filter(file => file.startsWith(sanitizedTitle)).sort(...)] *)
Definition candidates (d : Dir) (names : list jsstring)
    (sanitizedTitle : jsstring) : list jsstring :=
  sortWith (byMtimeDesc d)
    (filter (fun file => startsWith file sanitizedTitle) names).

(** The directory that [statSync] looks into. *)
Definition currentDir : M Dir :=
  fun w => (Return (match dir w with Some d => d | None => [] end), w).

(** The file locator and verifier, server.js 648-662 (and 1526-1545). *)
Definition locateDownloaded (sanitizedTitle notCreated emptyFile : jsstring)
  : M jsstring :=
  names <- readdirSync ;;
  d <- currentDir ;;
  let files := candidates d names sanitizedTitle in
  match files with
  | [] => throwNew notCreated
  | downloadedFile :: _ =>
      present <- existsSync downloadedFile ;;
      if negb present then throwNew emptyFile
      else
        stats <- statSync downloadedFile ;;
        if fsize stats =? 0 then throwNew emptyFile
        else ret downloadedFile
  end.

(** The [videoInfo] of a yt-dlp download, server.js 664-679. *)
Definition ytVideoInfo (e : Env) (info : YtInfo) (method : option jsstring)
  : VideoInfo :=
  let duration := match truthyNum (duration info) with
                  | Some d => d
                  | None => 0
                  end in
  mkVideoInfo
    (title info)
    (Some match truthyStr (uploader info) with
          | Some u => u
          | None => match truthyStr (channel info) with
                    | Some c => c
                    | None => js "N/A"
                    end
          end)
    (formatDuration e (JsInt duration))
    (match truthyNum (view_count info) with
     | Some v => toLocaleString e v
     | None => js "N/A"
     end)
    (match truthyNum (height info) with
     | Some h => Z_to_js h ++ js "p"
     | None => js "N/A"
     end)
    method.

(** ** The [/download] route *)

(** The body of a request: [url] and [format], [None] when absent. *)
Record Request := mkRequest {
  req_url : option jsstring;
  req_format : option jsstring
}.

Inductive Body : Type :=
| ErrorBody (error : jsstring)
| SuccessBody (msg : jsstring) (file downloadUrl : jsstring)
              (info : VideoInfo).

Record HttpResponse := mkHttp { status : Z; body : Body }.

Definition internalError : jsstring := js "Erro interno do servidor".

(** The handler of [app.post('/download')], server.js 226-332 (and
    1114-1220), after the rate limiter.  What it writes to the console
    and to the logger is left out. *)
Definition postDownloadWith
    (downloadVideoForWeb : jsstring -> M DownloadResult)
    (req : Request) : M HttpResponse :=
  startTime <- dateNow ;;
  match truthyStr (req_url req) with
  | None => ret (mkHttp 400 (ErrorBody (js "URL é obrigatória")))
  | Some url =>
      if negb (validateYouTubeUrl url)
      then ret (mkHttp 400 (ErrorBody (js "URL do YouTube inválida")))
      else
        let format := match req_format req with
                      | Some f => f
                      | None => js "mp4"
                      end in
        if negb (existsb (str_eqb format) [js "mp4"; js "webm"; js "mp3"])
        then ret (mkHttp 400
                    (ErrorBody (js "Formato inválido. Use: mp4, webm ou mp3")))
        else
          r <- tryCatch (
                 result <- downloadVideoForWeb url ;;
                 endTime <- dateNow ;;
                 e <- getEnv ;;
                 encoded <- liftOutcome (encodeURIComponent e (filename result)) ;;
                 ret (mkHttp 200
                        (SuccessBody (js "Download concluído com sucesso!")
                           (filename result)
                           (js "/download-file/" ++ encoded)
                           (videoInfo result)))) ;;
          match r with
          | Return response => ret response
          | Throw downloadError =>
              endTime <- dateNow ;;
              ret (mkHttp 500 (ErrorBody internalError))
          end
  end.

(** ** The retention sweeper *)

Fixpoint forEach {A} (l : list A) (f : A -> M unit) : M unit :=
  match l with
  | [] => ret tt
  | x :: l' => f x ;;; forEach l' f
  end.

(** [parseInt(process.env.FILE_CLEANUP_MAX_AGE_HOURS) || 24], in
    milliseconds. *)
Definition maxAgeMs (e : Env) : Z :=
  let maxAge := match truthyNum (cleanupMaxAgeHours e) with
                | Some h => h
                | None => 24
                end in
  maxAge * 60 * 60 * 1000.

(** The body of the [forEach] of the sweep, server.js 151-165. *)
Definition sweepFile (limit : Z) (file : jsstring) : M unit :=
  stats <- statSync file ;;
  t <- dateNow ;;
  let age := t - mtime stats in
  if limit <? age then
    r <- tryCatch (unlinkSync file) ;;
    ret tt
  else ret tt.

(** [cleanupOldFiles], server.js 138-175 (and 1026-1063). *)
Definition cleanupOldFiles : M unit :=
  present <- existsDownloadsDir ;;
  if negb present then ret tt
  else
    e <- getEnv ;;
    r <- tryCatch (
           files <- readdirSync ;;
           forEach files (sweepFile (maxAgeMs e))) ;;
    ret tt.

(* ================================================================== *)
(** * First revision: yt-dlp with the Invidious fall-back *)
(* ================================================================== *)

(** The messages of the errors that [downloadViaYtDlp] throws itself,
    server.js 582, 598, 654 and 661. *)
Definition notFound1 : jsstring := js "yt-dlp não encontrado".
Definition noInfo1 : jsstring :=
  js "Não foi possível obter informações do vídeo".
Definition notCreated1 : jsstring := js "Arquivo não foi criado".
Definition emptyFile1 : jsstring := js "Arquivo vazio ou corrompido".

Module Rev1.

(** [commonArgs], server.js 607-611 *)
Definition commonArgs : jsstring :=
  js "--user-agent "
  ++ quoted (js "Mozilla/5.0 (Windows NT 10.0; Win64; x64) AppleWebKit/537.36")
  ++ js " --add-header "
  ++ quoted (js "Accept:text/html,application/xhtml+xml,application/xml;q=0.9,*/*;q=0.8")
  ++ js " --no-warnings".

Definition strategy (ytDlpCommand format sanitizedTitle videoUrl : jsstring)
  : jsstring :=
  ytDlpCommand ++ js " " ++ commonArgs
  ++ js " --format " ++ quoted format
  ++ js " --output " ++ quoted (outputTemplate sanitizedTitle)
  ++ js " " ++ quoted videoUrl.

(** [downloadStrategies], server.js 614-617 *)
Definition downloadStrategies (ytDlpCommand sanitizedTitle videoUrl : jsstring)
  : list jsstring :=
  [ strategy ytDlpCommand (js "best[ext=mp4][height<=1080]/best")
      sanitizedTitle videoUrl;
    strategy ytDlpCommand (js "worst[ext=mp4]/worst")
      sanitizedTitle videoUrl ].

(** The loop of the strategy runner, server.js 619-642, from index [i]
    on: [(downloadSuccess, lastError)] when the loop is left. *)
Fixpoint strategyLoop (i : nat) (strategies : list jsstring)
    (lastError : option JsError) : M (bool * option JsError) :=
  match strategies with
  | [] => ret (false, lastError)
  | command :: rest =>
      r <- tryCatch (
             (if (0 <? i)%nat then sleep 2000 else ret tt) ;;;
             execAsync command 300000) ;;
      match r with
      | Return _ => ret (true, lastError)
      | Throw error => strategyLoop (S i) rest (Some error)
      end
  end.

(** The strategy runner, server.js 619-646. *)
Definition runStrategies (strategies : list jsstring) : M unit :=
  ' (downloadSuccess, lastError) <- strategyLoop 0 strategies None ;;
  if downloadSuccess : bool then ret tt
  else match lastError with
       | Some error => throw error
       | None => throwNew (js "Todas as estratégias falharam")
       end.

(** [downloadViaYtDlp], server.js 546-681 *)
Definition downloadViaYtDlp (videoUrl : jsstring) : M DownloadResult :=
  ensureDownloadsDir ;;;
  ytDlpCommand <- detectYtDlp notFound1 ;;
  ' (info, sanitizedTitle) <- fetchInfo ytDlpCommand videoUrl noInfo1 ;;
  runStrategies (downloadStrategies ytDlpCommand sanitizedTitle videoUrl) ;;;
  downloadedFile <- locateDownloaded sanitizedTitle notCreated1 emptyFile1 ;;
  e <- getEnv ;;
  ret (mkResult downloadedFile (ytVideoInfo e info (Some (js "yt-dlp")))).

(** [instances], server.js 700-708 *)
Definition instances : list jsstring :=
  [ js "https://yewtu.be"; js "https://invidious.nerdvpn.de";
    js "https://inv.nadeko.net"; js "https://invidious.f5.si";
    js "https://invidious.kavin.rocks"; js "https://invidious.io";
    js "https://inv.riverside.rocks" ].

(** [f.container === 'mp4' && f.qualityLabel && parseInt(f.qualityLabel) <= 720] *)
Definition mp4UpTo720 (f : InvFormat) : bool :=
  str_eqb (container f) (js "mp4") &&
  match truthyStr (qualityLabel f) with
  | Some q => match parseInt q with
              | Some n => n <=? 720
              | None => false
              end
  | None => false
  end.

(** The choice of the format, server.js 736-744. *)
Definition chooseFormat (data : InvData) : option InvFormat :=
  match formatStreams data with
  | None => None
  | Some streams =>
      match find mp4UpTo720 streams with
      | Some f => Some f
      | None => find (fun f => str_eqb (container f) (js "mp4")) streams
      end
  end.

(** The [videoInfo] of an Invidious download, server.js 776-783. *)
Definition invVideoInfo (e : Env) (data : InvData) (format : InvFormat)
  : VideoInfo :=
  mkVideoInfo
    (d_title data)
    (d_author data)
    (match lengthSeconds data with
     | Some s => formatDuration e s
     | None => js "NaN:NaN"
     end)
    (match truthyNum (viewCount data) with
     | Some v => toLocaleString e v
     | None => js "N/A"
     end)
    (match truthyStr (qualityLabel format) with
     | Some q => q
     | None => js "N/A"
     end)
    (Some (js "Invidious")).

(** The body of the [try] of one instance, server.js 716-785: [None]
    stands for [continue]. *)
Definition fromInstance (videoId instance : jsstring)
  : M (option DownloadResult) :=
  response <- fetch (instance ++ js "/api/v1/videos/" ++ videoId) ;;
  if negb (ok response) then ret None
  else
    data <- liftOutcome (json response) ;;
    if d_error data then ret None
    else
      match chooseFormat data with
      | None => ret None
      | Some format =>
          videoResponse <- fetch (furl format) ;;
          if negb (ok videoResponse) then ret None
          else
            buffer <- liftOutcome (arrayBuffer videoResponse) ;;
            sanitized <- sanitizeFilenameOf (d_title data) ;;
            let filename := sanitized ++ js ".mp4" in
            writeFileSync filename buffer ;;;
            e <- getEnv ;;
            ret (Some (mkResult filename (invVideoInfo e data format)))
      end.

(** The loop over the instances, server.js 715-790. *)
Fixpoint tryInstances (videoId : jsstring) (l : list jsstring)
  : M (option DownloadResult) :=
  match l with
  | [] => ret None
  | instance :: rest =>
      r <- tryCatch (fromInstance videoId instance) ;;
      match r with
      | Return (Some result) => ret (Some result)
      | _ => tryInstances videoId rest
      end
  end.

(** [downloadViaInvidious], server.js 683-793 *)
Definition downloadViaInvidious (videoUrl : jsstring) : M DownloadResult :=
  match extractVideoId videoUrl with
  | None => throwNew (js "URL inválida")
  | Some videoId =>
      ensureDownloadsDir ;;;
      found <- tryInstances videoId instances ;;
      match found with
      | Some result => ret result
      | None => throwNew (js "Todas as instâncias Invidious falharam")
      end
  end.

(** The condition of the fall-back, server.js 533-535. *)
Definition isBotError (msg : jsstring) : bool :=
  includes msg (js "Sign in to confirm")
  || includes msg (js "bot")
  || includes msg (js "age").

(** [downloadVideoForWeb], server.js 522-544 *)
Definition downloadVideoForWeb (videoUrl : jsstring) : M DownloadResult :=
  r <- tryCatch (downloadViaYtDlp videoUrl) ;;
  match r with
  | Return result => ret result
  | Throw error =>
      if isBotError (message error)
      then downloadViaInvidious videoUrl
      else throw error
  end.

(** [app.post('/download')] of this revision. *)
Definition postDownload : Request -> M HttpResponse :=
  postDownloadWith downloadVideoForWeb.

End Rev1.

(* ================================================================== *)
(** * Second revision: yt-dlp alone, with classified errors *)
(* ================================================================== *)

Module Rev2.

Definition strategy (ytDlpCommand format extra sanitizedTitle videoUrl : jsstring)
  : jsstring :=
  ytDlpCommand ++ js " --format " ++ quoted format ++ extra
  ++ js " --output " ++ quoted (outputTemplate sanitizedTitle)
  ++ js " --no-warnings " ++ quoted videoUrl.

(** [downloadStrategies], server.js 1489-1498 *)
Definition downloadStrategies (ytDlpCommand sanitizedTitle videoUrl : jsstring)
  : list jsstring :=
  [ strategy ytDlpCommand
      (js "bestvideo[ext=mp4]+bestaudio[ext=m4a]/bestvideo[ext=mp4]+bestaudio[ext=m4a]/best[ext=mp4]/best")
      [] sanitizedTitle videoUrl;
    strategy ytDlpCommand
      (js "bestvideo[ext=mp4]+bestaudio[ext=m4a]/best[ext=mp4]/best")
      (js " --recode-video mp4") sanitizedTitle videoUrl;
    strategy ytDlpCommand (js "best[ext=mp4]/best")
      [] sanitizedTitle videoUrl ].

(** The loop of the strategy runner, server.js 1500-1520: this revision
    does not wait between the attempts. *)
Fixpoint strategyLoop (strategies : list jsstring)
    (lastError : option JsError) : M (bool * option JsError) :=
  match strategies with
  | [] => ret (false, lastError)
  | command :: rest =>
      r <- tryCatch (execAsync command 300000) ;;
      match r with
      | Return _ => ret (true, lastError)
      | Throw error => strategyLoop rest (Some error)
      end
  end.

Definition runStrategies (strategies : list jsstring) : M unit :=
  ' (downloadSuccess, lastError) <- strategyLoop strategies None ;;
  if downloadSuccess : bool then ret tt
  else match lastError with
       | Some error => throw error
       | None => throwNew (js "Todas as estratégias de download falharam")
       end.

(** The [try] block of [downloadVideoForWeb], server.js 1425-1564 *)
Definition download (videoUrl : jsstring) : M DownloadResult :=
  ensureDownloadsDir ;;;
  ytDlpCommand <-
    detectYtDlp (js "yt-dlp não encontrado em nenhuma localização") ;;
  ' (info, sanitizedTitle) <-
      fetchInfo ytDlpCommand videoUrl
        (js "Não foi possível obter informações do vídeo") ;;
  runStrategies (downloadStrategies ytDlpCommand sanitizedTitle videoUrl) ;;;
  downloadedFile <-
    locateDownloaded sanitizedTitle (js "Arquivo de vídeo não foi criado")
      (js "Arquivo não foi criado ou está vazio") ;;
  e <- getEnv ;;
  ret (mkResult downloadedFile (ytVideoInfo e info None)).

(** The messages of the [catch] block, server.js 1569-1582, in the order
    of the [if] chain; [defaultMessage] is the initial [errorMessage]. *)
Definition defaultMessage : jsstring := js "Erro ao processar vídeo".
Definition unavailableMessage : jsstring := js "Vídeo não disponível ou privado".
Definition ageMessage : jsstring := js "Vídeo requer confirmação de idade".
Definition removedMessage : jsstring := js "Este vídeo não está disponível".
Definition networkMessage : jsstring := js "Erro de rede durante o download".
Definition formatMessage : jsstring := js "Formato de vídeo não suportado".
Definition commandMessage : jsstring :=
  js "Erro ao executar yt-dlp. Verifique se está instalado".

(** The classification of the [catch] block, server.js 1569-1582. *)
Definition classifyError (msg : jsstring) : jsstring :=
  if includes msg (js "Video unavailable") || includes msg (js "Private video")
  then unavailableMessage
  else if includes msg (js "Sign in to confirm") || includes msg (js "age")
  then ageMessage
  else if includes msg (js "This video is not available")
          || includes msg (js "removed")
  then removedMessage
  else if includes msg (js "network") || includes msg (js "timeout")
          || includes msg (js "Connection")
  then networkMessage
  else if includes msg (js "format") || includes msg (js "No video formats")
  then formatMessage
  else if includes msg (js "Command failed")
  then commandMessage
  else defaultMessage.

(** [downloadVideoForWeb], server.js 1411-1586 *)
Definition downloadVideoForWeb (videoUrl : jsstring) : M DownloadResult :=
  r <- tryCatch (download videoUrl) ;;
  match r with
  | Return result => ret result
  | Throw error => throwNew (classifyError (message error))
  end.

(** [app.post('/download')] of this revision. *)
Definition postDownload : Request -> M HttpResponse :=
  postDownloadWith downloadVideoForWeb.

End Rev2.

(* ================================================================== *)
(** * Notions used to state the properties *)
(* ================================================================== *)

(** [sub] occurs in [s]. *)
Definition contains (s sub : jsstring) : Prop :=
  exists pre post, s = pre ++ sub ++ post.

(** [w'] is a later state of the process of [w]: same environment, and the
    events [evs] have been added to the log. *)
Definition reaches (w : World) (evs : list Event) (w' : World) : Prop :=
  env w' = env w /\ trace w' = trace w ++ evs.

(** The events that [m] adds to the log when it runs in [w]. *)
Definition newEvents {A} (m : M A) (w : World) : list Event :=
  skipn (List.length (trace w)) (trace (snd (m w))).

(** An attempt: the command and how it ended. *)
Definition Attempt : Type := jsstring * Outcome jsstring.

Definition failed (a : Attempt) : Prop := exists e, snd a = Throw e.

(** The events of the attempts of the strategy runner: a wait of two
    seconds before every attempt but the first of the run. *)
Fixpoint attemptEvents (first : bool) (l : list Attempt) : list Event :=
  match l with
  | [] => []
  | (command, res) :: l' =>
      (if first then [] else [EvSleep 2000])
      ++ EvExec command 300000 res :: attemptEvents false l'
  end.

(** The last error among the attempts, [d] when none failed. *)
Fixpoint lastErrorOf (l : list Attempt) (d : option JsError) : option JsError :=
  match l with
  | [] => d
  | (_, Throw e) :: l' => lastErrorOf l' (Some e)
  | (_, Return _) :: l' => lastErrorOf l' d
  end.

(** The events of the version queries of the probe. *)
Definition probeEvents (l : list Attempt) : list Event :=
  map (fun a => EvExec (versionQuery (fst a)) 5000 (snd a)) l.

(** [cmd] is the command that the detection settles on after the version
    queries [probes]: in production the first candidate whose query
    succeeded, all candidates before it having failed; otherwise the local
    binary, without any query. *)
Definition detected (e : Env) (probes : list Attempt) (cmd : jsstring) : Prop :=
  if production e then
    exists done out rest,
      probes = done ++ [(cmd, Return out)] /\ Forall failed done /\
      ytdlpOptions = map fst probes ++ rest
  else probes = [] /\ cmd = js "./yt-dlp".

(** The metadata stage fails with [e] on the result [res] of the metadata
    query: the query failed, or [JSON.parse] threw, or the document is
    falsy, or it has no title to sanitize. *)
Definition metadataFailure (env : Env) (noInfo : jsstring)
    (res : Outcome jsstring) (e : JsError) : Prop :=
  match res with
  | Throw e' => e = e'
  | Return out =>
      match jsonParse env out with
      | Throw e' => e = e'
      | Return None => e = mkError noInfo (stackOf env noInfo)
      | Return (Some info) =>
          title info = None /\
          e = mkError typeErrorMessage (stackOf env typeErrorMessage)
      end
  end.

(** [t] is the name that the metadata stage computes from the document
    [info] at time [now], server.js 603: the sanitized title, or, when
    that is empty, [video_], the id, an underscore and the time. *)
Definition nameFor (info : YtInfo) (now : Z) (t : jsstring) : Prop :=
  exists tt,
    title info = Some tt /\
    t = match sanitizeFilename tt with
        | [] => js "video_" ++ video_id info ++ js "_" ++ Z_to_js now
        | _ => sanitizeFilename tt
        end.

(** The events [pre] of a fall-back end with what [result] is made of:
    the document of one of the [candidates] was fetched, then the body of
    the stream chosen from it, [size] bytes long; [result] names the
    file after the sanitized title of that document. *)
Definition fetchedFor (e : Env) (videoId : jsstring)
    (candidates : list jsstring) (pre : list Event)
    (result : DownloadResult) (size : Z) : Prop :=
  exists instance earlier response data format videoResponse t,
    In instance candidates /\
    pre = earlier
          ++ [EvFetch (instance ++ js "/api/v1/videos/" ++ videoId)
                (Return response);
              EvFetch (furl format) (Return videoResponse)] /\
    ok response = true /\ json response = Return data /\
    d_error data = false /\ Rev1.chooseFormat data = Some format /\
    ok videoResponse = true /\ arrayBuffer videoResponse = Return size /\
    d_title data = Some t /\
    result = mkResult (sanitizeFilename t ++ js ".mp4")
               (Rev1.invVideoInfo e data format).

(** The three callers of [execAsync] differ by their timeout: 5 s for a
    version query, 30 s for the metadata query, 300 s for a download
    attempt. *)
Definition isVersionQuery (e : Event) : bool :=
  match e with EvExec _ t _ => t =? 5000 | _ => false end.

Definition isMetadataQuery (e : Event) : bool :=
  match e with EvExec _ t _ => t =? 30000 | _ => false end.

Definition isDownloadAttempt (e : Event) : bool :=
  match e with EvExec _ t _ => t =? 300000 | _ => false end.

(** A child process of any kind. *)
Definition isExec (e : Event) : bool :=
  match e with EvExec _ _ _ => true | _ => false end.

(** An event that is no child process. *)
Definition noExec (e : Event) : Prop := isExec e = false.

(** An HTTP request of the fall-back. *)
Definition isFetch (e : Event) : bool :=
  match e with EvFetch _ _ => true | _ => false end.

(** The output of a metadata query is usable: it parses to a truthy
    document. *)
Definition parseable (e : Env) (out : jsstring) : Prop :=
  exists info, jsonParse e out = Return (Some info).

(** [m] adds only events that satisfy [P] to the log, and keeps the
    environment. *)
Definition emits (P : Event -> Prop) {A} (m : M A) : Prop :=
  forall w, exists evs, reaches w evs (snd (m w)) /\ Forall P evs.

(** A request fails whenever its metadata query failed or gave an output
    that is not usable. *)
Definition failsFast (url : jsstring) (w : World) : Prop :=
  forall c res,
    In (EvExec (infoCommand c url) 30000 res)
       (newEvents (Rev1.downloadVideoForWeb url) w) ->
    (forall out, res = Return out -> ~ parseable (env w) out) ->
    exists e, fst (Rev1.downloadVideoForWeb url w) = Throw e.

(** The command found by one request is reused by the next one: after a
    request that succeeded, a request of the same process issues no
    version query. *)
Definition probeCached (w : World) (url1 url2 : jsstring) : Prop :=
  forall result w1,
    Rev1.downloadViaYtDlp url1 w = (Return result, w1) ->
    filter isVersionQuery (newEvents (Rev1.downloadViaYtDlp url2) w1) = [].

(** After a download that succeeds, by a strategy or by the fall-back,
    the file returned is the one that the File Locator selects for the
    sanitized title of the video in the directory as it is then. *)
Definition returnsLocatedFile (url : jsstring) (w : World) : Prop :=
  forall result w' t,
    Rev1.downloadVideoForWeb url w = (Return result, w') ->
    vi_title (videoInfo result) = Some t ->
    sanitizeFilename t <> [] ->
    fst (locateDownloaded (sanitizeFilename t) notCreated1 emptyFile1 w')
    = Return (filename result).


(** The classification of a failure is what the user is told: when the
    download of the second revision fails with [e], the response to the
    request carries the message of [e]. *)
Definition classificationShown (url : jsstring) (w : World) : Prop :=
  forall e,
    fst (Rev2.downloadVideoForWeb url w) = Throw e ->
    exists st,
      fst (Rev2.postDownload (mkRequest (Some url) None) w)
      = Return (mkHttp st (ErrorBody (message e))).

(** The formats that the route accepts, [None] for an omitted field. *)
Definition validFormat (f : option jsstring) : Prop :=
  f = None \/ f = Some (js "mp4") \/ f = Some (js "webm") \/ f = Some (js "mp3").

(** The URL of the request matches the pattern of the route. *)
Definition urlRecognized (req : Request) : bool :=
  match req_url req with
  | Some url => validateYouTubeUrl url
  | None => false
  end.

(** The messages that the classification of the second revision can
    produce. *)
Definition userMessages : list jsstring :=
  [ Rev2.unavailableMessage; Rev2.ageMessage; Rev2.removedMessage;
    Rev2.networkMessage; Rev2.formatMessage; Rev2.commandMessage;
    Rev2.defaultMessage ].

(** The known failure signatures as a table: the phrases of a row, and
    the message of the row; unavailable or private, sign-in or age,
    removed, network or timeout, unsupported format, command failure. *)
Definition signatures : list (list jsstring * jsstring) :=
  [ ([js "Video unavailable"; js "Private video"], Rev2.unavailableMessage);
    ([js "Sign in to confirm"; js "age"], Rev2.ageMessage);
    ([js "This video is not available"; js "removed"], Rev2.removedMessage);
    ([js "network"; js "timeout"; js "Connection"], Rev2.networkMessage);
    ([js "format"; js "No video formats"], Rev2.formatMessage);
    ([js "Command failed"], Rev2.commandMessage) ].

(** The message of the first row one of whose phrases occurs in [msg]. *)
Fixpoint firstMatch (table : list (list jsstring * jsstring))
    (msg : jsstring) : option jsstring :=
  match table with
  | [] => None
  | (phrases, m) :: rest =>
      if existsb (includes msg) phrases then Some m else firstMatch rest msg
  end.

(** The age of a file at time [t], and one hour in milliseconds. *)
Definition ageAt (t : Z) (f : FileEntry) : Z := t - mtime f.
Definition hour : Z := 60 * 60 * 1000.

(** The files whose deletion succeeded according to the events. *)
Definition unlinked (evs : list Event) (name : jsstring) : bool :=
  existsb (fun e => match e with
                    | EvUnlink n None => str_eqb n name
                    | _ => false
                    end) evs.

(** The names of the files that the events tried to delete, in order. *)
Definition unlinkAttempts (evs : list Event) : list jsstring :=
  flat_map (fun e => match e with
                     | EvUnlink n _ => [n]
                     | _ => []
                     end) evs.

(** ** Scripted environments for the examples *)

Definition noStack (msg : jsstring) : jsstring := [].

Definition err (msg : string) : JsError := mkError (js msg) [].

(** An environment whose answers do not depend on the history: [exec]
    says how a command ends, a download attempt that succeeds leaves the
    files [produced], every child process takes one second. *)
Definition scripted (prod : bool)
    (exec : jsstring -> Z -> Outcome jsstring)
    (produced : list FileEntry)
    (parse : jsstring -> Outcome (option YtInfo))
    (http : jsstring -> Outcome Response)
    (unlinkErr : jsstring -> option JsError) : Env :=
  mkEnv prod None
    (fun _ t d cmd timeout =>
       mkExec (exec cmd timeout) (t + 1000)
         (match exec cmd timeout, d with
          | Return _, Some files =>
              if timeout =? 300000
              then Some (fold_left putEntry produced files)
              else Some files
          | _, _ => d
          end))
    (fun _ url => http url)
    (fun _ name => unlinkErr name)
    (fun _ _ _ => None)
    (fun _ => err "ENOENT: no such file or directory")
    parse
    (fun s => Return s)
    Z_to_js
    noStack
    (fun _ => js "NaN:NaN").

Definition start (e : Env) (t : Z) (d : option Dir) : World :=
  mkWorld e t d [].

Definition sampleUrl : jsstring := js "https://www.youtube.com/watch?v=dQw4w9WgXcQ".

Definition sampleInfo : YtInfo :=
  mkInfo (Some (js "foo")) (js "dQw4w9WgXcQ") (Some (js "someone")) None
         (Some 125) (Some 1000) (Some 720).

Definition noHttp (url : jsstring) : Outcome Response :=
  Throw (err "fetch failed").

(** A production server where every command succeeds and a download
    leaves [foo.mp4]. *)
Definition healthyEnv : Env :=
  scripted true (fun _ _ => Return (js "2024.01.01"))
    [mkFile (js "foo.mp4") 5000 1024]
    (fun _ => Return (Some sampleInfo)) noHttp (fun _ => None).

(** A production server where YouTube asks yt-dlp to sign in, and the
    first Invidious instance serves the video [foo] with an empty body. *)
Definition botMessage : jsstring :=
  js "Command failed: Sign in to confirm you're not a bot".

Definition sampleData : InvData :=
  mkInvData false
    (Some [mkFormat (js "mp4") (Some (js "360p")) (js "https://cdn.example/v")])
    (Some (js "foo")) (Some (js "someone")) (Some (JsInt 125)) (Some 1000).

Definition blockedEnv : Env :=
  scripted true
    (fun cmd timeout => if timeout =? 5000 then Return (js "2024.01.01")
                        else Throw (mkError botMessage []))
    []
    (fun _ => Return (Some sampleInfo))
    (fun url =>
       if str_eqb url (js "https://yewtu.be/api/v1/videos/dQw4w9WgXcQ")
       then Return (mkResponse true (Return sampleData) (Throw (err "no body")))
       else if str_eqb url (js "https://cdn.example/v")
       then Return (mkResponse true (Throw (err "not JSON")) (Return 0))
       else Throw (err "fetch failed"))
    (fun _ => None).

(** A development server where the first strategy fails and the second
    one succeeds. *)
Definition secondWinsEnv : Env :=
  scripted false
    (fun cmd timeout =>
       if (timeout =? 300000) && negb (includes cmd (js "worst"))
       then Throw (err "ERROR: Requested format is not available")
       else Return (js "{}"))
    [mkFile (js "foo.mp4") 5000 1024]
    (fun _ => Return (Some sampleInfo)) noHttp (fun _ => None).

(** A development server where the metadata query fails for a reason that
    is not a block. *)
Definition offlineEnv : Env :=
  scripted false
    (fun cmd timeout => Throw (err "Command failed: Video unavailable"))
    [] (fun _ => Return (Some sampleInfo)) noHttp (fun _ => None).

(** The directory of the example of the locator: [foo.mp4] written at
    time 1000 and [foo.part] one millisecond later. *)
Definition fooDir : Dir :=
  [mkFile (js "foo.mp4") 1000 2048; mkFile (js "foo.part") 1001 512;
   mkFile (js "bar.mp4") 3000 100].

(** The directory of the example of the sweeper at time [100 * hour]:
    files aged 1 h, 25 h and 48 h. *)
Definition agedDir : Dir :=
  [mkFile (js "young.mp4") (99 * hour) 10;
   mkFile (js "old.mp4") (75 * hour) 10;
   mkFile (js "older.mp4") (52 * hour) 10].

(** An environment where [old.mp4] cannot be deleted. *)
Definition stubbornEnv : Env :=
  scripted true (fun _ _ => Return []) [] (fun _ => Return None) noHttp
    (fun name => if str_eqb name (js "old.mp4")
                 then Some (err "EPERM: operation not permitted")
                 else None).

(* ================================================================== *)
(** * The rest of the file-system routes *)
(* ================================================================== *)

(** The loop of [getDiskUsage], server.js 189-194, with its two
    accumulators [(totalSize, fileCount)].  The [try] is around the whole
    [forEach]: a [statSync] that throws ends the loop and the sums made so
    far are returned. *)
Fixpoint usageLoop (files : list jsstring) (acc : Z * Z) : M (Z * Z) :=
  match files with
  | [] => ret acc
  | file :: rest =>
      r <- tryCatch (statSync file) ;;
      match r with
      | Return stats => usageLoop rest (fst acc + fsize stats, snd acc + 1)
      | Throw _ => ret acc
      end
  end.

(** [getDiskUsage], server.js 177-200: [(totalSize, fileCount)]. *)
Definition getDiskUsage : M (Z * Z) :=
  present <- existsDownloadsDir ;;
  if negb present then ret (0, 0)
  else
    r <- tryCatch readdirSync ;;
    match r with
    | Return files => usageLoop files (0, 0)
    | Throw _ => ret (0, 0)
    end.

(** The answer of [/cleanup-file]: status, [success], and the text of
    [message] or [error]. *)
Record CleanupResponse := mkCleanup {
  c_status : Z;
  c_success : bool;
  c_text : jsstring
}.

(** The handler of [app.post('/cleanup-file')], server.js 453-520, for a
    [filename] that is the plain name of an entry, so that
    [path.join(__dirname, 'downloads', filename)] is the file of that
    name in the directory.  What it logs is left out. *)
Definition postCleanupFile (filename : option jsstring) : M CleanupResponse :=
  match truthyStr filename with
  | None => ret (mkCleanup 400 false (js "Nome do arquivo é obrigatório"))
  | Some name =>
      present <- existsSync name ;;
      if negb present
      then ret (mkCleanup 200 true (js "Arquivo já foi removido ou não existe"))
      else
        r <- tryCatch (unlinkSync name) ;;
        match r with
        | Return _ => ret (mkCleanup 200 true (js "Arquivo removido com sucesso"))
        | Throw _ =>
            ret (mkCleanup 500 false (js "Erro ao remover arquivo do servidor"))
        end
  end.

(** The answer of [/cleanup-file] for a file that is not there. *)
Definition alreadyRemoved : CleanupResponse :=
  mkCleanup 200 true (js "Arquivo já foi removido ou não existe").

(** A plain file name: neither [.] nor [..], and without a slash or a
    backslash, so that joining it to the directory names an entry of the
    directory. *)
Definition plainName (name : jsstring) : bool :=
  negb (str_eqb name (js ".")) && negb (str_eqb name (js ".."))
  && forallb (fun c => negb (N.eqb c 47) && negb (N.eqb c 92)) name.

(** ** Notions for the further properties *)

(** A write that succeeded. *)
Definition isWriteOk (e : Event) : bool :=
  match e with EvWrite _ _ None => true | _ => false end.

(** A child process, or the wait of the strategy runner. *)
Definition execOrSleep (e : Event) : Prop :=
  isExec e = true \/ e = EvSleep 2000.

(** An HTTP request or a write: what the fall-back does. *)
Definition fetchOrWrite (e : Event) : Prop :=
  match e with
  | EvFetch _ _ | EvWrite _ _ _ => True
  | _ => False
  end.

(** The directory as [ensureDownloadsDir] leaves it. *)
Definition ensuredDir (w : World) : Dir :=
  match dir w with Some d => d | None => [] end.

(** The two decimal digits of a number below one hundred. *)
Definition twoDigits (r : Z) : jsstring :=
  [Z.to_N (48 + r / 10); Z.to_N (48 + r mod 10)].

(** The two hosts that the patterns of the server know. *)
Definition watchPrefix : jsstring := js "youtube.com/watch?v=".
Definition shortPrefix : jsstring := js "youtu.be/".

(** A server with two files in its directory, for the examples. *)
Definition twoFiles : Dir :=
  [mkFile (js "a.mp4") 1000 700; mkFile (js "b.mp4") 2000 300].

(** A production server where YouTube blocks yt-dlp and the first
    Invidious instance serves the video [foo] with a body of 4096 bytes. *)
Definition mirrorEnv : Env :=
  scripted true
    (fun cmd timeout => if timeout =? 5000 then Return (js "2024.01.01")
                        else Throw (mkError botMessage []))
    []
    (fun _ => Return (Some sampleInfo))
    (fun url =>
       if str_eqb url (js "https://yewtu.be/api/v1/videos/dQw4w9WgXcQ")
       then Return (mkResponse true (Return sampleData) (Throw (err "no body")))
       else if str_eqb url (js "https://cdn.example/v")
       then Return (mkResponse true (Throw (err "not JSON")) (Return 4096))
       else Throw (err "fetch failed"))
    (fun _ => None).

(** The eight beginnings of a URL that [validateYouTubeUrl] accepts. *)
Definition validPrefixes : list jsstring :=
  flat_map (fun scheme =>
    flat_map (fun www =>
      map (fun host => scheme ++ www ++ host) [watchPrefix; shortPrefix])
      [js "www."; []])
    [js "https://"; js "http://"].

(** A matcher that accepts every extension of what it accepts. *)
Definition extensible (k : jsstring -> bool) : Prop :=
  forall s t, k s = true -> k (s ++ t) = true.

(** The code units that end the capture of [extractVideoId]. *)
Definition endsId (rest : jsstring) : Prop :=
  match rest with
  | [] => True
  | c :: _ => isIdChar c = false
  end.

(** The part of the [try] of one instance before the file is written,
    server.js 716-768: what is to be written, [None] for [continue]. *)
Definition prepareInstance (videoId instance : jsstring)
  : M (option (jsstring * Z * InvData * InvFormat)) :=
  response <- fetch (instance ++ js "/api/v1/videos/" ++ videoId) ;;
  if negb (ok response) then ret None
  else
    data <- liftOutcome (json response) ;;
    if d_error data then ret None
    else
      match Rev1.chooseFormat data with
      | None => ret None
      | Some format =>
          videoResponse <- fetch (furl format) ;;
          if negb (ok videoResponse) then ret None
          else
            buffer <- liftOutcome (arrayBuffer videoResponse) ;;
            sanitized <- sanitizeFilenameOf (d_title data) ;;
            ret (Some (sanitized ++ js ".mp4", buffer, data, format))
      end.

(** [m] only sends HTTP requests: it keeps the clock and the directory. *)
Definition fetchesOnly {A} (m : M A) : Prop :=
  forall w, exists evs,
    reaches w evs (snd (m w)) /\ clock (snd (m w)) = clock w /\
    dir (snd (m w)) = dir w /\ Forall (fun e => isFetch e = true) evs /\
    (List.length evs <= 2)%nat.

(** An event of the fall-back that leaves the directory as it is: an HTTP
    request, or a write that failed. *)
Definition quietEvent (e : Event) : Prop :=
  fetchOrWrite e /\ isWriteOk e = false.

(** An event that is no child process, as a test. *)
Definition nonExec (e : Event) : bool := negb (isExec e).


(** The file of a result is an entry of the directory that is not empty. *)
Definition namesNonEmptyFile (result : DownloadResult) (w : World) : Prop :=
  exists d entry,
    dir w = Some d /\ In (filename result) (map fname d) /\
    statEntry d (filename result) = Some entry /\ fsize entry <> 0.

(** The name of the file of a result starts with the sanitized title of
    its video, or with [video_] when that is empty. *)
Definition namedAfterTitle (result : DownloadResult) : Prop :=
  exists t,
    vi_title (videoInfo result) = Some t /\
    filename result <> [] /\
    startsWith (filename result)
      match sanitizeFilename t with
      | [] => js "video_"
      | _ => sanitizeFilename t
      end = true.

(** The events of the attempts of the strategy runner of the second
    revision: nothing between two attempts. *)
Definition plainAttemptEvents (l : list Attempt) : list Event :=
  map (fun a => EvExec (fst a) 300000 (snd a)) l.

(** The messages of the classifier that come before the one for a failed
    command in its chain. *)
Definition specificMessages : list jsstring :=
  [ Rev2.unavailableMessage; Rev2.ageMessage; Rev2.removedMessage;
    Rev2.networkMessage; Rev2.formatMessage ].
(* ================================================================== *)
(** * Properties of the sanitizer *)
(* ================================================================== *)

Section Sanitizer.

Lemma space_not_forbidden : isForbidden SPACE = false.
Proof. reflexivity. Qed.

Lemma removeForbidden_clean s :
  Forall (fun c => isForbidden c = false) (removeForbidden s).
Proof.
  unfold removeForbidden. apply Forall_forall. intros c Hc.
  apply filter_In in Hc. destruct Hc as [_ Hc].
  now apply negb_true_iff in Hc.
Qed.

Lemma replaceWsRuns_clean s : forall r,
  Forall (fun c => isForbidden c = false) s ->
  Forall (fun c => isForbidden c = false) (replaceWsRuns r s).
Proof.
  induction s as [|c s IH]; intros r H; simpl; [constructor|].
  inversion H as [|? ? Hc Hs]; subst.
  destruct (isWhiteSpace c).
  - destruct r; [now apply IH|].
    constructor; [apply space_not_forbidden | now apply IH].
  - constructor; [assumption | now apply IH].
Qed.

(** [trimStart] keeps a suffix, [trimEnd] a prefix. *)
Lemma trimStart_suffix s : exists p, s = p ++ trimStart s.
Proof.
  induction s as [|c s [p IH]]; simpl.
  - now exists [].
  - destruct (isWhiteSpace c).
    + exists (c :: p). simpl. now f_equal.
    + now exists [].
Qed.

Lemma trimEnd_prefix s : exists q, s = trimEnd s ++ q.
Proof.
  unfold trimEnd. destruct (trimStart_suffix (rev s)) as [p Hp].
  exists (rev p). rewrite <- rev_app_distr, <- Hp. now rewrite rev_involutive.
Qed.

Lemma trim_infix s : exists p q, s = p ++ trim s ++ q.
Proof.
  unfold trim. destruct (trimStart_suffix s) as [p Hp].
  destruct (trimEnd_prefix (trimStart s)) as [q Hq].
  exists p, q. now rewrite <- Hq.
Qed.

Lemma trimStart_noLeading s : noLeadingWs (trimStart s).
Proof.
  induction s as [|c s IH]; intros x r H; simpl in H; [discriminate|].
  destruct (isWhiteSpace c) eqn:E.
  - now apply (IH x r).
  - now inversion H; subst.
Qed.

Lemma trimEnd_noTrailing s : noTrailingWs (trimEnd s).
Proof.
  intros r c H. unfold trimEnd in H.
  apply (f_equal (@rev N)) in H.
  rewrite rev_involutive, rev_app_distr in H. simpl in H.
  now apply (trimStart_noLeading (rev s) H).
Qed.

(** Trimming the end of a string that does not start with white space
    gives a string that does not start with white space. *)
Lemma trimEnd_noLeading s : noLeadingWs s -> noLeadingWs (trimEnd s).
Proof.
  intros Hs c r H. destruct (trimEnd_prefix s) as [q Hq].
  rewrite H in Hq. simpl in Hq. now apply (Hs c (r ++ q)).
Qed.

Lemma wsCollapsed_infix p s q : wsCollapsed (p ++ s ++ q) -> wsCollapsed s.
Proof.
  intros [H1 H2]. split.
  - intros c Hc. apply H1. apply in_or_app. right. apply in_or_app. now left.
  - intros a c d b E. subst s.
    apply (H2 (p ++ a) c d (b ++ q)).
    now rewrite <- !app_assoc.
Qed.

Lemma replaceWsRuns_In s : forall r c,
  In c (replaceWsRuns r s) -> isWhiteSpace c = true -> c = SPACE.
Proof.
  induction s as [|x s IH]; intros r c Hc Hw; simpl in Hc; [contradiction|].
  destruct (isWhiteSpace x) eqn:E.
  - destruct r; [now apply (IH true)|].
    destruct Hc as [<-|Hc]; [reflexivity | now apply (IH true)].
  - destruct Hc as [<-|Hc]; [congruence | now apply (IH false)].
Qed.

(** Inside a run nothing is produced until the run ends. *)
Lemma replaceWsRuns_inRun_head s : forall c r,
  replaceWsRuns true s = c :: r -> isWhiteSpace c = false.
Proof.
  induction s as [|x s IH]; intros c r H; simpl in H; [discriminate|].
  destruct (isWhiteSpace x) eqn:E.
  - now apply (IH c r).
  - now inversion H; subst.
Qed.

Lemma replaceWsRuns_adjacent s : forall r a c d b,
  replaceWsRuns r s = a ++ c :: d :: b ->
  isWhiteSpace c = true -> isWhiteSpace d = false.
Proof.
  induction s as [|x s IH]; intros r a c d b H Hw; simpl in H.
  - now destruct a.
  - destruct (isWhiteSpace x) eqn:E.
    + destruct r; [now apply (IH true a c d b)|].
      destruct a as [|y a]; simpl in H; inversion H; subst.
      * now apply (@replaceWsRuns_inRun_head s d b).
      * now apply (IH true a c d b).
    + destruct a as [|y a]; simpl in H; inversion H; subst.
      * congruence.
      * now apply (IH false a c d b).
Qed.

Lemma collapseWhitespace_collapsed s : wsCollapsed (collapseWhitespace s).
Proof.
  split.
  - intros c. apply replaceWsRuns_In.
  - intros a c d b. apply replaceWsRuns_adjacent.
Qed.

Lemma Forall_infix (P : N -> Prop) p s q : Forall P (p ++ s ++ q) -> Forall P s.
Proof.
  intros H. apply Forall_app in H. destruct H as [_ H].
  apply Forall_app in H. tauto.
Qed.

(** The code units that are neither forbidden nor white space pass
    through unchanged and in order. *)
Lemma replaceWsRuns_content s : forall r,
  filter (fun c => negb (isWhiteSpace c)) (replaceWsRuns r s)
  = filter (fun c => negb (isWhiteSpace c)) s.
Proof.
  induction s as [|x s IH]; intros r; simpl; [reflexivity|].
  destruct (isWhiteSpace x) eqn:E; simpl.
  - destruct r; simpl; now rewrite IH.
  - rewrite E. simpl. now rewrite IH.
Qed.

Lemma trimStart_content s :
  filter (fun c => negb (isWhiteSpace c)) (trimStart s)
  = filter (fun c => negb (isWhiteSpace c)) s.
Proof.
  induction s as [|x s IH]; simpl; [reflexivity|].
  destruct (isWhiteSpace x) eqn:E; simpl; [exact IH|].
  now rewrite E.
Qed.

Lemma filter_rev (A : Type) (f : A -> bool) (l : list A) :
  filter f (rev l) = rev (filter f l).
Proof.
  induction l as [|x l IH]; simpl; [reflexivity|].
  rewrite filter_app, IH. simpl. destruct (f x); simpl.
  - reflexivity.
  - now rewrite app_nil_r.
Qed.

Lemma trim_content s :
  filter (fun c => negb (isWhiteSpace c)) (trim s)
  = filter (fun c => negb (isWhiteSpace c)) s.
Proof.
  unfold trim, trimEnd.
  rewrite filter_rev, trimStart_content, filter_rev, rev_involutive.
  apply trimStart_content.
Qed.

Lemma sanitizeFilename_content s :
  filter (fun c => negb (isWhiteSpace c)) (sanitizeFilename s)
  = filter (fun c => negb (isWhiteSpace c) && negb (isForbidden c)) s.
Proof.
  unfold sanitizeFilename, collapseWhitespace, removeForbidden.
  rewrite trim_content, replaceWsRuns_content.
  induction s as [|x s IH]; simpl; [reflexivity|].
  destruct (isForbidden x) eqn:F, (isWhiteSpace x) eqn:W;
    simpl; rewrite ?W; simpl; now rewrite IH.
Qed.

(** ** The sanitizer, word by word *)

Lemma trimStart_app_single s c :
  trimStart (s ++ [c])
  = match trimStart s with
    | [] => if isWhiteSpace c then [] else [c]
    | t => t ++ [c]
    end.
Proof.
  induction s as [|x s IH]; simpl; [reflexivity|].
  destruct (isWhiteSpace x); [exact IH | reflexivity].
Qed.

Lemma trimEnd_cons c s :
  trimEnd (c :: s)
  = match trimEnd s with
    | [] => if isWhiteSpace c then [] else [c]
    | t => c :: t
    end.
Proof.
  unfold trimEnd. simpl rev. rewrite trimStart_app_single.
  destruct (trimStart (rev s)) as [|x t] eqn:E.
  - simpl. now destruct (isWhiteSpace c).
  - rewrite rev_app_distr. cbn [rev app].
    destruct (rev t ++ [x]) as [|y u] eqn:R; [|reflexivity].
    apply app_eq_nil in R. destruct R as [_ R]. discriminate R.
Qed.

Lemma trimEnd_cons_word c s :
  isWhiteSpace c = false -> trimEnd (c :: s) = c :: trimEnd s.
Proof.
  intros H. rewrite trimEnd_cons, H. now destruct (trimEnd s).
Qed.

(** After the start of a run, [trimStart] has nothing to strip. *)
Lemma trimStart_inRun s : trimStart (replaceWsRuns true s) = replaceWsRuns true s.
Proof.
  destruct (replaceWsRuns true s) as [|c r] eqn:E; [reflexivity|].
  simpl. now rewrite (@replaceWsRuns_inRun_head s c r E).
Qed.

Lemma trimStart_collapsed s :
  trimStart (replaceWsRuns false s) = replaceWsRuns true s.
Proof.
  destruct s as [|c s]; [reflexivity|]. simpl.
  destruct (isWhiteSpace c) eqn:E.
  - change (trimStart (SPACE :: replaceWsRuns true s))
      with (trimStart (replaceWsRuns true s)).
    apply trimStart_inRun.
  - simpl. now rewrite E.
Qed.

Lemma joinWords_cons_char c w ws :
  joinWords ((c :: w) :: ws) = c :: joinWords (w :: ws).
Proof. simpl. now destruct ws. Qed.

Lemma wordsOf_nonempty s : Forall (fun w => w <> []) (wordsOf s).
Proof.
  induction s as [|c s IH]; simpl; [constructor|].
  destruct (isWhiteSpace c); [exact IH|].
  destruct s as [|d s']; [repeat constructor; discriminate|].
  destruct (isWhiteSpace d).
  - constructor; [discriminate | exact IH].
  - destruct (wordsOf (d :: s')) as [|w ws]; [repeat constructor; discriminate|].
    inversion IH; subst. constructor; [discriminate | assumption].
Qed.

Lemma joinWords_nil ws :
  Forall (fun w : jsstring => w <> []) ws -> joinWords ws = [] -> ws = [].
Proof.
  destruct ws as [|w rest]; [reflexivity|].
  intros H E. inversion H as [|? ? Hw _]; subst. simpl in E.
  destruct rest; [contradiction|].
  destruct w; [contradiction | discriminate].
Qed.

(** What is left of the collapsed string when its end is trimmed, inside
    a run and outside. *)
Lemma trimEnd_collapsed s :
  trimEnd (replaceWsRuns true s) = joinWords (wordsOf s) /\
  trimEnd (replaceWsRuns false s)
  = match s with
    | c :: _ =>
        if isWhiteSpace c
        then match joinWords (wordsOf s) with
             | [] => []
             | j => SPACE :: j
             end
        else joinWords (wordsOf s)
    | [] => []
    end.
Proof.
  induction s as [|c s [IHt IHf]]; [split; reflexivity|].
  cbn [replaceWsRuns wordsOf].
  destruct (isWhiteSpace c) eqn:E.
  - split; [exact IHt|].
    rewrite trimEnd_cons, IHt.
    assert (W : isWhiteSpace SPACE = true) by reflexivity.
    rewrite W. reflexivity.
  - assert (H : trimEnd (c :: replaceWsRuns false s) = joinWords
               match s with
               | [] => [[c]]
               | d :: _ =>
                   if isWhiteSpace d then [c] :: wordsOf s
                   else match wordsOf s with
                        | w :: ws => (c :: w) :: ws
                        | [] => [[c]]
                        end
               end).
    { rewrite (@trimEnd_cons_word c _ E), IHf.
      destruct s as [|d s']; [reflexivity|].
      destruct (isWhiteSpace d) eqn:D.
      - pose proof (wordsOf_nonempty (d :: s')) as Hne.
        destruct (wordsOf (d :: s')) as [|w ws] eqn:Ew; [reflexivity|].
        destruct (joinWords (w :: ws)) as [|x j] eqn:Ej.
        + apply (@joinWords_nil _ Hne) in Ej. discriminate.
        + change (joinWords ([c] :: w :: ws))
            with (c :: SPACE :: joinWords (w :: ws)).
          now rewrite Ej.
      - destruct (wordsOf (d :: s')) as [|w ws]; [reflexivity|].
        now rewrite joinWords_cons_char. }
    split; exact H.
Qed.

(** The sanitizer takes the words of what is left when the forbidden
    characters are deleted, and puts one space between two of them. *)
Lemma sanitizeFilename_words filename :
  sanitizeFilename filename
  = joinWords (wordsOf (filter (fun c => negb (isForbidden c)) filename)).
Proof.
  unfold sanitizeFilename, trim, collapseWhitespace, removeForbidden.
  rewrite trimStart_collapsed. apply trimEnd_collapsed.
Qed.

End Sanitizer.

(** C5.  Whatever the input, the output of [sanitizeFilename] holds none of
    the nine forbidden characters, every white-space code unit of it
    is a single space that no other white space follows, and it neither
    starts nor ends with white space; and it is the input without its
    forbidden characters, every run of white space between two words
    collapsed to a single space and the white space at both ends
    removed: the words of the input, in order, with one space between
    two of them. *)
Theorem C5_sanitizeFilename_safe (filename : jsstring) :
  Forall (fun c => isForbidden c = false) (sanitizeFilename filename) /\
  wsCollapsed (sanitizeFilename filename) /\
  noLeadingWs (sanitizeFilename filename) /\
  noTrailingWs (sanitizeFilename filename) /\
  sanitizeFilename filename
  = joinWords (wordsOf (filter (fun c => negb (isForbidden c)) filename)).
Proof.
  assert (Hshape :
    Forall (fun c => isForbidden c = false) (sanitizeFilename filename) /\
    wsCollapsed (sanitizeFilename filename) /\
    noLeadingWs (sanitizeFilename filename) /\
    noTrailingWs (sanitizeFilename filename)).
  { unfold sanitizeFilename.
    set (t := collapseWhitespace (removeForbidden filename)).
    destruct (trim_infix t) as (p & q & Ht).
    repeat split.
    - apply (@Forall_infix _ p _ q). rewrite <- Ht.
      apply replaceWsRuns_clean, removeForbidden_clean.
    - apply (@wsCollapsed_infix p _ q). rewrite <- Ht.
      apply collapseWhitespace_collapsed.
    - apply (@wsCollapsed_infix p _ q). rewrite <- Ht.
      apply collapseWhitespace_collapsed.
    - unfold trim. apply trimEnd_noLeading, trimStart_noLeading.
    - unfold trim. apply trimEnd_noTrailing. }
  destruct Hshape as (H1 & H2 & H3 & H4).
  repeat (split; [assumption|]). apply sanitizeFilename_words.
Qed.

(** Runs of white space inside, at the start and at the end; a forbidden
    character between two letters joins them. *)
Example sanitizeFilename_examples :
  sanitizeFilename (js "a  b") = js "a b" /\
  sanitizeFilename (js "  My   Video: part 1/2?  ") = js "My Video part 12" /\
  sanitizeFilename (js "a <> b") = js "a b" /\
  sanitizeFilename (js " ?? ") = [] /\
  wordsOf (js "  My   Video part ") = [js "My"; js "Video"; js "part"].
Proof. vm_compute. repeat split; reflexivity. Qed.

(* ================================================================== *)
(** * Running the monad *)
(* ================================================================== *)

(** Case analysis on the innermost scrutinee of the goal. *)
Ltac break_match :=
  match goal with
  | |- context [match ?x with _ => _ end] =>
      lazymatch x with
      | context [match _ with _ => _ end] => fail
      | _ => destruct x eqn:?; simpl
      end
  end.

Section Running.

Lemma reaches_refl w : reaches w [] w.
Proof. split; [reflexivity | now rewrite app_nil_r]. Qed.

Lemma reaches_trans w a w1 b w2 :
  reaches w a w1 -> reaches w1 b w2 -> reaches w (a ++ b) w2.
Proof.
  intros [E1 T1] [E2 T2]. split.
  - congruence.
  - rewrite T2, T1. now rewrite app_assoc.
Qed.

Lemma reaches_execAsync cmd timeout w :
  reaches w [EvExec cmd timeout (fst (execAsync cmd timeout w))]
          (snd (execAsync cmd timeout w)).
Proof. split; reflexivity. Qed.

Lemma reaches_sleep ms w : reaches w [EvSleep ms] (snd (sleep ms w)).
Proof. split; reflexivity. Qed.

Lemma reaches_fetch url w :
  reaches w [EvFetch url (fst (fetch url w))] (snd (fetch url w)).
Proof. split; reflexivity. Qed.

Lemma reaches_newEvents A (m : M A) w evs :
  reaches w evs (snd (m w)) -> newEvents m w = evs.
Proof.
  intros [_ T]. unfold newEvents. rewrite T.
  rewrite skipn_app, skipn_all, Nat.sub_diag. reflexivity.
Qed.

(** A step of [bind], for a computation whose outcome is known. *)
Lemma bind_Return A B (m : M A) (f : A -> M B) w a w' :
  m w = (Return a, w') -> bind m f w = f a w'.
Proof. intros H. unfold bind. now rewrite H. Qed.

Lemma bind_Throw A B (m : M A) (f : A -> M B) w e w' :
  m w = (Throw e, w') -> bind m f w = (Throw e, w').
Proof. intros H. unfold bind. now rewrite H. Qed.

Lemma tryCatch_run A (m : M A) w :
  tryCatch m w = (Return (fst (m w)), snd (m w)).
Proof. unfold tryCatch. now destruct (m w). Qed.

(** [ensureDownloadsDir] logs nothing and leaves a directory. *)
Lemma ensureDownloadsDir_run w :
  exists w', ensureDownloadsDir w = (Return tt, w') /\
             reaches w [] w' /\ clock w' = clock w /\
             dir w' = Some (match dir w with Some d => d | None => [] end).
Proof.
  unfold ensureDownloadsDir, bind, existsDownloadsDir, mkdirDownloadsDir, ret.
  destruct w as [e t [d|] tr]; simpl; eexists; split; try reflexivity;
    repeat split; simpl; now rewrite ?app_nil_r.
Qed.

(** Splitting a log at an event that its first part does not hold. *)
Lemma app_split_later (l1 l2 pre post : list Event) (x : Event) :
  l1 ++ l2 = pre ++ x :: post -> ~ In x l1 ->
  exists pre', pre = l1 ++ pre' /\ l2 = pre' ++ x :: post.
Proof.
  revert pre. induction l1 as [|y l1 IH]; intros pre H Hx; simpl in H.
  - now exists pre.
  - destruct pre as [|p pre]; simpl in H; inversion H; subst.
    + exfalso. apply Hx. now left.
    + destruct (IH pre H2) as (pre' & -> & ->).
      * intros Hin. apply Hx. now right.
      * now exists pre'.
Qed.

End Running.

Arguments bind_Return {A B m} f {w a w'} _.
Arguments bind_Throw {A B m} f {w e w'} _.

(* ================================================================== *)
(** * The strategy runner *)
(* ================================================================== *)

Section Runner.

Lemma failed_Throw command e : failed (command, Throw e).
Proof. now exists e. Qed.

Lemma lastErrorOf_failed attempts : forall d,
  Forall failed attempts -> attempts <> [] ->
  exists done command e,
    attempts = done ++ [(command, Throw e)] /\
    lastErrorOf attempts d = Some e.
Proof.
  induction attempts as [|[c o] l IH]; intros d H Hne; [congruence|].
  inversion H as [|? ? [e He] Hl]; subst. simpl in He. subst o.
  destruct l as [|a l'].
  - exists [], c, e. now split.
  - destruct (IH (Some e) Hl) as (done & c' & e' & -> & E); [discriminate|].
    exists ((c, Throw e) :: done), c', e'. split; [reflexivity|].
    simpl. simpl in E. exact E.
Qed.

(** The loop from index [i] on: the attempts are a prefix of the
    strategies, the log grows by their events, and the loop is left
    either at the first success or after the last strategy. *)
Lemma strategyLoop_spec strategies : forall i lastError w,
  exists attempts rest,
    strategies = map fst attempts ++ rest /\
    reaches w (attemptEvents (i =? 0)%nat attempts)
            (snd (Rev1.strategyLoop i strategies lastError w)) /\
    ((exists done command out,
        attempts = done ++ [(command, Return out)] /\ Forall failed done /\
        fst (Rev1.strategyLoop i strategies lastError w)
        = Return (true, lastErrorOf done lastError))
     \/
     (rest = [] /\ Forall failed attempts /\
      fst (Rev1.strategyLoop i strategies lastError w)
      = Return (false, lastErrorOf attempts lastError))).
Proof.
  induction strategies as [|command rest IH]; intros i lastError w.
  - exists [], []. repeat split; simpl; try now rewrite app_nil_r.
    right. repeat split. constructor.
  - cbn [Rev1.strategyLoop].
    set (step := (if (0 <? i)%nat then sleep 2000 else ret tt) ;;;
                 execAsync command 300000).
    assert (Hstep : exists o w1,
               step w = (o, w1) /\
               reaches w ((if (i =? 0)%nat then [] else [EvSleep 2000])
                          ++ [EvExec command 300000 o]) w1).
    { unfold step, bind. destruct i as [|i]; simpl.
      - eexists _, _. split; [apply surjective_pairing|].
        apply (@reaches_execAsync command 300000 w).
      - eexists _, _. split; [apply surjective_pairing|].
        apply (@reaches_trans _ [EvSleep 2000] (snd (sleep 2000 w))).
        + apply reaches_sleep.
        + apply (@reaches_execAsync command 300000). }
    destruct Hstep as (o & w1 & Hrun & Hreach).
    rewrite (@bind_Return _ _ (tryCatch step) _ w o w1)
      by (rewrite tryCatch_run, Hrun; reflexivity).
    destruct o as [out|e].
    + exists [(command, Return out)], rest. split; [reflexivity|]. split.
      * simpl. exact Hreach.
      * left. exists [], command, out. repeat split. constructor.
    + destruct (IH (S i) (Some e) w1) as (attempts & rest' & Hs & Hr & Hcase).
      exists ((command, Throw e) :: attempts), rest'. split; [|split].
      * simpl. now rewrite Hs.
      * simpl attemptEvents.
        replace ((if (i =? 0)%nat then [] else [EvSleep 2000])
                 ++ EvExec command 300000 (Throw e) :: attemptEvents false attempts)
          with (((if (i =? 0)%nat then [] else [EvSleep 2000])
                 ++ [EvExec command 300000 (Throw e)])
                ++ attemptEvents false attempts)
          by (now rewrite <- app_assoc).
        eapply reaches_trans; [exact Hreach | exact Hr].
      * destruct Hcase as [(done & c & out & -> & Hd & Hres)|(-> & Hf & Hres)].
        -- left. exists ((command, Throw e) :: done), c, out.
           repeat split; [constructor; [apply failed_Throw | exact Hd]|].
           exact Hres.
        -- right. repeat split; [constructor; [apply failed_Throw | exact Hf]|].
           exact Hres.
Qed.

(** The whole runner. *)
Lemma runStrategies_spec (strategies : list jsstring) (w : World) :
  exists attempts rest,
    strategies = map fst attempts ++ rest /\
    reaches w (attemptEvents true attempts)
            (snd (Rev1.runStrategies strategies w)) /\
    ((exists done command out,
        attempts = done ++ [(command, Return out)] /\ Forall failed done /\
        fst (Rev1.runStrategies strategies w) = Return tt)
     \/
     (rest = [] /\ Forall failed attempts /\
      ((exists done command e,
          attempts = done ++ [(command, Throw e)] /\
          fst (Rev1.runStrategies strategies w) = Throw e)
       \/
       (strategies = [] /\
        exists e, message e = js "Todas as estratégias falharam" /\
                  fst (Rev1.runStrategies strategies w) = Throw e)))).
Proof.
  destruct (strategyLoop_spec strategies 0 None w)
    as (attempts & rest & Hs & Hr & Hcase).
  exists attempts, rest. unfold Rev1.runStrategies, bind.
  destruct (Rev1.strategyLoop 0 strategies None w) as [[[b le]|e] w1] eqn:Hrun;
    simpl in Hr, Hcase.
  - destruct Hcase as [(done & c & out & -> & Hd & Hres)|(-> & Hf & Hres)];
      inversion Hres; subst b le; simpl.
    + split; [assumption|]. split; [exact Hr|].
      left. exists done, c, out. now repeat split.
    + split; [assumption|].
      destruct attempts as [|a l].
      * simpl. split; [exact Hr|]. right.
        split; [reflexivity|]. split; [constructor|].
        right. split; [now rewrite Hs|]. eexists. split; [|reflexivity].
        reflexivity.
      * destruct (@lastErrorOf_failed (a :: l) None Hf)
          as (done & c & e & E & Hl); [discriminate|].
        rewrite Hl. simpl. split; [exact Hr|]. right.
        split; [reflexivity|]. split; [exact Hf|].
        left. exists done, c, e. now split.
  - destruct Hcase as [(? & ? & ? & _ & _ & Hres)|(_ & _ & Hres)]; discriminate.
Qed.

End Runner.

(** C1.  For every ordered list of strategies the strategy runner attempts
    a prefix of the list, in order, with a wait of two seconds before every
    attempt but the first; it either stops at the first attempt that
    succeeds, all attempts before it having failed and no later strategy
    being attempted, or it attempts every strategy, all fail, and it throws
    the error of the last attempt (the fixed error when there is no
    strategy at all). *)
Theorem C1_strategy_runner_order (strategies : list jsstring) (w : World) :
  exists attempts rest,
    strategies = map fst attempts ++ rest /\
    reaches w (attemptEvents true attempts)
            (snd (Rev1.runStrategies strategies w)) /\
    ((exists done command out,
        attempts = done ++ [(command, Return out)] /\ Forall failed done /\
        fst (Rev1.runStrategies strategies w) = Return tt)
     \/
     (rest = [] /\ Forall failed attempts /\
      ((exists done command e,
          attempts = done ++ [(command, Throw e)] /\
          fst (Rev1.runStrategies strategies w) = Throw e)
       \/
       (strategies = [] /\
        exists e, message e = js "Todas as estratégias falharam" /\
                  fst (Rev1.runStrategies strategies w) = Throw e)))).
Proof. exact (runStrategies_spec strategies w). Qed.

(** With strategies [A; B] where [A] fails and [B] succeeds the runner
    succeeds after [A], a wait and [B]; a strategy after [B] is not run. *)
Example runner_second_wins :
  let A := js "A --format best" in
  let B := js "B --format worst" in
  let C := js "C --format other" in
  let r := Rev1.runStrategies [A; B; C] (start secondWinsEnv 0 (Some [])) in
  fst r = Return tt /\
  trace (snd r)
  = [ EvExec A 300000 (Throw (err "ERROR: Requested format is not available"));
      EvSleep 2000;
      EvExec B 300000 (Return (js "{}")) ].
Proof. vm_compute. split; reflexivity. Qed.

(** When every strategy fails the error is the one of the last attempt. *)
Example runner_last_error :
  let env := scripted false
               (fun cmd _ => Throw (mkError (js "failed: " ++ cmd) []))
               [] (fun _ => Return None) noHttp (fun _ => None) in
  fst (Rev1.runStrategies [js "A"; js "B"] (start env 0 (Some [])))
  = Throw (mkError (js "failed: B") []).
Proof. vm_compute. reflexivity. Qed.

(* ================================================================== *)
(** * The gate of the fall-back *)
(* ================================================================== *)

Section Substrings.

Lemma startsWith_spec prefix : forall s,
  startsWith s prefix = true <-> exists post, s = prefix ++ post.
Proof.
  induction prefix as [|p prefix IH]; intros s; destruct s as [|c s]; simpl.
  - split; [intros _; now exists [] | reflexivity].
  - split; [intros _; now exists (c :: s) | reflexivity].
  - split; [discriminate | intros [post H]; discriminate].
  - rewrite andb_true_iff, N.eqb_eq, IH. split.
    + intros [-> [post ->]]. now exists post.
    + intros [post H]. inversion H; subst. split; [reflexivity | now exists post].
Qed.

(** [includes] decides the occurrence of a substring. *)
Lemma includes_spec sub : forall s,
  includes s sub = true <-> contains s sub.
Proof.
  induction s as [|c s IH].
  - cbn [includes]. rewrite orb_false_r, startsWith_spec. split.
    + intros [post H]. now exists [], post.
    + intros (pre & post & H). destruct pre as [|x pre]; [|discriminate].
      now exists post.
  - cbn [includes]. rewrite orb_true_iff, IH, startsWith_spec. split.
    + intros [[post H]|(pre & post & H)].
      * now exists [], post.
      * exists (c :: pre), post. simpl. now rewrite H.
    + intros (pre & post & H). destruct pre as [|x pre].
      * left. now exists post.
      * right. inversion H; subst. now exists pre, post.
Qed.

Lemma isBotError_spec msg :
  Rev1.isBotError msg = true <->
  (contains msg (js "bot") \/ contains msg (js "Sign in to confirm")
   \/ contains msg (js "age")).
Proof.
  unfold Rev1.isBotError.
  rewrite !orb_true_iff, !includes_spec. tauto.
Qed.

(** The two branches of the [catch] of [downloadVideoForWeb]. *)
Lemma downloadVideoForWeb_gate videoUrl w error w1 :
  Rev1.downloadViaYtDlp videoUrl w = (Throw error, w1) ->
  Rev1.downloadVideoForWeb videoUrl w
  = if Rev1.isBotError (message error)
    then Rev1.downloadViaInvidious videoUrl w1
    else (Throw error, w1).
Proof.
  intros Hrun. unfold Rev1.downloadVideoForWeb.
  rewrite (@bind_Return _ _ _ _ w (Throw error) w1)
    by (rewrite tryCatch_run, Hrun; reflexivity).
  now destruct (Rev1.isBotError (message error)).
Qed.

End Substrings.

(** C2.  When the primary path fails, the fall-back is run, once and from
    the state that the primary path left, if and only if the message of
    the failure contains [bot], [Sign in to confirm] or [age]; for a
    message that contains none of them the fall-back is not run: the very
    same error is thrown and nothing more has happened. *)
Theorem C2_fallback_iff_signature
    (videoUrl : jsstring) (w w1 : World) (error : JsError) :
  Rev1.downloadViaYtDlp videoUrl w = (Throw error, w1) ->
  let signature :=
    contains (message error) (js "bot")
    \/ contains (message error) (js "Sign in to confirm")
    \/ contains (message error) (js "age") in
  (signature ->
   Rev1.downloadVideoForWeb videoUrl w = Rev1.downloadViaInvidious videoUrl w1)
  /\
  (~ signature ->
   Rev1.downloadVideoForWeb videoUrl w = (Throw error, w1)).
Proof.
  intros Hrun signature. rewrite (downloadVideoForWeb_gate _ _ Hrun).
  destruct (Rev1.isBotError (message error)) eqn:E.
  - split; [reflexivity|]. intros Hn. exfalso. apply Hn.
    now apply isBotError_spec.
  - split; [|reflexivity]. intros Hs. apply isBotError_spec in Hs. congruence.
Qed.

(** The block of the example is a signature: the fall-back takes over. *)
Lemma C2_fallback_iff_signature_witness :
  let w := start blockedEnv 0 None in
  Rev1.downloadVideoForWeb sampleUrl w
  = Rev1.downloadViaInvidious sampleUrl (snd (Rev1.downloadViaYtDlp sampleUrl w)).
Proof.
  intros w.
  refine (proj1 (@C2_fallback_iff_signature sampleUrl w
                   (snd (Rev1.downloadViaYtDlp sampleUrl w))
                   (mkError botMessage []) _) _).
  - vm_compute. reflexivity.
  - right. left. apply includes_spec. vm_compute. reflexivity.
Defined.

(** A failure that is no signature is passed on as it is. *)
Example gate_propagates :
  let w := start offlineEnv 0 None in
  Rev1.downloadVideoForWeb sampleUrl w = Rev1.downloadViaYtDlp sampleUrl w /\
  fst (Rev1.downloadVideoForWeb sampleUrl w)
  = Throw (err "Command failed: Video unavailable").
Proof. vm_compute. split; reflexivity. Qed.

(** When the primary path succeeds the fall-back is not run either. *)
Lemma primary_success_no_fallback videoUrl w result w1 :
  Rev1.downloadViaYtDlp videoUrl w = (Return result, w1) ->
  Rev1.downloadVideoForWeb videoUrl w = (Return result, w1).
Proof.
  intros Hrun. unfold Rev1.downloadVideoForWeb.
  now rewrite (@bind_Return _ _ _ _ w (Return result) w1)
    by (rewrite tryCatch_run, Hrun; reflexivity).
Qed.

(* ================================================================== *)
(** * The yt-dlp invoker and the shape of a primary run *)
(* ================================================================== *)

Section Invoker.

Lemma probe_spec options : forall w,
  exists probes rest,
    options = map fst probes ++ rest /\
    reaches w (probeEvents probes) (snd (probe options w)) /\
    ((exists done cmd out,
        probes = done ++ [(cmd, Return out)] /\ Forall failed done /\
        fst (probe options w) = Return (Some cmd))
     \/
     (rest = [] /\ Forall failed probes /\
      fst (probe options w) = Return None)).
Proof.
  induction options as [|cmd rest IH]; intros w.
  - exists [], []. split; [reflexivity|]. split; [apply reaches_refl|].
    right. repeat split. constructor.
  - cbn [probe].
    destruct (execAsync (versionQuery cmd) 5000 w) as [o w1] eqn:Hrun.
    assert (Hreach : reaches w [EvExec (versionQuery cmd) 5000 o] w1).
    { pose proof (@reaches_execAsync (versionQuery cmd) 5000 w) as H.
      now rewrite Hrun in H. }
    rewrite (@bind_Return _ _ _ _ w o w1)
      by (rewrite tryCatch_run, Hrun; reflexivity).
    destruct o as [out|e].
    + exists [(cmd, Return out)], rest. split; [reflexivity|].
      split; [exact Hreach|].
      left. exists [], cmd, out. repeat split. constructor.
    + destruct (IH w1) as (probes & rest' & Hs & Hr & Hcase).
      exists ((cmd, Throw e) :: probes), rest'. split; [|split].
      * simpl. now rewrite Hs.
      * apply (@reaches_trans w [EvExec (versionQuery cmd) 5000 (Throw e)] w1);
          assumption.
      * destruct Hcase as [(done & c & out & -> & Hd & Hres)|(-> & Hf & Hres)].
        -- left. exists ((cmd, Throw e) :: done), c, out.
           repeat split; [constructor; [apply failed_Throw | exact Hd]|].
           exact Hres.
        -- right. repeat split; [constructor; [apply failed_Throw | exact Hf]|].
           exact Hres.
Qed.

(** The detection: either a command is settled on, or, in production,
    every candidate failed its version query. *)
Lemma detectYtDlp_spec notFound w :
  exists probes w1,
    snd (detectYtDlp notFound w) = w1 /\
    reaches w (probeEvents probes) w1 /\
    ((exists cmd, fst (detectYtDlp notFound w) = Return cmd /\
                  detected (env w) probes cmd)
     \/
     (production (env w) = true /\ Forall failed probes /\
      map fst probes = ytdlpOptions /\
      fst (detectYtDlp notFound w)
      = Throw (mkError notFound (stackOf (env w) notFound)))).
Proof.
  unfold detectYtDlp, bind, getEnv, detected.
  destruct (production (env w)) eqn:Hp.
  - destruct (probe_spec ytdlpOptions w) as (probes & rest & Hs & Hr & Hcase).
    exists probes, (snd (probe ytdlpOptions w)).
    destruct (probe ytdlpOptions w) as [[found|e] w1] eqn:Hrun;
      simpl in Hr, Hcase |- *.
    + destruct Hcase as [(done & c & out & -> & Hd & Hres)|(-> & Hf & Hres)];
        inversion Hres; subst found; simpl.
      * split; [reflexivity|]. split; [exact Hr|]. left.
        exists c. split; [reflexivity|]. now exists done, out, rest.
      * split; [reflexivity|]. split; [exact Hr|]. right.
        repeat split; [exact Hf | now rewrite Hs, app_nil_r |].
        unfold throwNew. simpl. destruct Hr as [-> _]. reflexivity.
    + destruct Hcase as [(? & ? & ? & _ & _ & Hres)|(_ & _ & Hres)];
        discriminate.
  - exists [], w. split; [reflexivity|]. split; [apply reaches_refl|].
    left. exists (js "./yt-dlp"). now repeat split.
Qed.

(** The metadata stage runs the metadata query and nothing else. *)
Lemma fetchInfo_spec cmd videoUrl noInfo w :
  let res := fst (execAsync (infoCommand cmd videoUrl) 30000 w) in
  let w1 := snd (execAsync (infoCommand cmd videoUrl) 30000 w) in
  snd (fetchInfo cmd videoUrl noInfo w) = w1 /\
  reaches w [EvExec (infoCommand cmd videoUrl) 30000 res] w1 /\
  ((exists e, fst (fetchInfo cmd videoUrl noInfo w) = Throw e /\
              metadataFailure (env w) noInfo res e)
   \/
   (exists out info sanitizedTitle,
      res = Return out /\ jsonParse (env w) out = Return (Some info) /\
      fst (fetchInfo cmd videoUrl noInfo w) = Return (info, sanitizedTitle))).
Proof.
  intros res w1. subst res w1.
  pose proof (@reaches_execAsync (infoCommand cmd videoUrl) 30000 w) as Hreach.
  unfold fetchInfo, bind.
  destruct (execAsync (infoCommand cmd videoUrl) 30000 w) as [[out|e] w1] eqn:Hrun;
    simpl in Hreach |- *.
  - assert (He : env w1 = env w) by apply Hreach.
    unfold getEnv, liftOutcome. rewrite He.
    destruct (jsonParse (env w) out) as [[info|]|e] eqn:Hp; simpl.
    + unfold sanitizeFilenameOf.
      destruct (title info) as [t|] eqn:Ht; simpl.
      * split; [reflexivity|]. split; [exact Hreach|]. right.
        eexists out, info, _. rewrite ?Hp. repeat split; reflexivity.
      * split; [reflexivity|]. split; [exact Hreach|]. left.
        eexists. split; [reflexivity|]. unfold metadataFailure.
        rewrite ?Hp, ?He. now split.
    + split; [reflexivity|]. split; [exact Hreach|]. left.
      eexists. split; [reflexivity|]. unfold metadataFailure.
      rewrite ?Hp, ?He. reflexivity.
    + split; [reflexivity|]. split; [exact Hreach|]. left.
      exists e. split; [reflexivity|]. unfold metadataFailure.
      now rewrite ?Hp.
  - split; [reflexivity|]. split; [exact Hreach|]. left.
    exists e. now split.
Qed.

(** The locator reads the directory and changes nothing. *)
Lemma locateDownloaded_pure sanitizedTitle notCreated emptyFile w :
  snd (locateDownloaded sanitizedTitle notCreated emptyFile w) = w.
Proof.
  destruct w as [e t [d|] tr];
    unfold locateDownloaded, bind, readdirSync, currentDir, existsSync,
      statSync, throwNew, ret; simpl; [|reflexivity].
  repeat break_match; reflexivity.
Qed.

End Invoker.

Section Title.

Lemma video_prefix_nonempty rest : js "video_" ++ rest <> [].
Proof. vm_compute. discriminate. Qed.

Lemma fetchInfo_title_spec
    (cmd videoUrl noInfo : jsstring) (w w' : World)
    (info : YtInfo) (sanitizedTitle : jsstring) :
  fetchInfo cmd videoUrl noInfo w = (Return (info, sanitizedTitle), w') ->
  sanitizedTitle <> [] /\
  exists t,
    title info = Some t /\
    sanitizedTitle
    = match sanitizeFilename t with
      | [] => js "video_" ++ video_id info ++ js "_" ++ Z_to_js (clock w')
      | _ => sanitizeFilename t
      end.
Proof.
  unfold fetchInfo, bind, getEnv, liftOutcome, sanitizeFilenameOf, throwNew,
    dateNow, ret.
  destruct (execAsync (infoCommand cmd videoUrl) 30000 w) as [[out|e] w1];
    [|discriminate].
  destruct (jsonParse (env w1) out) as [[i|]|e]; try discriminate.
  destruct (title i) as [t|] eqn:Ht; [|discriminate].
  intros H.
  assert (E : i = info /\ w1 = w' /\
              sanitizedTitle
              = match sanitizeFilename t with
                | [] => js "video_" ++ video_id i ++ js "_" ++ Z_to_js (clock w1)
                | _ => sanitizeFilename t
                end)
    by (injection H; intros; subst; repeat split).
  destruct E as (-> & -> & ->). split.
  - destruct (sanitizeFilename t); [apply video_prefix_nonempty | discriminate].
  - exists t. split; [exact Ht | reflexivity].
Qed.

End Title.

Section PrimaryRun.

Lemma run_pair A (x : Outcome A * World) o w :
  fst x = o -> snd x = w -> x = (o, w).
Proof. destruct x; simpl; congruence. Qed.

(** The shape of every run of the primary path: the version queries,
    then, if a command was found, the metadata query, then, if the
    metadata are usable, the attempts of the strategy runner. *)
Lemma downloadViaYtDlp_shape videoUrl w :
  let run := Rev1.downloadViaYtDlp videoUrl w in
  exists probes,
    (production (env w) = true /\ Forall failed probes /\
     map fst probes = ytdlpOptions /\
     reaches w (probeEvents probes) (snd run) /\
     fst run = Throw (mkError notFound1 (stackOf (env w) notFound1)))
    \/
    (exists cmd res,
       detected (env w) probes cmd /\
       ((exists e,
           metadataFailure (env w) noInfo1 res e /\
           reaches w (probeEvents probes
                      ++ [EvExec (infoCommand cmd videoUrl) 30000 res])
                   (snd run) /\
           fst run = Throw e)
        \/
        (exists out attempts,
           res = Return out /\ parseable (env w) out /\
           reaches w (probeEvents probes
                      ++ [EvExec (infoCommand cmd videoUrl) 30000 res]
                      ++ attemptEvents true attempts)
                   (snd run)))).
Proof.
  intros run. subst run. unfold Rev1.downloadViaYtDlp.
  destruct (ensureDownloadsDir_run w) as (w0 & Hens & Hr0 & _ & _).
  rewrite (bind_Return _ Hens).
  destruct (detectYtDlp_spec notFound1 w0) as (probes & w1 & Hsnd & Hr1 & Hdet).
  assert (He0 : env w0 = env w) by apply Hr0.
  assert (Hw1 : reaches w (probeEvents probes) w1)
    by exact (reaches_trans Hr0 Hr1).
  exists probes.
  destruct Hdet as [(cmd & Hfst & Hd)|(Hp & Hf & Hm & Hfst)].
  - rewrite (bind_Return _ (run_pair _ Hfst Hsnd)).
    right. exists cmd, (fst (execAsync (infoCommand cmd videoUrl) 30000 w1)).
    rewrite He0 in Hd. split; [exact Hd|].
    destruct (fetchInfo_spec cmd videoUrl noInfo1 w1) as (Hs2 & Hr2 & Hcase).
    set (res := fst (execAsync (infoCommand cmd videoUrl) 30000 w1)) in *.
    set (w2 := snd (execAsync (infoCommand cmd videoUrl) 30000 w1)) in *.
    assert (He1 : env w1 = env w) by apply Hw1.
    destruct Hcase as [(e & Hfst2 & Hfail)|(out & info & t & Hres & Hparse & Hfst2)].
    + left. exists e. rewrite (bind_Throw _ (run_pair _ Hfst2 Hs2)).
      rewrite He1 in Hfail. simpl.
      split; [exact Hfail|]. split; [|reflexivity].
      exact (reaches_trans Hw1 Hr2).
    + right. rewrite (bind_Return _ (run_pair _ Hfst2 Hs2)).
      destruct (runStrategies_spec
                  (Rev1.downloadStrategies cmd t videoUrl) w2)
        as (attempts & rest & _ & Hr3 & _).
      exists out, attempts. rewrite He1 in Hparse.
      split; [exact Hres|]. split; [now exists info|].
      assert (Hw3 : reaches w (probeEvents probes
                      ++ [EvExec (infoCommand cmd videoUrl) 30000 res]
                      ++ attemptEvents true attempts)
                (snd (Rev1.runStrategies
                        (Rev1.downloadStrategies cmd t videoUrl) w2)))
        by exact (reaches_trans Hw1 (reaches_trans Hr2 Hr3)).
      unfold bind at 1.
      destruct (Rev1.runStrategies (Rev1.downloadStrategies cmd t videoUrl) w2)
        as [[[]|e] w3]; simpl in Hw3 |- *; [|exact Hw3].
      unfold bind at 1.
      pose proof (locateDownloaded_pure t notCreated1 emptyFile1 w3) as Hpure.
      destruct (locateDownloaded t notCreated1 emptyFile1 w3) as [[f|e] w4];
        simpl in Hpure; subst w4; exact Hw3.
  - left. rewrite (bind_Throw _ (run_pair _ Hfst Hsnd)). simpl.
    rewrite He0 in Hp |- *.
    split; [exact Hp|]. split; [exact Hf|]. split; [exact Hm|].
    split; [exact Hw1 | reflexivity].
Qed.

(** The same run in full: which command and which name the strategies
    are built from, and what the run returns. *)
Lemma downloadViaYtDlp_pipeline videoUrl w :
  let run := Rev1.downloadViaYtDlp videoUrl w in
  exists probes,
    (production (env w) = true /\ Forall failed probes /\
     map fst probes = ytdlpOptions /\
     reaches w (probeEvents probes) (snd run) /\
     fst run = Throw (mkError notFound1 (stackOf (env w) notFound1)))
    \/
    (exists cmd res,
       detected (env w) probes cmd /\
       ((exists e,
           metadataFailure (env w) noInfo1 res e /\
           reaches w (probeEvents probes
                      ++ [EvExec (infoCommand cmd videoUrl) 30000 res])
                   (snd run) /\
           fst run = Throw e)
        \/
        (exists out info now t attempts unused,
           res = Return out /\ jsonParse (env w) out = Return (Some info) /\
           nameFor info now t /\ t <> [] /\
           Rev1.downloadStrategies cmd t videoUrl = map fst attempts ++ unused /\
           reaches w (probeEvents probes
                      ++ [EvExec (infoCommand cmd videoUrl) 30000 res]
                      ++ attemptEvents true attempts)
                   (snd run) /\
           ((exists done command o,
               attempts = done ++ [(command, Return o)] /\ Forall failed done /\
               fst run
               = match fst (locateDownloaded t notCreated1 emptyFile1 (snd run)) with
                 | Return f =>
                     Return (mkResult f
                               (ytVideoInfo (env w) info (Some (js "yt-dlp"))))
                 | Throw e => Throw e
                 end)
            \/
            (unused = [] /\ Forall failed attempts /\
             exists e, fst run = Throw e))))).
Proof.
  intros run. subst run. unfold Rev1.downloadViaYtDlp.
  destruct (ensureDownloadsDir_run w) as (w0 & Hens & Hr0 & _ & _).
  rewrite (bind_Return _ Hens).
  destruct (detectYtDlp_spec notFound1 w0) as (probes & w1 & Hsnd & Hr1 & Hdet).
  assert (He0 : env w0 = env w) by apply Hr0.
  assert (Hw1 : reaches w (probeEvents probes) w1)
    by exact (reaches_trans Hr0 Hr1).
  exists probes.
  destruct Hdet as [(cmd & Hfst & Hd)|(Hp & Hf & Hm & Hfst)].
  - rewrite (bind_Return _ (run_pair _ Hfst Hsnd)).
    right. exists cmd, (fst (execAsync (infoCommand cmd videoUrl) 30000 w1)).
    rewrite He0 in Hd. split; [exact Hd|].
    destruct (fetchInfo_spec cmd videoUrl noInfo1 w1) as (Hs2 & Hr2 & Hcase).
    set (res := fst (execAsync (infoCommand cmd videoUrl) 30000 w1)) in *.
    set (w2 := snd (execAsync (infoCommand cmd videoUrl) 30000 w1)) in *.
    assert (He1 : env w1 = env w) by apply Hw1.
    destruct Hcase as [(e & Hfst2 & Hfail)|(out & info & t & Hres & Hparse & Hfst2)].
    + left. exists e. rewrite (bind_Throw _ (run_pair _ Hfst2 Hs2)).
      rewrite He1 in Hfail. simpl.
      split; [exact Hfail|]. split; [|reflexivity].
      exact (reaches_trans Hw1 Hr2).
    + right. pose proof (run_pair _ Hfst2 Hs2) as Hinfo.
      rewrite (bind_Return _ Hinfo).
      destruct (@fetchInfo_title_spec _ _ _ _ _ _ _ Hinfo) as (Hne & tt & Htt & Et).
      destruct (runStrategies_spec
                  (Rev1.downloadStrategies cmd t videoUrl) w2)
        as (attempts & rest & Hsplit & Hr3 & Hcase3).
      exists out, info, (clock w2), t, attempts, rest. rewrite He1 in Hparse.
      split; [exact Hres|]. split; [exact Hparse|].
      split; [exists tt; now split|]. split; [exact Hne|].
      split; [exact Hsplit|].
      assert (Hw3 : reaches w (probeEvents probes
                      ++ [EvExec (infoCommand cmd videoUrl) 30000 res]
                      ++ attemptEvents true attempts)
                (snd (Rev1.runStrategies
                        (Rev1.downloadStrategies cmd t videoUrl) w2)))
        by exact (reaches_trans Hw1 (reaches_trans Hr2 Hr3)).
      unfold bind.
      destruct (Rev1.runStrategies (Rev1.downloadStrategies cmd t videoUrl) w2)
        as [[[]|e] w3]; cbn [fst snd] in Hw3, Hcase3 |- *.
      * assert (Hdone : exists done command o,
                   attempts = done ++ [(command, Return o)] /\ Forall failed done).
        { destruct Hcase3 as [(done & c & o & Ha & Hd3 & _)
                             |(_ & _ & [(? & ? & ? & _ & Hx)|(_ & ? & _ & Hx)])];
            [now exists done, c, o | discriminate | discriminate]. }
        destruct Hdone as (done & c & o & Ha & Hd3).
        pose proof (locateDownloaded_pure t notCreated1 emptyFile1 w3) as Hpure.
        destruct (locateDownloaded t notCreated1 emptyFile1 w3) as [[f|e] w4] eqn:Hloc;
          cbn [fst snd] in Hpure; subst w4.
        -- unfold getEnv, ret. cbn [fst snd]. rewrite Hloc. cbn [fst].
           split; [exact Hw3|]. left. exists done, c, o.
           split; [exact Ha|]. split; [exact Hd3|].
           destruct Hw3 as [-> _]. reflexivity.
        -- cbn [fst snd]. rewrite Hloc. cbn [fst].
           split; [exact Hw3|]. left. exists done, c, o.
           split; [exact Ha|]. split; [exact Hd3|]. reflexivity.
      * split; [exact Hw3|]. right.
        destruct Hcase3 as [(? & ? & ? & _ & _ & Hx)|(Hrest & Hf & _)];
          [discriminate|].
        split; [exact Hrest|]. split; [exact Hf|]. now exists e.
  - left. rewrite (bind_Throw _ (run_pair _ Hfst Hsnd)). simpl.
    rewrite He0 in Hp |- *.
    split; [exact Hp|]. split; [exact Hf|]. split; [exact Hm|].
    split; [exact Hw1 | reflexivity].
Qed.

End PrimaryRun.

(* ================================================================== *)
(** * The version probe is run by every request *)
(* ================================================================== *)

(** C3, as stated, fails: on a production server where [yt-dlp] answers
    its version query, a second request of the same process issues the
    version query again.  Nothing is kept between two requests. *)
Lemma C3_probe_not_cached_counterexample :
  ~ probeCached (start healthyEnv 0 None) sampleUrl sampleUrl.
Proof.
  intros H.
  set (first := Rev1.downloadViaYtDlp sampleUrl (start healthyEnv 0 None)).
  assert (E : first
              = (Return (mkResult (js "foo.mp4")
                           (ytVideoInfo healthyEnv sampleInfo (Some (js "yt-dlp")))),
                 snd first))
    by (vm_compute; reflexivity).
  specialize (H _ _ E). vm_compute in H. discriminate H.
Qed.

Section CommandInUse.

(** Every download command of the first revision starts with the
    command it is built for, and names the output after [t]. *)
Lemma strategies_start_with_command cmd t videoUrl c :
  In c (Rev1.downloadStrategies cmd t videoUrl) ->
  startsWith c (cmd ++ js " ") = true.
Proof.
  unfold Rev1.downloadStrategies, Rev1.strategy.
  intros [<-|[<-|[]]]; apply startsWith_spec; eexists;
    rewrite <- app_assoc; reflexivity.
Qed.

Lemma attempts_of_strategies (strategies : list jsstring)
    (attempts : list Attempt) unused (P : jsstring -> Prop) :
  strategies = map fst attempts ++ unused ->
  (forall c, In c strategies -> P c) ->
  Forall (fun a => P (fst a)) attempts.
Proof.
  intros E H. apply Forall_forall. intros a Ha. apply H. rewrite E.
  apply in_or_app. left. now apply in_map.
Qed.

End CommandInUse.

(** C3, amended.  In production every call of [downloadViaYtDlp], whatever
    the process did before, starts with the version queries of the
    candidates, in the order of the fixed list and each with a timeout of
    five seconds, up to the first one that succeeds; all that follows is
    the metadata query with that candidate and then the attempts of the
    download strategies, which are built with that candidate and start
    with it.  When no candidate succeeds the call fails with the error
    that yt-dlp was not found, after the version queries and nothing
    else. *)
Theorem C3_probe_on_every_call (videoUrl : jsstring) (w : World) :
  production (env w) = true ->
  exists probes later rest,
    ytdlpOptions = map fst probes ++ rest /\
    reaches w (probeEvents probes ++ later)
            (snd (Rev1.downloadViaYtDlp videoUrl w)) /\
    ((exists done cmd out res attempts name unused,
        probes = done ++ [(cmd, Return out)] /\ Forall failed done /\
        later = EvExec (infoCommand cmd videoUrl) 30000 res
                :: attemptEvents true attempts /\
        Rev1.downloadStrategies cmd name videoUrl = map fst attempts ++ unused /\
        Forall (fun a => startsWith (fst a) (cmd ++ js " ") = true) attempts)
     \/
     (rest = [] /\ Forall failed probes /\ later = [] /\
      exists e, message e = notFound1 /\
                fst (Rev1.downloadViaYtDlp videoUrl w) = Throw e)).
Proof.
  intros Hprod.
  destruct (downloadViaYtDlp_pipeline videoUrl w) as (probes & Hshape).
  cbv zeta in Hshape.
  destruct Hshape as [(_ & Hf & Hm & Hr & Hfst)|(cmd & res & Hd & Hcase)].
  - exists probes, [], []. split; [now rewrite Hm, app_nil_r|].
    split; [now rewrite app_nil_r|]. right.
    repeat split; try assumption. eexists. split; [|exact Hfst]. reflexivity.
  - unfold detected in Hd. rewrite Hprod in Hd.
    destruct Hd as (done & out & rest & Hp & Hdone & Hopts).
    destruct Hcase as [(e & _ & Hr & _)
                      |(o & info & now & t & attempts & unused & _ & _ & _ & _
                        & Hsplit & Hr & _)].
    + exists probes, [EvExec (infoCommand cmd videoUrl) 30000 res], rest.
      split; [exact Hopts|]. split; [exact Hr|]. left.
      exists done, cmd, out, res, [], [],
        (Rev1.downloadStrategies cmd [] videoUrl).
      repeat split; try assumption. constructor.
    + exists probes,
        ([EvExec (infoCommand cmd videoUrl) 30000 res]
         ++ attemptEvents true attempts), rest.
      split; [exact Hopts|]. split; [exact Hr|]. left.
      exists done, cmd, out, res, attempts, t, unused.
      repeat split; try assumption.
      apply (@attempts_of_strategies _ attempts unused
               (fun c => startsWith c (cmd ++ js " ") = true) Hsplit).
      intros c. apply strategies_start_with_command.
Qed.

(** On the healthy production server the call issues one version query,
    the metadata query and one download. *)
Lemma C3_probe_on_every_call_witness :
  exists probes later rest,
    ytdlpOptions = map fst probes ++ rest /\
    reaches (start healthyEnv 0 None) (probeEvents probes ++ later)
            (snd (Rev1.downloadViaYtDlp sampleUrl (start healthyEnv 0 None))) /\
    ((exists done cmd out res attempts name unused,
        probes = done ++ [(cmd, Return out)] /\ Forall failed done /\
        later = EvExec (infoCommand cmd sampleUrl) 30000 res
                :: attemptEvents true attempts /\
        Rev1.downloadStrategies cmd name sampleUrl = map fst attempts ++ unused /\
        Forall (fun a => startsWith (fst a) (cmd ++ js " ") = true) attempts)
     \/
     (rest = [] /\ Forall failed probes /\ later = [] /\
      exists e, message e = notFound1 /\
                fst (Rev1.downloadViaYtDlp sampleUrl (start healthyEnv 0 None))
                = Throw e)).
Proof.
  apply (@C3_probe_on_every_call sampleUrl (start healthyEnv 0 None)).
  reflexivity.
Defined.

(** The second candidate answers: the metadata query and the download
    run with it, not with the first. *)
Example probe_second_candidate_is_used :
  let env := scripted true
               (fun cmd t => if startsWith cmd (js "yt-dlp ")
                             then Throw (err "not found")
                             else Return (js "{}"))
               [mkFile (js "foo.mp4") 5000 1024]
               (fun _ => Return (Some sampleInfo)) noHttp (fun _ => None) in
  map (fun e => match e with
                | EvExec c _ _ => startsWith c (js "python3 -m yt_dlp ")
                | _ => false
                end)
      (trace (snd (Rev1.downloadViaYtDlp sampleUrl (start env 0 None))))
  = [false; true; true; true].
Proof. vm_compute. reflexivity. Qed.

(** When no candidate answers, the three version queries are all that
    happens. *)
Example probe_all_fail :
  let env := scripted true (fun _ _ => Throw (err "not found")) []
               (fun _ => Return None) noHttp (fun _ => None) in
  let r := Rev1.downloadViaYtDlp sampleUrl (start env 0 None) in
  fst r = Throw (mkError notFound1 []) /\
  trace (snd r)
  = [ EvExec (js "yt-dlp --version") 5000 (Throw (err "not found"));
      EvExec (js "python3 -m yt_dlp --version") 5000 (Throw (err "not found"));
      EvExec (js "/opt/venv/bin/yt-dlp --version") 5000 (Throw (err "not found")) ].
Proof. vm_compute. split; reflexivity. Qed.

(* ================================================================== *)
(** * The file locator *)
(* ================================================================== *)

Section Sorting.

Variable A : Type.
Variable key : A -> Z.

(** The comparator of the locator: a difference of keys, larger key
    first. *)
Let cmp (a b : A) : Z := key b - key a.

Lemma insertSorted_perm x l : Permutation (insertSorted cmp x l) (x :: l).
Proof.
  induction l as [|y l IH]; simpl; [reflexivity|].
  destruct (0 <? cmp x y); [|reflexivity].
  rewrite IH. apply perm_swap.
Qed.

Lemma sortWith_perm l : Permutation (sortWith cmp l) l.
Proof.
  induction l as [|x l IH]; simpl; [reflexivity|].
  rewrite insertSorted_perm. now constructor.
Qed.

Lemma insertSorted_sorted x l :
  StronglySorted (fun a b => key b <= key a) l ->
  StronglySorted (fun a b => key b <= key a) (insertSorted cmp x l).
Proof.
  induction 1 as [|y l Hs IH Hy]; simpl.
  - repeat constructor.
  - unfold cmp at 1. destruct (0 <? key y - key x) eqn:E.
    + apply Z.ltb_lt in E. constructor; [exact IH|].
      apply Forall_forall. intros z Hz.
      apply (Permutation_in _ (insertSorted_perm x l)) in Hz.
      destruct Hz as [<-|Hz]; [lia|].
      exact (proj1 (Forall_forall _ _) Hy z Hz).
    + apply Z.ltb_ge in E. constructor.
      * now constructor.
      * constructor; [lia|].
        apply Forall_forall. intros z Hz.
        pose proof (proj1 (Forall_forall _ _) Hy z Hz) as Hzy.
        simpl in Hzy. lia.
Qed.

Lemma sortWith_sorted l :
  StronglySorted (fun a b => key b <= key a) (sortWith cmp l).
Proof.
  induction l as [|x l IH]; simpl; [constructor|].
  now apply insertSorted_sorted.
Qed.

(** The first element of the sorted list has the largest key. *)
Lemma sortWith_head_max l f rest :
  sortWith cmp l = f :: rest -> forall g, In g l -> key g <= key f.
Proof.
  intros E g Hg.
  apply (Permutation_in _ (Permutation_sym (sortWith_perm l))) in Hg.
  pose proof (sortWith_sorted l) as Hs. rewrite E in Hs, Hg.
  inversion Hs as [|? ? _ Hall]; subst.
  destruct Hg as [<-|Hg]; [lia|].
  exact (proj1 (Forall_forall _ _) Hall g Hg).
Qed.

(** The sort is stable: among the elements with the largest key the first
    one of the list comes first. *)
Lemma sortWith_head_first l : forall f rest,
  sortWith cmp l = f :: rest ->
  exists pre post, l = pre ++ f :: post /\ Forall (fun g => key g < key f) pre.
Proof.
  induction l as [|x l IH]; intros f rest E; simpl in E; [discriminate|].
  destruct (sortWith cmp l) as [|y r] eqn:Hl.
  - simpl in E. inversion E; subst.
    pose proof (sortWith_perm l) as Hp. rewrite Hl in Hp.
    apply Permutation_nil in Hp. subst l.
    exists [], []. split; [reflexivity | constructor].
  - simpl in E. unfold cmp at 1 in E.
    destruct (0 <? key y - key x) eqn:C; inversion E; subst.
    + apply Z.ltb_lt in C.
      destruct (IH f r eq_refl) as (pre & post & -> & Hpre).
      exists (x :: pre), post. split; [reflexivity|].
      constructor; [lia | exact Hpre].
    + exists [], l. split; [reflexivity | constructor].
Qed.

End Sorting.

Section Locator.

Lemma statEntry_of_readdir (d : Dir) name :
  In name (map fname d) -> exists entry, statEntry d name = Some entry.
Proof.
  induction d as [|e d IH]; simpl; [contradiction|].
  intros [H|H].
  - exists e. destruct (str_eqb (fname e) name) eqn:E; [reflexivity|].
    apply str_eqb_eq in H. congruence.
  - destruct (str_eqb (fname e) name); [now exists e | now apply IH].
Qed.

(** What the locator does with the directory [d]. *)
Lemma locateDownloaded_spec (w : World) (d : Dir)
    (sanitizedTitle notCreated emptyFile : jsstring) :
  dir w = Some d ->
  let matching :=
    filter (fun file => startsWith file sanitizedTitle) (map fname d) in
  let files := candidates d (map fname d) sanitizedTitle in
  Permutation files matching /\
  StronglySorted (fun a b => mtimeOf d b <= mtimeOf d a) files /\
  match files with
  | [] =>
      matching = [] /\
      locateDownloaded sanitizedTitle notCreated emptyFile w
      = (Throw (mkError notCreated (stackOf (env w) notCreated)), w)
  | f :: _ =>
      In f (map fname d) /\ startsWith f sanitizedTitle = true /\
      (forall g, In g matching -> mtimeOf d g <= mtimeOf d f) /\
      (exists earlier later,
         matching = earlier ++ f :: later /\
         Forall (fun g => mtimeOf d g < mtimeOf d f) earlier) /\
      exists entry,
        statEntry d f = Some entry /\
        locateDownloaded sanitizedTitle notCreated emptyFile w
        = if fsize entry =? 0
          then (Throw (mkError emptyFile (stackOf (env w) emptyFile)), w)
          else (Return f, w)
  end.
Proof.
  intros Hd matching files.
  assert (Hperm : Permutation files matching)
    by apply (sortWith_perm (mtimeOf d)).
  split; [exact Hperm|].
  split; [apply (sortWith_sorted (mtimeOf d))|].
  assert (Hrun : locateDownloaded sanitizedTitle notCreated emptyFile w
                 = match files with
                   | [] => (Throw (mkError notCreated (stackOf (env w) notCreated)), w)
                   | f :: _ =>
                       match statEntry d f with
                       | Some entry =>
                           if fsize entry =? 0
                           then (Throw (mkError emptyFile (stackOf (env w) emptyFile)), w)
                           else (Return f, w)
                       | None =>
                           (Throw (mkError emptyFile (stackOf (env w) emptyFile)), w)
                       end
                   end).
  { subst files matching. destruct w as [e t dd tr]. simpl in Hd. subst dd.
    unfold locateDownloaded, bind, readdirSync, currentDir, existsSync,
      statSync, throwNew, ret. simpl.
    destruct (candidates d (map fname d) sanitizedTitle) as [|f l]; [reflexivity|].
    simpl. destruct (statEntry d f) as [entry|] eqn:Hst; simpl;
      rewrite ?Hst; [|reflexivity].
    now destruct (fsize entry =? 0). }
  destruct files as [|f l] eqn:Hfiles.
  - split; [|exact Hrun]. now apply Permutation_nil.
  - assert (Hin : In f matching)
      by (apply (Permutation_in _ Hperm); now left).
    apply filter_In in Hin. destruct Hin as [Hin Hpre].
    split; [exact Hin|]. split; [exact Hpre|].
    split; [exact (sortWith_head_max (mtimeOf d) matching Hfiles)|].
    split; [exact (sortWith_head_first (mtimeOf d) matching Hfiles)|].
    destruct (statEntry_of_readdir d f Hin) as [entry He].
    exists entry. split; [exact He|]. now rewrite Hrun, He.
Qed.

(** The file that the primary path returns is the one that the locator
    finds in the directory as the last strategy left it. *)
Lemma downloadViaYtDlp_located videoUrl w result w' :
  Rev1.downloadViaYtDlp videoUrl w = (Return result, w') ->
  exists d sanitizedTitle,
    dir w' = Some d /\
    locateDownloaded sanitizedTitle notCreated1 emptyFile1 w'
    = (Return (filename result), w').
Proof.
  intros H. unfold Rev1.downloadViaYtDlp, bind in H.
  destruct (ensureDownloadsDir w) as [[[]|e0] w0]; [|discriminate].
  destruct (detectYtDlp _ w0) as [[cmd|e1] w1]; [|discriminate].
  destruct (fetchInfo cmd videoUrl _ w1) as [[[info t]|e2] w2]; [|discriminate].
  destruct (Rev1.runStrategies _ w2) as [[[]|e3] w3]; [|discriminate].
  pose proof (locateDownloaded_pure t notCreated1 emptyFile1 w3) as Hpure.
  destruct (locateDownloaded t notCreated1 emptyFile1 w3) as [[f|e4] w4] eqn:Hloc;
    [|discriminate].
  simpl in Hpure. subst w4. unfold getEnv, ret in H. inversion H; subst.
  destruct (dir w') as [d|] eqn:Hd.
  - exists d, t. split; [reflexivity | exact Hloc].
  - exfalso. unfold locateDownloaded, bind, readdirSync in Hloc.
    rewrite Hd in Hloc. discriminate.
Qed.

End Locator.

(* ================================================================== *)
(** * The Invidious fall-back *)
(* ================================================================== *)

Section Instance.

Lemma fromInstance_split videoId instance w :
  Rev1.fromInstance videoId instance w
  = (p <- prepareInstance videoId instance ;;
     match p with
     | None => ret None
     | Some (name, buffer, data, format) =>
         writeFileSync name buffer ;;;
         e <- getEnv ;;
         ret (Some (mkResult name (Rev1.invVideoInfo e data format)))
     end) w.
Proof.
  unfold Rev1.fromInstance, prepareInstance, bind, liftOutcome,
    sanitizeFilenameOf, throwNew, ret.
  repeat (break_match; try reflexivity).
Qed.

Lemma prepareInstance_result videoId instance w name buffer data format w' :
  prepareInstance videoId instance w = (Return (Some (name, buffer, data, format)), w') ->
  exists t, name = sanitizeFilename t ++ js ".mp4".
Proof.
  unfold prepareInstance, bind, liftOutcome, sanitizeFilenameOf, throwNew, ret.
  repeat (break_match; try discriminate).
  intros H. inversion H; subst. eexists. reflexivity.
Qed.

Lemma reaches_unique w evs evs' w' :
  reaches w evs w' -> reaches w evs' w' -> evs = evs'.
Proof.
  intros [_ T] [_ T']. rewrite T in T'. exact (app_inv_head _ _ _ T').
Qed.

(** What has happened when an instance has something to write: the
    document was fetched, then the body of the stream chosen from it. *)
Lemma prepareInstance_success videoId instance w name buffer data format w' :
  prepareInstance videoId instance w
  = (Return (Some (name, buffer, data, format)), w') ->
  exists response videoResponse t,
    reaches w [EvFetch (instance ++ js "/api/v1/videos/" ++ videoId)
                 (Return response);
               EvFetch (furl format) (Return videoResponse)] w' /\
    ok response = true /\ json response = Return data /\
    d_error data = false /\ Rev1.chooseFormat data = Some format /\
    ok videoResponse = true /\ arrayBuffer videoResponse = Return buffer /\
    d_title data = Some t /\ name = sanitizeFilename t ++ js ".mp4".
Proof.
  unfold prepareInstance, bind, fetch, liftOutcome, sanitizeFilenameOf,
    throwNew, ret.
  set (u := instance ++ js "/api/v1/videos/" ++ videoId).
  destruct (fetchOracle (env w) (trace w) u) as [response|e] eqn:F1;
    [|discriminate].
  destruct (ok response) eqn:Ok1; cbn [negb]; [|discriminate].
  destruct (json response) as [d|e] eqn:J; [|discriminate].
  destruct (d_error d) eqn:De; [discriminate|].
  destruct (Rev1.chooseFormat d) as [f|] eqn:Cf; [|discriminate].
  cbn [trace env logEvent].
  destruct (fetchOracle (env w) (trace w ++ [EvFetch u (Return response)]) (furl f))
    as [videoResponse|e] eqn:F2; [|discriminate].
  destruct (ok videoResponse) eqn:Ok2; cbn [negb]; [|discriminate].
  destruct (arrayBuffer videoResponse) as [size|e] eqn:Ab; [|discriminate].
  destruct (d_title d) as [t|] eqn:Dt; [|discriminate].
  intros H.
  assert (E : name = sanitizeFilename t ++ js ".mp4" /\ buffer = size /\
              data = d /\ format = f /\
              w' = logEvent (EvFetch (furl f) (Return videoResponse))
                     (logEvent (EvFetch u (Return response)) w))
    by (injection H; intros; subst; repeat split).
  destruct E as (-> & -> & -> & -> & ->).
  exists response, videoResponse, t.
  split; [split; [reflexivity | cbn [trace logEvent]; now rewrite <- app_assoc]|].
  repeat split; assumption.
Qed.

Lemma prepareInstance_fetchesOnly videoId instance :
  fetchesOnly (prepareInstance videoId instance).
Proof.
  intros w.
  unfold prepareInstance, bind, fetch, liftOutcome, sanitizeFilenameOf,
    throwNew, ret, logEvent.
  repeat (break_match;
    try match goal with
        | H : (_, _) = (_, _) |- _ => inversion H; subst; clear H
        end);
    simpl;
    try (eexists [_]; simpl;
         repeat split; [repeat constructor | lia]);
    try (eexists [_; _]; simpl;
         repeat split; [now rewrite <- app_assoc | repeat constructor | lia]).
Qed.

Lemma statEntry_putEntry (d : Dir) f :
  statEntry (putEntry d f) (fname f) = Some f.
Proof.
  assert (Hrefl : str_eqb (fname f) (fname f) = true) by now apply str_eqb_eq.
  induction d as [|e d IH]; simpl.
  - now rewrite Hrefl.
  - destruct (str_eqb (fname e) (fname f)) eqn:E; simpl.
    + now rewrite Hrefl.
    + now rewrite E.
Qed.

(** Every other file keeps its entry when a file is written. *)
Lemma statEntry_putEntry_other (d : Dir) f name :
  name <> fname f -> statEntry (putEntry d f) name = statEntry d name.
Proof.
  intros Hne.
  assert (Hf : str_eqb (fname f) name = false).
  { destruct (str_eqb (fname f) name) eqn:E; [|reflexivity].
    apply str_eqb_eq in E. congruence. }
  induction d as [|e d IH]; simpl.
  - now rewrite Hf.
  - destruct (str_eqb (fname e) (fname f)) eqn:E; simpl.
    + apply str_eqb_eq in E. rewrite Hf. rewrite E. now rewrite Hf.
    + destruct (str_eqb (fname e) name); [reflexivity | exact IH].
Qed.

(** One instance, in a directory that exists: either the file is written
    and returned, or the directory is as before. *)
Lemma fromInstance_spec videoId instance w d :
  dir w = Some d ->
  exists evs,
    reaches w evs (snd (Rev1.fromInstance videoId instance w)) /\
    clock (snd (Rev1.fromInstance videoId instance w)) = clock w /\
    (List.length evs <= 3)%nat /\
    match fst (Rev1.fromInstance videoId instance w) with
    | Return (Some result) =>
        exists pre size t,
          evs = pre ++ [EvWrite (filename result) size None] /\
          Forall quietEvent pre /\
          dir (snd (Rev1.fromInstance videoId instance w))
          = Some (putEntry d (mkFile (filename result) (clock w) size)) /\
          filename result = sanitizeFilename t ++ js ".mp4" /\
          vi_method (videoInfo result) = Some (js "Invidious") /\
          fetchedFor (env w) videoId [instance] pre result size
    | _ =>
        Forall quietEvent evs /\
        dir (snd (Rev1.fromInstance videoId instance w)) = Some d
    end.
Proof.
  intros Hd.
  destruct (prepareInstance_fetchesOnly videoId instance w)
    as (evs & Hr & Hc & Hdir & Hall & Hlen).
  assert (Hquiet : Forall quietEvent evs).
  { apply Forall_forall. intros e He.
    pose proof (proj1 (Forall_forall _ _) Hall e He) as Hf.
    destruct e; try discriminate. now split. }
  destruct (prepareInstance videoId instance w)
    as [[[[[[name buffer] data] format]|]|e] w1] eqn:Hprep;
    simpl in Hr, Hc, Hdir; rewrite Hd in Hdir.
  - destruct (@prepareInstance_success _ _ _ _ _ _ _ _ Hprep)
      as (response & videoResponse & t & Hr' & Hok1 & Hjson & Herr & Hfmt
          & Hok2 & Hbuf & Htitle & Ht).
    pose proof (reaches_unique Hr Hr') as Hevs.
    destruct (writeOracle (env w1) (trace w1) name buffer) as [e|] eqn:Ho.
    + assert (Hrun : Rev1.fromInstance videoId instance w
                     = (Throw e, logEvent (EvWrite name buffer (Some e)) w1)).
      { rewrite fromInstance_split, (bind_Return _ Hprep).
        unfold bind, writeFileSync. now rewrite Hdir, Ho. }
      rewrite Hrun. cbn [fst snd].
      exists (evs ++ [EvWrite name buffer (Some e)]).
      split; [exact (@reaches_trans w evs w1 [EvWrite name buffer (Some e)]
                       (logEvent (EvWrite name buffer (Some e)) w1) Hr
                       (conj eq_refl eq_refl))|].
      split; [exact Hc|]. split; [rewrite length_app; simpl; lia|].
      split; [|exact Hdir].
      apply Forall_app. split; [exact Hquiet|]. repeat constructor.
    + set (w2 := mkWorld (env w1) (clock w1)
                   (Some (putEntry d (mkFile name (clock w1) buffer)))
                   (trace w1 ++ [EvWrite name buffer None])).
      assert (Hrun : Rev1.fromInstance videoId instance w
                     = (Return (Some (mkResult name
                                        (Rev1.invVideoInfo (env w1) data format))),
                        w2)).
      { rewrite fromInstance_split, (bind_Return _ Hprep).
        unfold bind, writeFileSync. now rewrite Hdir, Ho. }
      rewrite Hrun. cbn [fst snd].
      exists (evs ++ [EvWrite name buffer None]).
      split; [exact (@reaches_trans w evs w1 [EvWrite name buffer None] w2 Hr
                       (conj eq_refl eq_refl))|].
      split; [exact Hc|]. split; [rewrite length_app; simpl; lia|].
      exists evs, buffer, t. cbn [filename videoInfo]. rewrite <- Hc.
      split; [reflexivity|]. split; [exact Hquiet|]. split; [reflexivity|].
      split; [exact Ht|]. split; [reflexivity|].
      exists instance, [], response, data, format, videoResponse, t.
      split; [now left|]. split; [exact Hevs|].
      repeat (split; [assumption|]).
      rewrite Ht. f_equal. f_equal. apply Hr.
  - assert (Hrun : Rev1.fromInstance videoId instance w = (Return None, w1))
      by (rewrite fromInstance_split, (bind_Return _ Hprep); reflexivity).
    rewrite Hrun. cbn [fst snd]. exists evs.
    split; [exact Hr|]. split; [exact Hc|]. split; [lia|]. now split.
  - assert (Hrun : Rev1.fromInstance videoId instance w = (Throw e, w1))
      by (rewrite fromInstance_split, (bind_Throw _ Hprep); reflexivity).
    rewrite Hrun. cbn [fst snd]. exists evs.
    split; [exact Hr|]. split; [exact Hc|]. split; [lia|]. now split.
Qed.

(** The loop over the instances never throws. *)
Lemma tryInstances_spec videoId l : forall w d,
  dir w = Some d ->
  exists evs,
    reaches w evs (snd (Rev1.tryInstances videoId l w)) /\
    clock (snd (Rev1.tryInstances videoId l w)) = clock w /\
    (List.length evs <= 3 * List.length l)%nat /\
    match fst (Rev1.tryInstances videoId l w) with
    | Return (Some result) =>
        exists pre size t,
          evs = pre ++ [EvWrite (filename result) size None] /\
          Forall quietEvent pre /\
          dir (snd (Rev1.tryInstances videoId l w))
          = Some (putEntry d (mkFile (filename result) (clock w) size)) /\
          filename result = sanitizeFilename t ++ js ".mp4" /\
          vi_method (videoInfo result) = Some (js "Invidious") /\
          fetchedFor (env w) videoId l pre result size
    | Return None =>
        Forall quietEvent evs /\
        dir (snd (Rev1.tryInstances videoId l w)) = Some d
    | Throw _ => False
    end.
Proof.
  induction l as [|instance rest IH]; intros w d Hd.
  - exists []. simpl. split; [apply reaches_refl|]. repeat split; auto.
  - cbn [Rev1.tryInstances].
    destruct (fromInstance_spec videoId instance w Hd)
      as (evs1 & Hr1 & Hc1 & Hlen1 & Hcase1).
    rewrite (@bind_Return _ _ _ _ w (fst (Rev1.fromInstance videoId instance w))
               (snd (Rev1.fromInstance videoId instance w)))
      by (rewrite tryCatch_run; reflexivity).
    set (w1 := snd (Rev1.fromInstance videoId instance w)) in *.
    assert (Hnext : Forall quietEvent evs1 -> dir w1 = Some d ->
              exists evs,
                reaches w evs (snd (Rev1.tryInstances videoId rest w1)) /\
                clock (snd (Rev1.tryInstances videoId rest w1)) = clock w /\
                (List.length evs <= 3 * List.length (instance :: rest))%nat /\
                match fst (Rev1.tryInstances videoId rest w1) with
                | Return (Some result) =>
                    exists pre size t,
                      evs = pre ++ [EvWrite (filename result) size None] /\
                      Forall quietEvent pre /\
                      dir (snd (Rev1.tryInstances videoId rest w1))
                      = Some (putEntry d (mkFile (filename result) (clock w) size)) /\
                      filename result = sanitizeFilename t ++ js ".mp4" /\
                      vi_method (videoInfo result) = Some (js "Invidious") /\
                      fetchedFor (env w) videoId (instance :: rest) pre result size
                | Return None =>
                    Forall quietEvent evs /\
                    dir (snd (Rev1.tryInstances videoId rest w1)) = Some d
                | Throw _ => False
                end).
    { intros Hq Hd1. destruct (IH w1 d Hd1) as (evs2 & Hr2 & Hc2 & Hlen2 & Hcase2).
      exists (evs1 ++ evs2). split; [exact (reaches_trans Hr1 Hr2)|].
      split; [congruence|]. split; [rewrite length_app; simpl; lia|].
      destruct (fst (Rev1.tryInstances videoId rest w1)) as [[result|]|e].
      - destruct Hcase2 as (pre & size & t & -> & Hpre & Hdir & Hname & Hm & Hfetched).
        exists (evs1 ++ pre), size, t. rewrite app_assoc.
        split; [reflexivity|]. split; [apply Forall_app; now split|].
        rewrite <- Hc1. split; [exact Hdir|]. split; [exact Hname|].
        split; [exact Hm|].
        destruct Hfetched as (i & earlier & response & data & format
                              & videoResponse & t' & Hi & -> & Hrest).
        exists i, (evs1 ++ earlier), response, data, format, videoResponse, t'.
        split; [now right|]. split; [now rewrite app_assoc|].
        replace (env w) with (env w1) by apply Hr1. exact Hrest.
      - destruct Hcase2 as [Hq2 Hdir]. split; [apply Forall_app; now split | exact Hdir].
      - exact Hcase2. }
    destruct (fst (Rev1.fromInstance videoId instance w)) as [[result|]|e].
    + exists evs1. split; [exact Hr1|]. split; [exact Hc1|].
      split; [simpl; lia|].
      destruct Hcase1 as (pre & size & t & Hev & Hpre & Hdir & Hname & Hm & Hfetched).
      exists pre, size, t. repeat (split; [assumption|]).
      destruct Hfetched as (i & earlier & response & data & format
                            & videoResponse & t' & [<-|[]] & Hrest).
      exists instance, earlier, response, data, format, videoResponse, t'.
      split; [now left | exact Hrest].
    + destruct Hcase1 as [Hq Hd1]. exact (Hnext Hq Hd1).
    + destruct Hcase1 as [Hq Hd1]. exact (Hnext Hq Hd1).
Qed.

End Instance.

Section FallbackRun.

(** A run of the fall-back on a URL with an id. *)
Lemma downloadViaInvidious_run videoUrl videoId w :
  extractVideoId videoUrl = Some videoId ->
  exists w0,
    dir w0 = Some (ensuredDir w) /\ reaches w [] w0 /\ clock w0 = clock w /\
    Rev1.downloadViaInvidious videoUrl w
    = match fst (Rev1.tryInstances videoId Rev1.instances w0) with
      | Return (Some result) =>
          (Return result, snd (Rev1.tryInstances videoId Rev1.instances w0))
      | Return None =>
          (Throw (mkError (js "Todas as instâncias Invidious falharam")
                    (stackOf (env w) (js "Todas as instâncias Invidious falharam"))),
           snd (Rev1.tryInstances videoId Rev1.instances w0))
      | Throw e =>
          (Throw e, snd (Rev1.tryInstances videoId Rev1.instances w0))
      end.
Proof.
  intros Hid. destruct (ensureDownloadsDir_run w) as (w0 & Hens & Hr0 & Hc0 & Hd0).
  exists w0. split; [exact Hd0|]. split; [exact Hr0|]. split; [exact Hc0|].
  unfold Rev1.downloadViaInvidious. rewrite Hid, (bind_Return _ Hens).
  unfold bind.
  destruct (tryInstances_spec videoId Rev1.instances w0 Hd0)
    as (evs & Hr & _).
  destruct (Rev1.tryInstances videoId Rev1.instances w0) as [[[r|]|e] w1];
    simpl in Hr |- *; try reflexivity.
  unfold throwNew. destruct Hr as [He _]. destruct Hr0 as [He0 _].
  now rewrite He, He0.
Qed.

(** A run of the fall-back that returns. *)
Lemma downloadViaInvidious_success videoUrl w result w' :
  Rev1.downloadViaInvidious videoUrl w = (Return result, w') ->
  exists videoId pre size,
    extractVideoId videoUrl = Some videoId /\
    reaches w (pre ++ [EvWrite (filename result) size None]) w' /\
    Forall quietEvent pre /\
    fetchedFor (env w) videoId Rev1.instances pre result size /\
    dir w'
    = Some (putEntry (ensuredDir w) (mkFile (filename result) (clock w) size)).
Proof.
  intros H.
  destruct (extractVideoId videoUrl) as [videoId|] eqn:Hid.
  - destruct (@downloadViaInvidious_run videoUrl videoId w Hid)
      as (w0 & Hd0 & Hr0 & Hc0 & Hrun).
    rewrite Hrun in H. clear Hrun.
    destruct (tryInstances_spec videoId Rev1.instances w0 Hd0)
      as (evs & Hr & Hc & _ & Hcase).
    destruct (fst (Rev1.tryInstances videoId Rev1.instances w0)) as [[r|]|e];
      try discriminate.
    assert (E : r = result /\ snd (Rev1.tryInstances videoId Rev1.instances w0) = w')
      by (split; congruence).
    destruct E as [-> <-]. clear H.
    destruct Hcase as (pre & size & t & -> & Hpre & Hdir & _ & _ & Hfetched).
    exists videoId, pre, size. rewrite Hc0 in Hdir.
    split; [reflexivity|]. split; [exact (reaches_trans Hr0 Hr)|].
    split; [exact Hpre|]. split; [|exact Hdir].
    replace (env w) with (env w0) by apply Hr0. exact Hfetched.
  - unfold Rev1.downloadViaInvidious in H. rewrite Hid in H. discriminate.
Qed.

Lemma fetchedFor_name e videoId candidates pre result size :
  fetchedFor e videoId candidates pre result size ->
  exists t,
    vi_title (videoInfo result) = Some t /\
    filename result = sanitizeFilename t ++ js ".mp4" /\
    vi_method (videoInfo result) = Some (js "Invidious").
Proof.
  intros (i & earlier & response & data & format & videoResponse & t
          & _ & _ & _ & _ & _ & _ & _ & _ & Ht & ->).
  exists t. cbn [filename videoInfo Rev1.invVideoInfo vi_title vi_method].
  now repeat split.
Qed.

Lemma instances_count : List.length Rev1.instances = 7%nat.
Proof. reflexivity. Qed.

End FallbackRun.
(* ================================================================== *)
(** * Where the file locator runs *)
(* ================================================================== *)

(** C4, as stated, fails after a write of the fall-back.  YouTube blocks
    yt-dlp, the Invidious instance serves the video [foo], and the
    directory holds [foo.part] with a time stamp one millisecond after
    the write of [foo.mp4]: the locator would select [foo.part], the
    request returns [foo.mp4].  The fall-back does not run the locator. *)
Lemma C4_fallback_skips_locator_counterexample :
  ~ returnsLocatedFile sampleUrl
      (start mirrorEnv 0 (Some [mkFile (js "foo.part") 2001 512])).
Proof.
  intros H.
  set (w := start mirrorEnv 0 (Some [mkFile (js "foo.part") 2001 512])) in *.
  set (run := Rev1.downloadVideoForWeb sampleUrl w).
  assert (E : run = (Return (mkResult (js "foo.mp4")
                               (Rev1.invVideoInfo mirrorEnv sampleData
                                  (mkFormat (js "mp4") (Some (js "360p"))
                                     (js "https://cdn.example/v")))),
                     snd run))
    by (vm_compute; reflexivity).
  specialize (H _ _ (js "foo") E eq_refl).
  assert (Hne : sanitizeFilename (js "foo") <> []) by (vm_compute; discriminate).
  specialize (H Hne). vm_compute in H. discriminate H.
Qed.

(** In that run the fall-back writes [foo.mp4] at time 2000 and returns
    it; the locator, asked for [foo], answers [foo.part]. *)
Example fallback_returns_what_it_wrote :
  let w := start mirrorEnv 0 (Some [mkFile (js "foo.part") 2001 512]) in
  let run := Rev1.downloadVideoForWeb sampleUrl w in
  option_map filename (match fst run with Return r => Some r | Throw _ => None end)
  = Some (js "foo.mp4") /\
  dir (snd run)
  = Some [mkFile (js "foo.part") 2001 512; mkFile (js "foo.mp4") 2000 4096] /\
  fst (locateDownloaded (js "foo") notCreated1 emptyFile1 (snd run))
  = Return (js "foo.part").
Proof. vm_compute. repeat split; reflexivity. Qed.

Section LocatorPaths.

Lemma primary_result_located videoUrl w0 result w :
  Rev1.downloadViaYtDlp videoUrl w0 = (Return result, w) ->
  exists info now t,
    nameFor info now t /\
    vi_title (videoInfo result) = title info /\
    locateDownloaded t notCreated1 emptyFile1 w = (Return (filename result), w).
Proof.
  intros Hrun.
  destruct (downloadViaYtDlp_pipeline videoUrl w0) as (probes & Hshape).
  cbv zeta in Hshape. rewrite Hrun in Hshape. cbn [fst snd] in Hshape.
  destruct Hshape as [(_ & _ & _ & _ & Hx)|(cmd & res & _ & Hcase)];
    [discriminate|].
  destruct Hcase as [(e & _ & _ & Hx)
                    |(out & info & now & t & attempts & unused & _ & _ & Hname
                      & _ & _ & _ & Hend)]; [discriminate|].
  destruct Hend as [(done & c & o & _ & _ & Hres)|(_ & _ & e & Hx)];
    [|discriminate].
  exists info, now, t. split; [exact Hname|].
  pose proof (locateDownloaded_pure t notCreated1 emptyFile1 w) as Hpure.
  destruct (locateDownloaded t notCreated1 emptyFile1 w) as [[f|e] w1];
    cbn [fst snd] in Hres, Hpure; [|discriminate]. subst w1.
  assert (E : result = mkResult f (ytVideoInfo (env w0) info (Some (js "yt-dlp"))))
    by congruence.
  rewrite E. split; reflexivity.
Qed.

End LocatorPaths.

(** C4, amended.  On the primary path, after a successful strategy, the
    locator lists the directory, keeps the names that start with the
    sanitized title, orders them by modification time, most recent first
    (the earlier name of the listing first among equals), and takes the
    first one; it fails when no name matches, and fails when the file it
    took has size zero; the file that [downloadViaYtDlp] returns is the
    one the locator returns for the name made of the title of the video
    that it returns (its sanitized title, or the generated name when
    that is empty).  After a write of the fall-back the locator is not
    run: what [downloadViaInvidious] returns is the file it has just
    written, named by the sanitized title of the video followed by
    [.mp4]. *)
Theorem C4_locator_most_recent
    (w : World) (d : Dir) (sanitizedTitle notCreated emptyFile : jsstring) :
  dir w = Some d ->
  let matching :=
    filter (fun file => startsWith file sanitizedTitle) (map fname d) in
  let files := candidates d (map fname d) sanitizedTitle in
  (Permutation files matching /\
   StronglySorted (fun a b => mtimeOf d b <= mtimeOf d a) files /\
   match files with
   | [] =>
       matching = [] /\
       locateDownloaded sanitizedTitle notCreated emptyFile w
       = (Throw (mkError notCreated (stackOf (env w) notCreated)), w)
   | f :: _ =>
       In f (map fname d) /\ startsWith f sanitizedTitle = true /\
       (forall g, In g matching -> mtimeOf d g <= mtimeOf d f) /\
       (exists earlier later,
          matching = earlier ++ f :: later /\
          Forall (fun g => mtimeOf d g < mtimeOf d f) earlier) /\
       exists entry,
         statEntry d f = Some entry /\
         locateDownloaded sanitizedTitle notCreated emptyFile w
         = if fsize entry =? 0
           then (Throw (mkError emptyFile (stackOf (env w) emptyFile)), w)
           else (Return f, w)
   end)
  /\
  (forall videoUrl w0 result,
     Rev1.downloadViaYtDlp videoUrl w0 = (Return result, w) ->
     exists info now name,
       nameFor info now name /\
       vi_title (videoInfo result) = title info /\
       locateDownloaded name notCreated1 emptyFile1 w
       = (Return (filename result), w))
  /\
  (forall videoUrl w0 result,
     Rev1.downloadViaInvidious videoUrl w0 = (Return result, w) ->
     exists t pre size,
       vi_title (videoInfo result) = Some t /\
       filename result = sanitizeFilename t ++ js ".mp4" /\
       reaches w0 (pre ++ [EvWrite (filename result) size None]) w /\
       Forall quietEvent pre).
Proof.
  intros Hd matching files. split; [|split].
  - exact (locateDownloaded_spec w sanitizedTitle notCreated emptyFile Hd).
  - intros videoUrl w0 result Hrun.
    exact (@primary_result_located _ _ _ _ Hrun).
  - intros videoUrl w0 result Hrun.
    destruct (@downloadViaInvidious_success _ _ _ _ Hrun)
      as (videoId & pre & size & _ & Hr & Hpre & Hfetched & _).
    destruct (@fetchedFor_name _ _ _ _ _ _ Hfetched) as (t & Ht & Hname & _).
    now exists t, pre, size.
Qed.

(** With [foo.mp4] written at time 1000 and [foo.part] one millisecond
    later, the locator returns [foo.part] for the title [foo]. *)
Lemma C4_locator_most_recent_witness :
  locateDownloaded (js "foo") notCreated1 emptyFile1
    (start healthyEnv 2000 (Some fooDir))
  = (Return (js "foo.part"), start healthyEnv 2000 (Some fooDir)).
Proof.
  pose proof (proj1 (@C4_locator_most_recent
                (start healthyEnv 2000 (Some fooDir)) fooDir (js "foo")
                notCreated1 emptyFile1 eq_refl)) as H.
  cbv zeta in H. destruct H as (_ & _ & H).
  change (candidates fooDir (map fname fooDir) (js "foo"))
    with [js "foo.part"; js "foo.mp4"] in H.
  destruct H as (_ & _ & _ & _ & entry & He & Hrun).
  vm_compute in He. inversion He; subst entry. exact Hrun.
Defined.

(** No matching name: the locator fails; an empty file: it fails too. *)
Example locator_failures :
  fst (locateDownloaded (js "baz") notCreated1 emptyFile1
         (start healthyEnv 0 (Some fooDir)))
  = Throw (mkError notCreated1 [])
  /\
  fst (locateDownloaded (js "foo") notCreated1 emptyFile1
         (start healthyEnv 0 (Some [mkFile (js "foo.mp4") 10 0])))
  = Throw (mkError emptyFile1 []).
Proof. vm_compute. split; reflexivity. Qed.

(* ================================================================== *)
(** * No download without metadata *)
(* ================================================================== *)

Section Emits.

Variable P : Event -> Prop.

Lemma emits_pure A (m : M A) : (forall w, snd (m w) = w) -> emits P m.
Proof.
  intros H w. exists []. rewrite H. split; [apply reaches_refl | constructor].
Qed.

Lemma emits_ret A (a : A) : emits P (ret a).
Proof. now apply emits_pure. Qed.

Lemma emits_throw A e : emits P (@throw A e).
Proof. now apply emits_pure. Qed.

Lemma emits_throwNew A msg : emits P (@throwNew A msg).
Proof. now apply emits_pure. Qed.

Lemma emits_liftOutcome A (o : Outcome A) : emits P (liftOutcome o).
Proof. now apply emits_pure. Qed.

Lemma emits_getEnv : emits P getEnv.
Proof. now apply emits_pure. Qed.

Lemma emits_dateNow : emits P dateNow.
Proof. now apply emits_pure. Qed.

Lemma emits_bind A B (m : M A) (f : A -> M B) :
  emits P m -> (forall a, emits P (f a)) -> emits P (bind m f).
Proof.
  intros Hm Hf w. destruct (Hm w) as (evs1 & Hr1 & Hp1).
  unfold bind. destruct (m w) as [[a|e] w1]; simpl in Hr1.
  - destruct (Hf a w1) as (evs2 & Hr2 & Hp2).
    exists (evs1 ++ evs2). split; [exact (reaches_trans Hr1 Hr2)|].
    apply Forall_app. now split.
  - exists evs1. now split.
Qed.

Lemma emits_tryCatch A (m : M A) : emits P m -> emits P (tryCatch m).
Proof.
  intros Hm w. destruct (Hm w) as (evs & Hr & Hp).
  exists evs. rewrite tryCatch_run. now split.
Qed.

Lemma emits_ensureDownloadsDir : emits P ensureDownloadsDir.
Proof.
  intros w. destruct (ensureDownloadsDir_run w) as (w' & E & Hr & _).
  exists []. rewrite E. split; [exact Hr | constructor].
Qed.

Lemma emits_sanitizeFilenameOf x : emits P (sanitizeFilenameOf x).
Proof. destruct x; [apply emits_ret | apply emits_throwNew]. Qed.

Lemma emits_fetch url : (forall r, P (EvFetch url r)) -> emits P (fetch url).
Proof.
  intros H w. exists [EvFetch url (fst (fetch url w))].
  split; [apply reaches_fetch | repeat constructor; apply H].
Qed.

Lemma emits_writeFileSync name size :
  (forall r, P (EvWrite name size r)) -> emits P (writeFileSync name size).
Proof.
  intros H w. unfold writeFileSync.
  destruct (dir w) as [d|].
  - destruct (writeOracle (env w) (trace w) name size) as [e|].
    + exists [EvWrite name size (Some e)]. split; [now split|].
      repeat constructor; apply H.
    + exists [EvWrite name size None]. split; [now split|].
      repeat constructor; apply H.
  - eexists [EvWrite name size _]. split; [now split|].
    repeat constructor; apply H.
Qed.

End Emits.

Section Fallback.

Lemma fromInstance_noExec videoId instance :
  emits noExec (Rev1.fromInstance videoId instance).
Proof.
  unfold Rev1.fromInstance.
  apply emits_bind; [now apply emits_fetch|]. intros response.
  destruct (negb (ok response)); [apply emits_ret|].
  apply emits_bind; [apply emits_liftOutcome|]. intros data.
  destruct (d_error data); [apply emits_ret|].
  destruct (Rev1.chooseFormat data) as [format|]; [|apply emits_ret].
  apply emits_bind; [now apply emits_fetch|]. intros videoResponse.
  destruct (negb (ok videoResponse)); [apply emits_ret|].
  apply emits_bind; [apply emits_liftOutcome|]. intros buffer.
  apply emits_bind; [apply emits_sanitizeFilenameOf|]. intros sanitized.
  apply emits_bind; [now apply emits_writeFileSync|]. intros _.
  apply emits_bind; [apply emits_getEnv|]. intros e. apply emits_ret.
Qed.

Lemma tryInstances_noExec videoId l :
  emits noExec (Rev1.tryInstances videoId l).
Proof.
  induction l as [|instance rest IH]; simpl; [apply emits_ret|].
  apply emits_bind; [apply emits_tryCatch, fromInstance_noExec|].
  intros [[result|]|e]; [apply emits_ret | exact IH | exact IH].
Qed.

Lemma downloadViaInvidious_noExec videoUrl :
  emits noExec (Rev1.downloadViaInvidious videoUrl).
Proof.
  unfold Rev1.downloadViaInvidious.
  destruct (extractVideoId videoUrl) as [videoId|]; [|apply emits_throwNew].
  apply emits_bind; [apply emits_ensureDownloadsDir|]. intros _.
  apply emits_bind; [apply tryInstances_noExec|].
  intros [result|]; [apply emits_ret | apply emits_throwNew].
Qed.

(** The events of a request: those of the primary path, then those of the
    fall-back, which holds no child process. *)
Lemma downloadVideoForWeb_events videoUrl w :
  exists fallback,
    newEvents (Rev1.downloadVideoForWeb videoUrl) w
    = newEvents (Rev1.downloadViaYtDlp videoUrl) w ++ fallback /\
    Forall noExec fallback.
Proof.
  destruct (downloadViaYtDlp_shape videoUrl w) as (probes & Hshape).
  cbv zeta in Hshape.
  assert (Hprim : exists evs,
             reaches w evs (snd (Rev1.downloadViaYtDlp videoUrl w))).
  { destruct Hshape as [(_ & _ & _ & Hr & _)|(cmd & res & _ & [(e & _ & Hr & _)|(o & a & _ & _ & Hr)])];
      eexists; exact Hr. }
  destruct Hprim as (evs & Hr). rewrite (reaches_newEvents _ Hr).
  destruct (Rev1.downloadViaYtDlp videoUrl w) as [[result|e] w1] eqn:Hrun;
    simpl in Hr.
  - exists []. split; [|constructor]. rewrite app_nil_r.
    apply reaches_newEvents.
    now rewrite (primary_success_no_fallback _ _ Hrun).
  - pose proof (downloadVideoForWeb_gate _ _ Hrun) as Hgate.
    destruct (Rev1.isBotError (message e)).
    + destruct (downloadViaInvidious_noExec videoUrl w1) as (fb & Hfb & Hno).
      exists fb. split; [|exact Hno].
      apply reaches_newEvents.
      rewrite Hgate. exact (reaches_trans Hr Hfb).
    + exists []. split; [|constructor]. rewrite app_nil_r.
      apply reaches_newEvents.
      now rewrite Hgate.
Qed.

Lemma probeEvents_versionQuery probes x :
  In x (probeEvents probes) -> isVersionQuery x = true.
Proof.
  unfold probeEvents. intros H. apply in_map_iff in H.
  destruct H as (a & <- & _). reflexivity.
Qed.

Lemma attemptEvents_kinds attempts : forall first x,
  In x (attemptEvents first attempts) ->
  isDownloadAttempt x = true \/ x = EvSleep 2000.
Proof.
  induction attempts as [|[c o] l IH]; intros first x H; simpl in H;
    [contradiction|].
  apply in_app_or in H. destruct H as [H|[<-|H]].
  - destruct first; simpl in H; [contradiction|].
    destruct H as [<-|[]]. now right.
  - now left.
  - exact (IH false x H).
Qed.

End Fallback.

Section FailFast.

Lemma not_download_versionQuery x :
  isVersionQuery x = true -> isDownloadAttempt x = false.
Proof.
  destruct x; simpl; try reflexivity.
  intros H. apply Z.eqb_eq in H. now subst.
Qed.

(** Every download attempt of a request comes after the metadata query of
    that request, which returned an output that is usable. *)
Lemma download_after_metadata videoUrl w pre cmd res post :
  newEvents (Rev1.downloadVideoForWeb videoUrl) w
  = pre ++ EvExec cmd 300000 res :: post ->
  exists c out,
    In (EvExec (infoCommand c videoUrl) 30000 (Return out)) pre /\
    parseable (env w) out.
Proof.
  intros H.
  destruct (downloadVideoForWeb_events videoUrl w) as (fb & Hev & Hfb).
  rewrite Hev in H. clear Hev.
  assert (Hnotfb : ~ In (EvExec cmd 300000 res) fb).
  { intros Hin. now pose proof (proj1 (Forall_forall _ _) Hfb _ Hin). }
  assert (Hnotprobe : forall probes, ~ In (EvExec cmd 300000 res) (probeEvents probes)).
  { intros probes Hin. apply probeEvents_versionQuery in Hin. discriminate. }
  destruct (downloadViaYtDlp_shape videoUrl w) as (probes & Hshape).
  cbv zeta in Hshape.
  destruct Hshape as [(_ & _ & _ & Hr & _)|(c & r & _ & [(e & _ & Hr & _)|(out & a & -> & Hp & Hr)])];
    rewrite (reaches_newEvents _ Hr) in H.
  - apply app_split_later in H; [|apply Hnotprobe].
    destruct H as (pre' & _ & H). exfalso. apply Hnotfb. rewrite H.
    apply in_or_app. right. now left.
  - apply app_split_later in H.
    + destruct H as (pre' & _ & H). exfalso. apply Hnotfb. rewrite H.
      apply in_or_app. right. now left.
    + intros Hin. apply in_app_or in Hin. destruct Hin as [Hin|[Hin|[]]].
      * now apply (Hnotprobe probes).
      * discriminate Hin.
  - rewrite <- !app_assoc in H.
    rewrite (app_assoc (probeEvents probes)) in H.
    apply app_split_later in H.
    + destruct H as (pre' & -> & _). exists c, out. split; [|exact Hp].
      apply in_or_app. left. apply in_or_app. right. now left.
    + intros Hin. apply in_app_or in Hin. destruct Hin as [Hin|[Hin|[]]].
      * now apply (Hnotprobe probes).
      * discriminate Hin.
Qed.

(** When the metadata query of the primary path failed or gave an output
    that is not usable, the primary path throws, and a request holds no
    download attempt. *)
Lemma metadata_failure_stops videoUrl w c res :
  In (EvExec (infoCommand c videoUrl) 30000 res)
     (newEvents (Rev1.downloadViaYtDlp videoUrl) w) ->
  (forall out, res = Return out -> ~ parseable (env w) out) ->
  exists e,
    fst (Rev1.downloadViaYtDlp videoUrl w) = Throw e /\
    metadataFailure (env w) noInfo1 res e /\
    Forall (fun ev => isDownloadAttempt ev = false)
           (newEvents (Rev1.downloadVideoForWeb videoUrl) w) /\
    (Rev1.isBotError (message e) = false ->
     fst (Rev1.downloadVideoForWeb videoUrl w) = Throw e).
Proof.
  intros Hin Hbad.
  destruct (downloadVideoForWeb_events videoUrl w) as (fb & Hev & Hfb).
  destruct (downloadViaYtDlp_shape videoUrl w) as (probes & Hshape).
  cbv zeta in Hshape.
  assert (Hnotprobe : ~ In (EvExec (infoCommand c videoUrl) 30000 res)
                          (probeEvents probes)).
  { intros H. apply probeEvents_versionQuery in H. discriminate. }
  destruct Hshape as [(_ & _ & _ & Hr & _)|(cmd & r & _ & [(e & Hfail & Hr & Hfst)|(out & a & -> & Hp & Hr)])];
    rewrite (reaches_newEvents _ Hr) in Hin, Hev.
  - contradiction.
  - apply in_app_or in Hin. destruct Hin as [Hin|[Hin|[]]]; [contradiction|].
    inversion Hin; subst r. exists e.
    split; [exact Hfst|]. split; [exact Hfail|]. split.
    + rewrite Hev. apply Forall_app. split; [apply Forall_app; split|].
      * apply Forall_forall. intros x Hx.
        now apply not_download_versionQuery, (probeEvents_versionQuery probes).
      * now repeat constructor.
      * apply Forall_forall. intros x Hx.
        pose proof (proj1 (Forall_forall _ _) Hfb x Hx) as Hno.
        destruct x; simpl in Hno |- *; [discriminate | reflexivity ..].
    + intros Hnb.
      destruct (Rev1.downloadViaYtDlp videoUrl w) as [o w1] eqn:Hrun.
      simpl in Hfst. subst o.
      rewrite (downloadVideoForWeb_gate _ _ Hrun), Hnb. reflexivity.
  - exfalso. apply in_app_or in Hin. destruct Hin as [Hin|Hin]; [contradiction|].
    apply in_app_or in Hin. destruct Hin as [[Hin|[]]|Hin].
    + inversion Hin; subst res. exact (Hbad out eq_refl Hp).
    + apply attemptEvents_kinds in Hin. destruct Hin as [Hin|Hin]; discriminate.
Qed.

End FailFast.

(** C6, as stated, fails: when the metadata query fails because YouTube
    asks to sign in, the request does not fail; the fall-back serves the
    video and the request succeeds (without any download attempt of
    yt-dlp). *)
Lemma C6_request_may_succeed_counterexample :
  ~ failsFast sampleUrl (start blockedEnv 0 None).
Proof.
  intros H.
  destruct (H (js "yt-dlp") (Throw (mkError botMessage []))) as [e He].
  - vm_compute. right. left. reflexivity.
  - intros out Hout. discriminate Hout.
  - vm_compute in He. discriminate He.
Qed.

(** C6, amended.  Within a request every download attempt comes after the
    metadata query, which returned a usable output; and when the metadata
    query fails or its output is not usable, the primary path throws the
    error of that failure and no download strategy is attempted in the
    whole request.  The request then fails with that same error unless the
    message carries a signature of the fall-back, in which case the
    fall-back decides. *)
Theorem C6_no_download_without_metadata (videoUrl : jsstring) (w : World) :
  (forall pre cmd res post,
     newEvents (Rev1.downloadVideoForWeb videoUrl) w
     = pre ++ EvExec cmd 300000 res :: post ->
     exists c out,
       In (EvExec (infoCommand c videoUrl) 30000 (Return out)) pre /\
       parseable (env w) out)
  /\
  (forall c res,
     In (EvExec (infoCommand c videoUrl) 30000 res)
        (newEvents (Rev1.downloadViaYtDlp videoUrl) w) ->
     (forall out, res = Return out -> ~ parseable (env w) out) ->
     exists e,
       fst (Rev1.downloadViaYtDlp videoUrl w) = Throw e /\
       metadataFailure (env w) noInfo1 res e /\
       Forall (fun ev => isDownloadAttempt ev = false)
              (newEvents (Rev1.downloadVideoForWeb videoUrl) w) /\
       (Rev1.isBotError (message e) = false ->
        fst (Rev1.downloadVideoForWeb videoUrl w) = Throw e)).
Proof.
  split.
  - intros pre cmd res post. apply download_after_metadata.
  - intros c res. apply metadata_failure_stops.
Qed.

(** On the server without network the metadata query fails, no download
    is attempted and the request fails with the error of the query. *)
Lemma C6_no_download_without_metadata_witness :
  exists e,
    fst (Rev1.downloadViaYtDlp sampleUrl (start offlineEnv 0 None)) = Throw e /\
    metadataFailure offlineEnv noInfo1
      (Throw (err "Command failed: Video unavailable")) e /\
    Forall (fun ev => isDownloadAttempt ev = false)
           (newEvents (Rev1.downloadVideoForWeb sampleUrl)
              (start offlineEnv 0 None)) /\
    (Rev1.isBotError (message e) = false ->
     fst (Rev1.downloadVideoForWeb sampleUrl (start offlineEnv 0 None))
     = Throw e).
Proof.
  apply (proj2 (@C6_no_download_without_metadata sampleUrl
                  (start offlineEnv 0 None)) (js "./yt-dlp")).
  - vm_compute. left. reflexivity.
  - intros out Hout. discriminate Hout.
Defined.

(** Metadata that do not parse stop the request as well. *)
Example unparseable_metadata_stops :
  let env := scripted false (fun _ _ => Return (js "<html>")) []
               (fun _ => Throw (err "Unexpected token < in JSON at position 0"))
               noHttp (fun _ => None) in
  let r := Rev1.downloadVideoForWeb sampleUrl (start env 0 None) in
  fst r = Throw (err "Unexpected token < in JSON at position 0") /\
  trace (snd r)
  = [EvExec (infoCommand (js "./yt-dlp") sampleUrl) 30000 (Return (js "<html>"))].
Proof. vm_compute. split; reflexivity. Qed.

(* ================================================================== *)
(** * The [/download] route *)
(* ================================================================== *)

Section Route.

Variable download : jsstring -> M DownloadResult.

(** A request whose URL is absent, empty or not recognized is answered
    with status 400 before the download function is called. *)
Lemma postDownloadWith_rejects req w :
  urlRecognized req = false ->
  exists msg,
    postDownloadWith download req w = (Return (mkHttp 400 (ErrorBody msg)), w).
Proof.
  unfold urlRecognized, postDownloadWith, bind, dateNow, ret.
  destruct (req_url req) as [[|c url]|]; simpl; intros H.
  - eexists. reflexivity.
  - rewrite H. simpl. eexists. reflexivity.
  - eexists. reflexivity.
Qed.

Lemma validFormat_accepted f :
  validFormat f ->
  existsb (str_eqb match f with Some x => x | None => js "mp4" end)
          [js "mp4"; js "webm"; js "mp3"] = true.
Proof. intros [->|[->|[->| ->]]]; reflexivity. Qed.

(** The format is only validated: two requests that differ in a valid
    format run the same computation. *)
Lemma postDownloadWith_format url f1 f2 w :
  validFormat f1 -> validFormat f2 ->
  postDownloadWith download (mkRequest url f1) w
  = postDownloadWith download (mkRequest url f2) w.
Proof.
  intros H1 H2. unfold postDownloadWith. cbn [req_url req_format].
  unfold bind at 1 3. unfold dateNow at 1 2.
  destruct (truthyStr url) as [u|]; [|reflexivity].
  destruct (negb (validateYouTubeUrl u)); [reflexivity|].
  rewrite (validFormat_accepted H1), (validFormat_accepted H2). reflexivity.
Qed.

End Route.

(** C7.  A request whose URL does not match the pattern of YouTube URLs
    (or has no URL) is answered with status 400, a validation error, and
    the state of the process is untouched: no child process was started,
    no metadata query, no HTTP request of the fall-back.  This holds in
    both revisions of the server. *)
Theorem C7_invalid_url_rejected_first (req : Request) (w : World) :
  urlRecognized req = false ->
  exists msg,
    Rev1.postDownload req w = (Return (mkHttp 400 (ErrorBody msg)), w) /\
    Rev2.postDownload req w = (Return (mkHttp 400 (ErrorBody msg)), w) /\
    newEvents (Rev1.postDownload req) w = [] /\
    newEvents (Rev2.postDownload req) w = [].
Proof.
  intros H.
  destruct (postDownloadWith_rejects Rev1.downloadVideoForWeb req w H) as [m1 H1].
  destruct (postDownloadWith_rejects Rev2.downloadVideoForWeb req w H) as [m2 H2].
  assert (m2 = m1).
  { unfold urlRecognized in H.
    unfold postDownloadWith, bind, dateNow, ret in H1, H2.
    destruct (req_url req) as [[|c url]|]; simpl in *; try rewrite H in *;
      simpl in *; congruence. }
  subst m2. exists m1. unfold Rev1.postDownload, Rev2.postDownload.
  split; [exact H1|]. split; [exact H2|].
  split; apply reaches_newEvents; rewrite ?H1, ?H2; apply reaches_refl.
Qed.

(** A URL of another site is rejected even on a healthy server. *)
Lemma C7_invalid_url_rejected_first_witness :
  exists msg,
    let w := start healthyEnv 0 None in
    let req := mkRequest (Some (js "https://vimeo.com/watch?v=dQw4w9WgXcQ")) None in
    Rev1.postDownload req w = (Return (mkHttp 400 (ErrorBody msg)), w) /\
    Rev2.postDownload req w = (Return (mkHttp 400 (ErrorBody msg)), w) /\
    newEvents (Rev1.postDownload req) w = [] /\
    newEvents (Rev2.postDownload req) w = [].
Proof.
  apply (@C7_invalid_url_rejected_first
           (mkRequest (Some (js "https://vimeo.com/watch?v=dQw4w9WgXcQ")) None)
           (start healthyEnv 0 None)).
  reflexivity.
Defined.

(** The pattern accepts the two forms of YouTube URLs and is anchored at
    the start. *)
Example validateYouTubeUrl_examples :
  validateYouTubeUrl (js "https://www.youtube.com/watch?v=dQw4w9WgXcQ") = true /\
  validateYouTubeUrl (js "http://youtu.be/dQw4w9WgXcQ") = true /\
  validateYouTubeUrl (js "https://www.youtube.com/watch?v=short") = false /\
  validateYouTubeUrl (js "ftp://youtu.be/dQw4w9WgXcQ") = false /\
  validateYouTubeUrl (js " https://youtu.be/dQw4w9WgXcQ") = false.
Proof. repeat split; reflexivity. Qed.

(** C10.  Two requests that differ only in a valid [format] (mp4, webm,
    mp3 or omitted) run the same computation: the same outcome, response
    payload included, and the same final state, so the same commands and
    the same files.  The download function receives the URL only. *)
Theorem C10_format_has_no_influence
    (url f1 f2 : option jsstring) (w : World) :
  validFormat f1 -> validFormat f2 ->
  Rev1.postDownload (mkRequest url f1) w = Rev1.postDownload (mkRequest url f2) w
  /\
  Rev2.postDownload (mkRequest url f1) w = Rev2.postDownload (mkRequest url f2) w.
Proof.
  intros H1 H2. split; apply postDownloadWith_format; assumption.
Qed.

(** A request for mp3 is served exactly as a request without format. *)
Lemma C10_format_has_no_influence_witness :
  let w := start healthyEnv 0 None in
  Rev1.postDownload (mkRequest (Some sampleUrl) (Some (js "mp3"))) w
  = Rev1.postDownload (mkRequest (Some sampleUrl) None) w
  /\
  Rev2.postDownload (mkRequest (Some sampleUrl) (Some (js "mp3"))) w
  = Rev2.postDownload (mkRequest (Some sampleUrl) None) w.
Proof.
  apply (@C10_format_has_no_influence (Some sampleUrl) (Some (js "mp3")) None
           (start healthyEnv 0 None)).
  - right. right. right. reflexivity.
  - left. reflexivity.
Defined.

(** The request for mp3 gets a video file all the same. *)
Example mp3_request_gets_mp4 :
  exists msg url info,
    fst (Rev1.postDownload (mkRequest (Some sampleUrl) (Some (js "mp3")))
           (start healthyEnv 0 None))
    = Return (mkHttp 200 (SuccessBody msg (js "foo.mp4") url info)).
Proof. vm_compute. eexists _, _, _. reflexivity. Qed.

(** A format outside the list is refused. *)
Example unknown_format_refused :
  fst (Rev1.postDownload (mkRequest (Some sampleUrl) (Some (js "avi")))
         (start healthyEnv 0 None))
  = Return (mkHttp 400 (ErrorBody (js "Formato inválido. Use: mp4, webm ou mp3"))).
Proof. vm_compute. reflexivity. Qed.

(* ================================================================== *)
(** * The retention sweeper *)
(* ================================================================== *)

Section Directory.

Lemma fname_injective (d : Dir) f g :
  NoDup (map fname d) -> In f d -> In g d -> fname f = fname g -> f = g.
Proof.
  induction d as [|e d IH]; intros Hnd Hf Hg E; [contradiction|].
  simpl in Hnd. inversion Hnd as [|? ? Hnot Hnd']; subst.
  destruct Hf as [<-|Hf], Hg as [<-|Hg].
  - reflexivity.
  - exfalso. apply Hnot. rewrite E. now apply in_map.
  - exfalso. apply Hnot. rewrite <- E. now apply in_map.
  - now apply IH.
Qed.

Lemma statEntry_In (d : Dir) f :
  NoDup (map fname d) -> In f d -> statEntry d (fname f) = Some f.
Proof.
  induction d as [|e d IH]; intros Hnd Hf; [contradiction|].
  simpl in Hnd. inversion Hnd as [|? ? Hnot Hnd']; subst. simpl.
  destruct Hf as [<-|Hf].
  - destruct (str_eqb (fname e) (fname e)) eqn:E; [reflexivity|].
    assert (str_eqb (fname e) (fname e) = true) by now apply str_eqb_eq.
    congruence.
  - destruct (str_eqb (fname e) (fname f)) eqn:E.
    + apply str_eqb_eq in E. exfalso. apply Hnot. rewrite E. now apply in_map.
    + now apply IH.
Qed.

(** In a directory without duplicate names, deleting a name filters it
    out. *)
Lemma removeEntry_filter (d : Dir) name :
  NoDup (map fname d) ->
  removeEntry d name = filter (fun f => negb (str_eqb name (fname f))) d.
Proof.
  induction d as [|e d IH]; intros Hnd; [reflexivity|].
  simpl in Hnd. inversion Hnd as [|? ? Hnot Hnd']; subst. simpl.
  destruct (str_eqb (fname e) name) eqn:E.
  - apply str_eqb_eq in E. subst name.
    assert (str_eqb (fname e) (fname e) = true) as -> by now apply str_eqb_eq.
    simpl. symmetry. apply forallb_filter_id. apply forallb_forall.
    intros g Hg. apply negb_true_iff.
    destruct (str_eqb (fname e) (fname g)) eqn:G; [|reflexivity].
    apply str_eqb_eq in G. exfalso. apply Hnot. rewrite G. now apply in_map.
  - destruct (str_eqb name (fname e)) eqn:E'.
    + apply str_eqb_eq in E'. subst name.
      assert (str_eqb (fname e) (fname e) = true) by now apply str_eqb_eq.
      congruence.
    + simpl. now rewrite IH.
Qed.

Lemma NoDup_filter_names (d : Dir) p :
  NoDup (map fname d) -> NoDup (map fname (filter p d)).
Proof.
  induction d as [|e d IH]; intros Hnd; [constructor|].
  simpl in Hnd. inversion Hnd as [|? ? Hnot Hnd']; subst. simpl.
  destruct (p e); [|now apply IH].
  simpl. constructor; [|now apply IH].
  intros Hin. apply Hnot. apply in_map_iff in Hin.
  destruct Hin as (g & Eg & Hg). apply filter_In in Hg.
  rewrite <- Eg. apply in_map. tauto.
Qed.

(** Deleting [name] and then the files that [evs] deleted is deleting
    what [EvUnlink name None :: evs] deleted. *)
Lemma filter_unlinked_cons name evs (d : Dir) :
  filter (fun f => negb (unlinked evs (fname f)))
         (filter (fun g => negb (str_eqb name (fname g))) d)
  = filter (fun f => negb (unlinked (EvUnlink name None :: evs) (fname f))) d.
Proof.
  induction d as [|g d IH]; [reflexivity|]. cbn [filter].
  change (unlinked (EvUnlink name None :: evs) (fname g))
    with (str_eqb name (fname g) || unlinked evs (fname g)).
  destruct (str_eqb name (fname g)); cbn [negb orb filter]; [exact IH|].
  destruct (unlinked evs (fname g)); cbn [negb]; [exact IH | now rewrite IH].
Qed.

End Directory.

Section Sweep.

Variable limit : Z.

(** A file is old when its age exceeds the limit. *)
Let old (t : Z) (f : FileEntry) : bool := limit <? ageAt t f.

(** One turn of the loop on a file that is in the directory. *)
Lemma sweepFile_run (w : World) (d : Dir) (f : FileEntry) :
  dir w = Some d -> statEntry d (fname f) = Some f ->
  sweepFile limit (fname f) w
  = (Return tt,
     if old (clock w) f then
       match unlinkOracle (env w) (trace w) (fname f) with
       | Some e => logEvent (EvUnlink (fname f) (Some e)) w
       | None =>
           mkWorld (env w) (clock w) (Some (removeEntry d (fname f)))
                   (trace w ++ [EvUnlink (fname f) None])
       end
     else w).
Proof.
  intros Hd Hstat.
  unfold sweepFile, bind, statSync, dateNow, tryCatch, unlinkSync, ret, old, ageAt.
  rewrite Hd, Hstat.
  destruct (limit <? clock w - mtime f); [|reflexivity].
  rewrite Hd, Hstat.
  now destruct (unlinkOracle (env w) (trace w) (fname f)).
Qed.

(** The loop of the sweep over the entries [l] that are still to be
    visited, in a directory [d] where they all are. *)
Lemma sweep_loop (l : list FileEntry) : forall (w : World) (d : Dir),
  dir w = Some d -> NoDup (map fname d) -> NoDup (map fname l) ->
  (forall f, In f l -> In f d) ->
  exists evs,
    fst (forEach (map fname l) (sweepFile limit) w) = Return tt /\
    reaches w evs (snd (forEach (map fname l) (sweepFile limit) w)) /\
    clock (snd (forEach (map fname l) (sweepFile limit) w)) = clock w /\
    unlinkAttempts evs = map fname (filter (old (clock w)) l) /\
    Forall (fun e => exists n r, e = EvUnlink n r) evs /\
    dir (snd (forEach (map fname l) (sweepFile limit) w))
    = Some (filter (fun f => negb (unlinked evs (fname f))) d) /\
    ((forall h n, unlinkOracle (env w) h n = None) ->
     forall n, In n (unlinkAttempts evs) -> unlinked evs n = true).
Proof.
  induction l as [|f l IH]; intros w d Hd Hnd Hl Hsub.
  - exists []. simpl. split; [reflexivity|]. split; [apply reaches_refl|].
    split; [reflexivity|]. split; [reflexivity|]. split; [constructor|].
    split.
    + rewrite Hd. f_equal. symmetry. apply forallb_filter_id.
      now apply forallb_forall.
    + intros _ n [].
  - assert (Hstat : statEntry d (fname f) = Some f)
      by (apply statEntry_In; [exact Hnd | apply Hsub; now left]).
    simpl in Hl. inversion Hl as [|? ? Hnotin Hl']; subst.
    assert (Hsub' : forall g, In g l -> In g d)
      by (intros g Hg; apply Hsub; now right).
    cbn [map forEach]. rewrite (bind_Return _ (@sweepFile_run w d f Hd Hstat)).
    cbn [filter].
    destruct (old (clock w) f) eqn:Hold.
    + destruct (unlinkOracle (env w) (trace w) (fname f)) as [e|] eqn:Horacle.
      * set (w1 := logEvent (EvUnlink (fname f) (Some e)) w).
        destruct (IH w1 d Hd Hnd Hl' Hsub')
          as (evs & Hfst & Hr & Hc & Hatt & Hall & Hdir & Hok).
        exists (EvUnlink (fname f) (Some e) :: evs).
        split; [exact Hfst|].
        split; [exact (@reaches_trans w [_] w1 evs _ (conj eq_refl eq_refl) Hr)|].
        split; [exact Hc|].
        split; [cbn [unlinkAttempts flat_map app map]; f_equal; exact Hatt|].
        split; [constructor; [now eexists _, _ | exact Hall]|].
        split; [exact Hdir|].
        intros Hnone. exfalso. rewrite Hnone in Horacle. discriminate.
      * set (w1 := mkWorld (env w) (clock w) (Some (removeEntry d (fname f)))
                     (trace w ++ [EvUnlink (fname f) None])).
        assert (Hrm : removeEntry d (fname f)
                      = filter (fun g => negb (str_eqb (fname f) (fname g))) d)
          by now apply removeEntry_filter.
        destruct (IH w1 (removeEntry d (fname f)) eq_refl)
          as (evs & Hfst & Hr & Hc & Hatt & Hall & Hdir & Hok).
        { rewrite Hrm. now apply NoDup_filter_names. }
        { exact Hl'. }
        { intros g Hg. rewrite Hrm. apply filter_In. split; [now apply Hsub'|].
          apply negb_true_iff.
          destruct (str_eqb (fname f) (fname g)) eqn:E; [|reflexivity].
          apply str_eqb_eq in E. exfalso. apply Hnotin. rewrite E.
          now apply in_map. }
        exists (EvUnlink (fname f) None :: evs).
        split; [exact Hfst|].
        split; [exact (@reaches_trans w [_] w1 evs _ (conj eq_refl eq_refl) Hr)|].
        split; [exact Hc|].
        split; [cbn [unlinkAttempts flat_map app map]; f_equal; exact Hatt|].
        split; [constructor; [now eexists _, _ | exact Hall]|].
        split.
        -- rewrite Hdir, Hrm. f_equal. apply filter_unlinked_cons.
        -- intros Hnone n Hn. cbn [unlinked existsb].
           cbn [unlinkAttempts flat_map app] in Hn. destruct Hn as [<-|Hn].
           ++ assert (str_eqb (fname f) (fname f) = true) as ->
                by now apply str_eqb_eq.
              reflexivity.
           ++ apply orb_true_iff. right. exact (Hok Hnone n Hn).
    + destruct (IH w d Hd Hnd Hl' Hsub')
        as (evs & Hfst & Hr & Hc & Hatt & Hall & Hdir & Hok).
      exists evs. repeat (split; [assumption|]). exact Hok.
Qed.

End Sweep.

Section Cleanup.

Lemma unlinked_attempted evs n :
  unlinked evs n = true -> In n (unlinkAttempts evs).
Proof.
  induction evs as [|e evs IH]; simpl; [discriminate|].
  intros H. apply orb_true_iff in H. apply in_or_app.
  destruct H as [H|H]; [|right; now apply IH].
  left. destruct e as [| | | |name [err|]]; try discriminate.
  apply str_eqb_eq in H. subst. now left.
Qed.

(** The whole sweep of a directory [d] without duplicate names. *)
Lemma cleanupOldFiles_spec (w : World) (d : Dir) :
  dir w = Some d -> NoDup (map fname d) ->
  let old f := maxAgeMs (env w) <? ageAt (clock w) f in
  exists evs,
    fst (cleanupOldFiles w) = Return tt /\
    reaches w evs (snd (cleanupOldFiles w)) /\
    unlinkAttempts evs = map fname (filter old d) /\
    Forall (fun e => exists n r, e = EvUnlink n r) evs /\
    dir (snd (cleanupOldFiles w))
    = Some (filter (fun f => negb (unlinked evs (fname f))) d) /\
    (forall f, In f d -> old f = false -> unlinked evs (fname f) = false) /\
    ((forall h n, unlinkOracle (env w) h n = None) ->
     dir (snd (cleanupOldFiles w)) = Some (filter (fun f => negb (old f)) d)).
Proof.
  intros Hd Hnd old.
  destruct (@sweep_loop (maxAgeMs (env w)) d w d Hd Hnd Hnd (fun f H => H))
    as (evs & Hfst & Hr & _ & Hatt & Hall & Hdir & Hok).
  assert (Hrun : cleanupOldFiles w
                 = (Return tt,
                    snd (forEach (map fname d) (sweepFile (maxAgeMs (env w))) w))).
  { unfold cleanupOldFiles, bind, existsDownloadsDir, getEnv, tryCatch,
      readdirSync, ret.
    rewrite Hd. simpl. rewrite Hd.
    now destruct (forEach (map fname d) (sweepFile (maxAgeMs (env w))) w). }
  rewrite Hrun. cbn [fst snd].
  assert (Hyoung : forall f, In f d -> old f = false ->
                             unlinked evs (fname f) = false).
  { intros f Hf Hy. destruct (unlinked evs (fname f)) eqn:U; [|reflexivity].
    apply unlinked_attempted in U. rewrite Hatt in U.
    apply in_map_iff in U. destruct U as (g & Eg & Hg).
    apply filter_In in Hg. destruct Hg as [Hg Hog].
    assert (g = f) by (apply (fname_injective d); assumption).
    subst g. unfold old in Hy. congruence. }
  exists evs. split; [reflexivity|]. split; [exact Hr|].
  split; [exact Hatt|]. split; [exact Hall|]. split; [exact Hdir|].
  split; [exact Hyoung|].
  intros Hnone. rewrite Hdir. f_equal. apply filter_ext_in.
  intros f Hf. f_equal. destruct (old f) eqn:Ho.
  - apply (Hok Hnone). rewrite Hatt. apply in_map.
    apply filter_In. now split.
  - now apply Hyoung.
Qed.

End Cleanup.

(** C8.  With the threshold of 24 hours, a sweep of a directory tries to
    delete exactly the files whose age exceeds 24 hours, each of them,
    in the order of the listing, whether or not an earlier deletion
    failed; it does nothing else; the directory afterwards is the
    directory before without the files whose deletion succeeded; no
    younger file is deleted; and when no deletion fails exactly the files
    older than 24 hours are gone. *)
Theorem C8_sweep_deletes_exactly_old (w : World) (d : Dir) :
  dir w = Some d -> NoDup (map fname d) -> maxAgeMs (env w) = 24 * hour ->
  let old f := 24 * hour <? ageAt (clock w) f in
  exists evs,
    fst (cleanupOldFiles w) = Return tt /\
    reaches w evs (snd (cleanupOldFiles w)) /\
    unlinkAttempts evs = map fname (filter old d) /\
    Forall (fun e => exists n r, e = EvUnlink n r) evs /\
    dir (snd (cleanupOldFiles w))
    = Some (filter (fun f => negb (unlinked evs (fname f))) d) /\
    (forall f, In f d -> old f = false -> unlinked evs (fname f) = false) /\
    ((forall h n, unlinkOracle (env w) h n = None) ->
     dir (snd (cleanupOldFiles w)) = Some (filter (fun f => negb (old f)) d)).
Proof.
  intros Hd Hnd Hlimit. pose proof (cleanupOldFiles_spec w Hd Hnd) as H.
  cbv zeta in H. rewrite Hlimit in H. exact H.
Qed.

Lemma agedDir_NoDup : NoDup (map fname agedDir).
Proof.
  repeat constructor; simpl; intros H;
    repeat (destruct H as [H|H]; [discriminate H|]); exact H.
Qed.

(** Files aged 1 h, 25 h and 48 h: the sweep tries the two old ones, and
    deletes the 48 h file although the 25 h file could not be deleted. *)
Lemma C8_sweep_deletes_exactly_old_witness :
  let w := start stubbornEnv (100 * hour) (Some agedDir) in
  let old f := 24 * hour <? ageAt (clock w) f in
  exists evs,
    fst (cleanupOldFiles w) = Return tt /\
    reaches w evs (snd (cleanupOldFiles w)) /\
    unlinkAttempts evs = map fname (filter old agedDir) /\
    Forall (fun e => exists n r, e = EvUnlink n r) evs /\
    dir (snd (cleanupOldFiles w))
    = Some (filter (fun f => negb (unlinked evs (fname f))) agedDir) /\
    (forall f, In f agedDir -> old f = false -> unlinked evs (fname f) = false) /\
    ((forall h n, unlinkOracle (env w) h n = None) ->
     dir (snd (cleanupOldFiles w)) = Some (filter (fun f => negb (old f)) agedDir)).
Proof.
  apply (@C8_sweep_deletes_exactly_old
           (start stubbornEnv (100 * hour) (Some agedDir)) agedDir).
  - reflexivity.
  - exact agedDir_NoDup.
  - reflexivity.
Defined.

(** The example of the specification: of files aged 1 h, 25 h and 48 h
    the sweep deletes the last two and keeps the first. *)
Example sweep_three_files :
  let w := start healthyEnv (100 * hour) (Some agedDir) in
  map (ageAt (clock w)) agedDir = [1 * hour; 25 * hour; 48 * hour] /\
  dir (snd (cleanupOldFiles w)) = Some [mkFile (js "young.mp4") (99 * hour) 10] /\
  trace (snd (cleanupOldFiles w))
  = [EvUnlink (js "old.mp4") None; EvUnlink (js "older.mp4") None].
Proof. vm_compute. repeat split; reflexivity. Qed.

(** A deletion that fails does not stop the sweep. *)
Example sweep_goes_on_after_failure :
  let w := start stubbornEnv (100 * hour) (Some agedDir) in
  dir (snd (cleanupOldFiles w))
  = Some [mkFile (js "young.mp4") (99 * hour) 10;
          mkFile (js "old.mp4") (75 * hour) 10] /\
  trace (snd (cleanupOldFiles w))
  = [EvUnlink (js "old.mp4") (Some (err "EPERM: operation not permitted"));
     EvUnlink (js "older.mp4") None].
Proof. vm_compute. repeat split; reflexivity. Qed.

(** A file aged exactly 24 hours stays. *)
Example sweep_keeps_file_at_threshold :
  let w := start healthyEnv (100 * hour)
             (Some [mkFile (js "edge.mp4") (76 * hour) 10]) in
  dir (snd (cleanupOldFiles w)) = Some [mkFile (js "edge.mp4") (76 * hour) 10].
Proof. vm_compute. reflexivity. Qed.

(* ================================================================== *)
(** * The classification of failures in the second revision *)
(* ================================================================== *)

Section Classification.

(** The [if] chain is the table of signatures read from the top. *)
Lemma classifyError_table msg :
  Rev2.classifyError msg
  = match firstMatch signatures msg with
    | Some m => m
    | None => Rev2.defaultMessage
    end.
Proof.
  unfold Rev2.classifyError, signatures, firstMatch, existsb.
  repeat match goal with
         | |- context [includes msg ?p] =>
             destruct (includes msg p); cbn [orb]; try reflexivity
         end.
Qed.

Lemma firstMatch_In table msg m :
  firstMatch table msg = Some m -> In m (map snd table).
Proof.
  induction table as [|[phrases m'] rest IH]; simpl; [discriminate|].
  destruct (existsb (includes msg) phrases).
  - intros H. inversion H. now left.
  - intros H. right. now apply IH.
Qed.

Lemma classifyError_known msg : In (Rev2.classifyError msg) userMessages.
Proof.
  rewrite classifyError_table.
  assert (E0 : userMessages = map snd signatures ++ [Rev2.defaultMessage])
    by (cbv [userMessages signatures map snd app]; reflexivity).
  rewrite E0. apply in_or_app.
  destruct (firstMatch signatures msg) as [m|] eqn:E.
  - left. exact (firstMatch_In _ _ E).
  - right. now left.
Qed.

Lemma userMessages_not_internal m : In m userMessages -> m <> internalError.
Proof.
  unfold userMessages. simpl.
  intros [<-|[<-|[<-|[<-|[<-|[<-|[<-|[]]]]]]]] H; vm_compute in H;
    discriminate H.
Qed.

(** A valid request whose download fails is answered with status 500 and
    the generic message, whatever the error was. *)
Lemma postDownloadWith_failure
    (download : jsstring -> M DownloadResult) req url w e :
  truthyStr (req_url req) = Some url -> validateYouTubeUrl url = true ->
  validFormat (req_format req) ->
  fst (download url w) = Throw e ->
  fst (postDownloadWith download req w)
  = Return (mkHttp 500 (ErrorBody internalError)).
Proof.
  intros Hurl Hvalid Hformat Hfail.
  unfold postDownloadWith. unfold bind at 1. unfold dateNow at 1.
  rewrite Hurl, Hvalid. cbn [negb].
  rewrite (validFormat_accepted Hformat). cbn [negb].
  destruct (download url w) as [o w1] eqn:Hrun. simpl in Hfail. subst o.
  rewrite (@bind_Return _ _ _ _ w (Throw e) w1).
  - reflexivity.
  - rewrite tryCatch_run, (bind_Throw _ Hrun). reflexivity.
Qed.

End Classification.

(** C9, as stated, fails: the classification is not what the user is
    told.  For an unavailable video the download function throws the
    message of the first row of the table, and the response of the route
    carries the generic message of an internal error instead. *)
Lemma C9_classification_not_shown_counterexample :
  ~ classificationShown sampleUrl (start offlineEnv 0 None).
Proof.
  intros H.
  destruct (H (mkError Rev2.unavailableMessage [])) as [st Hst];
    [vm_compute; reflexivity|].
  vm_compute in Hst. discriminate Hst.
Qed.

(** C9, amended.  In the second revision every failure of the download
    is caught, and the error that [downloadVideoForWeb] throws instead
    carries the message that the table of known signatures gives for the
    raw message (the default message when no signature occurs in it);
    that message is one of seven fixed texts, each different from the
    generic message of an internal error, so it holds nothing of the raw
    text or of a stack; it is not what the user is told: the response of
    the route to such a failure is the generic message alone, with
    status 500. *)
Theorem C9_failure_classified (videoUrl : jsstring) (w : World) (e : JsError) :
  fst (Rev2.downloadVideoForWeb videoUrl w) = Throw e ->
  (exists raw,
     fst (Rev2.download videoUrl w) = Throw raw /\
     message e = Rev2.classifyError (message raw) /\
     message e = match firstMatch signatures (message raw) with
                 | Some m => m
                 | None => Rev2.defaultMessage
                 end)
  /\ In (message e) userMessages
  /\ message e <> internalError
  /\ (forall req,
        truthyStr (req_url req) = Some videoUrl ->
        validateYouTubeUrl videoUrl = true ->
        validFormat (req_format req) ->
        fst (Rev2.postDownload req w)
        = Return (mkHttp 500 (ErrorBody internalError))).
Proof.
  intros H.
  assert (Hraw : exists raw,
             fst (Rev2.download videoUrl w) = Throw raw /\
             message e = Rev2.classifyError (message raw)).
  { unfold Rev2.downloadVideoForWeb, bind in H. rewrite tryCatch_run in H.
    destruct (Rev2.download videoUrl w) as [[r|raw] w1]; simpl in H;
      [discriminate|].
    exists raw. split; [reflexivity|]. unfold throwNew in H. simpl in H.
    inversion H. reflexivity. }
  destruct Hraw as (raw & Hfst & Hmsg).
  assert (Hin : In (message e) userMessages)
    by (rewrite Hmsg; apply classifyError_known).
  split; [|split; [exact Hin|split]].
  - exists raw. split; [exact Hfst|]. split; [exact Hmsg|].
    rewrite Hmsg. apply classifyError_table.
  - now apply userMessages_not_internal.
  - intros req Hurl Hvalid Hformat.
    exact (postDownloadWith_failure Rev2.downloadVideoForWeb req w
             Hurl Hvalid Hformat H).
Qed.

(** An unavailable video: the raw message of yt-dlp becomes the message
    of the first row of the table, and the route answers with the generic
    message. *)
Lemma C9_failure_classified_witness :
  let w := start offlineEnv 0 None in
  let e := mkError Rev2.unavailableMessage [] in
  (exists raw,
     fst (Rev2.download sampleUrl w) = Throw raw /\
     message e = Rev2.classifyError (message raw) /\
     message e = match firstMatch signatures (message raw) with
                 | Some m => m
                 | None => Rev2.defaultMessage
                 end)
  /\ In (message e) userMessages
  /\ message e <> internalError
  /\ (forall req,
        truthyStr (req_url req) = Some sampleUrl ->
        validateYouTubeUrl sampleUrl = true ->
        validFormat (req_format req) ->
        fst (Rev2.postDownload req w)
        = Return (mkHttp 500 (ErrorBody internalError))).
Proof.
  intros w e.
  apply (@C9_failure_classified sampleUrl w e).
  vm_compute. reflexivity.
Defined.

(** The order of the table decides when several signatures occur: the
    message of a failed command that names a format is classified as an
    unsupported format. *)
Example classifyError_examples :
  Rev2.classifyError (js "ERROR: Private video. Sign in if you have access")
  = Rev2.unavailableMessage /\
  Rev2.classifyError (js "Sign in to confirm your age") = Rev2.ageMessage /\
  Rev2.classifyError (js "connect ETIMEDOUT: network unreachable")
  = Rev2.networkMessage /\
  Rev2.classifyError (js "Command failed: yt-dlp --format best")
  = Rev2.formatMessage /\
  Rev2.classifyError (js "Command failed: yt-dlp --version")
  = Rev2.commandMessage /\
  Rev2.classifyError (js "something else") = Rev2.defaultMessage.
Proof. vm_compute. repeat split; reflexivity. Qed.

(* ================================================================== *)
(** * More on the sanitizer and the title *)
(* ================================================================== *)

Section SanitizerAgain.

Lemma wsCollapsed_tail c s : wsCollapsed (c :: s) -> wsCollapsed s.
Proof.
  intros [H1 H2]. split.
  - intros x Hx. apply H1. now right.
  - intros a x d b E. apply (H2 (c :: a) x d b). simpl. now rewrite E.
Qed.

(** On a string whose white space is normalised the second [replace] of
    the sanitizer changes nothing. *)
Lemma replaceWsRuns_fixed s :
  wsCollapsed s ->
  replaceWsRuns false s = s /\ (noLeadingWs s -> replaceWsRuns true s = s).
Proof.
  induction s as [|c s IH]; intros Hc; [now split|].
  destruct (IH (wsCollapsed_tail Hc)) as [IHf IHt].
  assert (Hnext : isWhiteSpace c = true -> noLeadingWs s).
  { intros Hw d r E. subst s. destruct Hc as [_ H2].
    exact (H2 [] c d r eq_refl Hw). }
  split.
  - simpl. destruct (isWhiteSpace c) eqn:W.
    + destruct Hc as [H1 _]. rewrite (H1 c (or_introl eq_refl) W).
      now rewrite (IHt (Hnext eq_refl)).
    + now rewrite IHf.
  - intros Hl. simpl. rewrite (Hl c s eq_refl). now rewrite IHf.
Qed.

Lemma trimStart_fixed s : noLeadingWs s -> trimStart s = s.
Proof.
  destruct s as [|c s]; [reflexivity|]. intros H. simpl.
  now rewrite (H c s eq_refl).
Qed.

Lemma trim_fixed s : noLeadingWs s -> noTrailingWs s -> trim s = s.
Proof.
  intros Hl Ht. unfold trim, trimEnd. rewrite (trimStart_fixed Hl).
  rewrite trimStart_fixed; [apply rev_involutive|].
  intros c r E. apply (Ht (rev r) c).
  rewrite <- (rev_involutive s), E. reflexivity.
Qed.

Lemma removeForbidden_fixed s :
  Forall (fun c => isForbidden c = false) s -> removeForbidden s = s.
Proof.
  intros H. unfold removeForbidden. apply forallb_filter_id.
  apply forallb_forall. intros c Hc. apply negb_true_iff.
  exact (proj1 (Forall_forall _ _) H c Hc).
Qed.

Lemma sanitizeFilename_props s :
  Forall (fun c => isForbidden c = false) (sanitizeFilename s) /\
  wsCollapsed (sanitizeFilename s) /\
  noLeadingWs (sanitizeFilename s) /\
  noTrailingWs (sanitizeFilename s).
Proof.
  unfold sanitizeFilename.
  set (t := collapseWhitespace (removeForbidden s)).
  destruct (trim_infix t) as (p & q & Ht).
  split; [|split; [|split]].
  - apply (@Forall_infix _ p _ q). rewrite <- Ht.
    apply replaceWsRuns_clean, removeForbidden_clean.
  - apply (@wsCollapsed_infix p _ q). rewrite <- Ht.
    apply collapseWhitespace_collapsed.
  - unfold trim. apply trimEnd_noLeading, trimStart_noLeading.
  - unfold trim. apply trimEnd_noTrailing.
Qed.

Lemma filter_nil_all (f : N -> bool) s :
  filter f s = [] -> forall c, In c s -> f c = false.
Proof.
  induction s as [|x s IH]; simpl; [contradiction|].
  destruct (f x) eqn:E; [discriminate|].
  intros H c [<-|Hc]; [exact E | now apply IH].
Qed.

End SanitizerAgain.

(** X1.  Sanitizing is idempotent: a sanitized name is left as it is. *)
Theorem sanitizeFilename_idempotent (filename : jsstring) :
  sanitizeFilename (sanitizeFilename filename) = sanitizeFilename filename.
Proof.
  destruct (sanitizeFilename_props filename) as (Hf & Hc & Hl & Ht).
  set (t := sanitizeFilename filename) in *.
  unfold sanitizeFilename at 1. rewrite (removeForbidden_fixed Hf).
  unfold collapseWhitespace. rewrite (proj1 (replaceWsRuns_fixed Hc)).
  now apply trim_fixed.
Qed.

(** X2.  The sanitizer loses nothing but forbidden characters and white
    space: the code units that are neither come out unchanged and in the
    same order. *)
Theorem sanitizeFilename_keeps_content (filename : jsstring) :
  filter (fun c => negb (isWhiteSpace c)) (sanitizeFilename filename)
  = filter (fun c => negb (isWhiteSpace c) && negb (isForbidden c)) filename.
Proof. apply sanitizeFilename_content. Qed.

(** X3.  The sanitized name is empty exactly when the title holds nothing
    but forbidden characters and white space. *)
Theorem sanitizeFilename_empty_iff (filename : jsstring) :
  sanitizeFilename filename = [] <->
  Forall (fun c => isWhiteSpace c = true \/ isForbidden c = true) filename.
Proof.
  pose proof (sanitizeFilename_content filename) as Hcontent. split.
  - intros E. rewrite E in Hcontent. simpl in Hcontent.
    apply Forall_forall. intros c Hc.
    pose proof (filter_nil_all _ _ (eq_sym Hcontent) c Hc) as H.
    apply andb_false_iff in H.
    destruct H as [H|H]; apply negb_false_iff in H; tauto.
  - intros H.
    assert (E : filter (fun c => negb (isWhiteSpace c) && negb (isForbidden c))
                  filename = []).
    { clear Hcontent. induction H as [|c s Hc _ IH]; [reflexivity|]. simpl.
      destruct Hc as [-> | ->]; simpl; [exact IH|].
      now rewrite andb_false_r. }
    rewrite E in Hcontent.
    destruct (sanitizeFilename_props filename) as (_ & _ & Hl & _).
    destruct (sanitizeFilename filename) as [|c r]; [reflexivity|].
    exfalso. pose proof (Hl c r eq_refl) as Hw.
    simpl in Hcontent. rewrite Hw in Hcontent. discriminate.
Qed.

Section NameInUse.




End NameInUse.


(** A title of punctuation only: the generated name is in the command
    and is what the locator looks for. *)
Example punctuation_title_gets_generated_name :
  let env := scripted false (fun _ _ => Return (js "{}"))
               [mkFile (js "video_abc_1000.mp4") 2000 10]
               (fun _ => Return (Some (mkInfo (Some (js " ?? ")) (js "abc")
                                         None None None None None)))
               noHttp (fun _ => None) in
  let run := Rev1.downloadViaYtDlp sampleUrl (start env 0 None) in
  option_map filename (match fst run with Return r => Some r | Throw _ => None end)
  = Some (js "video_abc_1000.mp4") /\
  map (fun e => match e with
                | EvExec c t _ =>
                    (t =? 300000)
                    && includes c (js " --output " ++ quoted (js "video_abc_1000.%(ext)s"))
                | _ => false
                end) (trace (snd run))
  = [false; true].
Proof. vm_compute. split; reflexivity. Qed.

(* ================================================================== *)
(** * The two URL patterns *)
(* ================================================================== *)

Section Patterns.

Lemma stripPrefix_spec l : forall s r,
  stripPrefix l s = Some r <-> s = l ++ r.
Proof.
  induction l as [|p l IH]; intros s r; destruct s as [|c s]; simpl.
  - split; [intros H; now inversion H | intros <-; reflexivity].
  - split; [intros H; now inversion H | intros <-; reflexivity].
  - split; discriminate.
  - destruct (N.eqb c p) eqn:E.
    + apply N.eqb_eq in E. subst c. rewrite IH. split.
      * now intros ->.
      * intros H. now inversion H.
    + split; [discriminate|]. intros H. inversion H; subst.
      rewrite N.eqb_refl in E. discriminate.
Qed.

Lemma lit_extensible l k : extensible k -> extensible (lit l k).
Proof.
  intros Hk s t. unfold lit.
  destruct (stripPrefix l s) as [r|] eqn:E; [|discriminate].
  apply stripPrefix_spec in E. subst s. rewrite <- app_assoc.
  rewrite (proj2 (stripPrefix_spec l (l ++ r ++ t) (r ++ t)) eq_refl).
  apply Hk.
Qed.

Lemma opt_extensible l k : extensible k -> extensible (opt l k).
Proof.
  intros Hk s t. unfold opt. intros H. apply orb_true_iff in H.
  apply orb_true_iff. destruct H as [H|H].
  - left. now apply lit_extensible.
  - right. now apply Hk.
Qed.

Lemma classN_extensible p n k : extensible k -> extensible (classN p n k).
Proof.
  intros Hk. induction n as [|n IH]; intros s t; simpl; [apply Hk|].
  destruct s as [|c s]; [discriminate|]. simpl.
  intros H. apply andb_true_iff in H. destruct H as [Hc H].
  rewrite Hc. simpl. now apply IH.
Qed.

Lemma validateYouTubeUrl_extensible : extensible validateYouTubeUrl.
Proof.
  unfold validateYouTubeUrl.
  apply lit_extensible, opt_extensible, lit_extensible, opt_extensible.
  intros s t. unfold alt. intros H. apply orb_true_iff in H.
  apply orb_true_iff.
  destruct H as [H|H]; [left|right];
    (revert H; apply lit_extensible, classN_extensible; now intros ? ?).
Qed.

(** What [classN] accepts starts with [n] code units of the class. *)
Lemma classN_spec p n : forall s,
  classN p n (fun _ => true) s = true ->
  exists pre rest,
    s = pre ++ rest /\ List.length pre = n /\ Forall (fun c => p c = true) pre.
Proof.
  induction n as [|n IH]; intros s; simpl.
  - intros _. exists [], s. repeat split. constructor.
  - destruct s as [|c s]; [discriminate|]. intros H.
    apply andb_true_iff in H. destruct H as [Hc H].
    destruct (IH s H) as (pre & rest & -> & Hlen & Hall).
    exists (c :: pre), rest. repeat split; simpl; [now rewrite Hlen|].
    now constructor.
Qed.

(** A URL that [validateYouTubeUrl] accepts is one of the eight
    beginnings followed by what the class matches. *)
Lemma validateYouTubeUrl_shape url :
  validateYouTubeUrl url = true ->
  exists pre rest,
    url = pre ++ rest /\ In pre validPrefixes /\
    classN isWordOrDash 11 (fun _ => true) rest = true.
Proof.
  unfold validateYouTubeUrl, opt, alt, lit.
  destruct (stripPrefix (js "http") url) as [r1|] eqn:E1; [|discriminate].
  apply stripPrefix_spec in E1. subst url.
  assert (Hhost : forall r,
    (match stripPrefix (js "youtube.com/watch?v=") r with
     | Some rest => classN isWordOrDash 11 (fun _ => true) rest
     | None => false
     end
     || match stripPrefix (js "youtu.be/") r with
        | Some rest => classN isWordOrDash 11 (fun _ => true) rest
        | None => false
        end) = true ->
    exists host rest, r = host ++ rest /\
      (host = watchPrefix \/ host = shortPrefix) /\
      classN isWordOrDash 11 (fun _ => true) rest = true).
  { intros r H. apply orb_true_iff in H. destruct H as [H|H].
    - destruct (stripPrefix (js "youtube.com/watch?v=") r) as [rest|] eqn:E;
        [|discriminate].
      apply stripPrefix_spec in E. exists watchPrefix, rest. now repeat split; auto.
    - destruct (stripPrefix (js "youtu.be/") r) as [rest|] eqn:E;
        [|discriminate].
      apply stripPrefix_spec in E. exists shortPrefix, rest. now repeat split; auto. }
  assert (Hwww : forall r,
    (match stripPrefix (js "www.") r with
     | Some rest =>
         match stripPrefix (js "youtube.com/watch?v=") rest with
         | Some rest0 => classN isWordOrDash 11 (fun _ => true) rest0
         | None => false
         end
         || match stripPrefix (js "youtu.be/") rest with
            | Some rest0 => classN isWordOrDash 11 (fun _ => true) rest0
            | None => false
            end
     | None => false
     end
     || (match stripPrefix (js "youtube.com/watch?v=") r with
         | Some rest => classN isWordOrDash 11 (fun _ => true) rest
         | None => false
         end
         || match stripPrefix (js "youtu.be/") r with
            | Some rest => classN isWordOrDash 11 (fun _ => true) rest
            | None => false
            end)) = true ->
    exists www host rest, r = www ++ host ++ rest /\
      (www = js "www." \/ www = []) /\
      (host = watchPrefix \/ host = shortPrefix) /\
      classN isWordOrDash 11 (fun _ => true) rest = true).
  { intros r H. apply orb_true_iff in H. destruct H as [H|H].
    - destruct (stripPrefix (js "www.") r) as [r'|] eqn:E; [|discriminate].
      apply stripPrefix_spec in E. subst r.
      destruct (Hhost r' H) as (host & rest & -> & Hh & Hc).
      exists (js "www."), host, rest. repeat split; auto.
    - destruct (Hhost r H) as (host & rest & -> & Hh & Hc).
      exists [], host, rest. repeat split; auto. }
  assert (Hscheme : forall r,
    match stripPrefix (js "://") r with
    | Some rest =>
        match stripPrefix (js "www.") rest with
        | Some rest0 =>
            match stripPrefix (js "youtube.com/watch?v=") rest0 with
            | Some rest1 => classN isWordOrDash 11 (fun _ => true) rest1
            | None => false
            end
            || match stripPrefix (js "youtu.be/") rest0 with
               | Some rest1 => classN isWordOrDash 11 (fun _ => true) rest1
               | None => false
               end
        | None => false
        end
        || (match stripPrefix (js "youtube.com/watch?v=") rest with
            | Some rest0 => classN isWordOrDash 11 (fun _ => true) rest0
            | None => false
            end
            || match stripPrefix (js "youtu.be/") rest with
               | Some rest0 => classN isWordOrDash 11 (fun _ => true) rest0
               | None => false
               end)
    | None => false
    end = true ->
    exists www host rest, r = js "://" ++ www ++ host ++ rest /\
      (www = js "www." \/ www = []) /\
      (host = watchPrefix \/ host = shortPrefix) /\
      classN isWordOrDash 11 (fun _ => true) rest = true).
  { intros r H.
    destruct (stripPrefix (js "://") r) as [r'|] eqn:E; [|discriminate].
    apply stripPrefix_spec in E. subst r.
    destruct (Hwww r' H) as (www & host & rest & -> & Hw & Hh & Hc).
    exists www, host, rest. repeat split; auto. }
  intros H. apply orb_true_iff in H.
  assert (Hin : forall scheme www host,
             (scheme = js "https://" \/ scheme = js "http://") ->
             (www = js "www." \/ www = []) ->
             (host = watchPrefix \/ host = shortPrefix) ->
             In (scheme ++ www ++ host) validPrefixes).
  { intros scheme www host [-> | ->] [-> | ->] [-> | ->];
      unfold validPrefixes; cbn [flat_map map app In]; tauto. }
  destruct H as [H|H].
  - destruct (stripPrefix (js "s") r1) as [r2|] eqn:E2; [|discriminate].
    apply stripPrefix_spec in E2. subst r1.
    destruct (Hscheme r2 H) as (www & host & rest & -> & Hw & Hh & Hc).
    exists (js "https://" ++ www ++ host), rest.
    split; [|split; [apply Hin; auto | exact Hc]].
    rewrite <- !app_assoc. reflexivity.
  - destruct (Hscheme r1 H) as (www & host & rest & -> & Hw & Hh & Hc).
    exists (js "http://" ++ www ++ host), rest.
    split; [|split; [apply Hin; auto | exact Hc]].
    rewrite <- !app_assoc. reflexivity.
Qed.

End Patterns.

Section Extraction.

Lemma isWordOrDash_isIdChar c : isWordOrDash c = true -> isIdChar c = true.
Proof.
  unfold isWordOrDash, isIdChar, inRange. intros H.
  apply negb_true_iff. simpl.
  repeat rewrite orb_false_iff. repeat split; apply N.eqb_neq; intros ->;
    vm_compute in H; discriminate.
Qed.

(** After one of the eight beginnings the capture starts at once. *)
Lemma extract_at_prefix pre c r :
  In pre validPrefixes -> isIdChar c = true ->
  extractVideoId (pre ++ c :: r) = Some (c :: takeWhile isIdChar r).
Proof.
  intros Hin Hc. unfold validPrefixes in Hin. cbn [flat_map map app In] in Hin.
  repeat (destruct Hin as [<-|Hin]; [cbn; rewrite Hc; reflexivity|]).
  contradiction.
Qed.

Lemma takeWhile_all p s :
  Forall (fun c => p c = true) s -> forall t, takeWhile p (s ++ t) = s ++ takeWhile p t.
Proof.
  induction 1 as [|c s Hc _ IH]; intros t; simpl; [reflexivity|].
  now rewrite Hc, IH.
Qed.

Lemma takeWhile_split p s :
  exists rest,
    s = takeWhile p s ++ rest /\
    Forall (fun c => p c = true) (takeWhile p s) /\
    match rest with [] => True | c :: _ => p c = false end.
Proof.
  induction s as [|c s (rest & E & Hall & Hend)]; simpl.
  - exists []. repeat split. constructor.
  - destruct (p c) eqn:Hc.
    + exists rest. simpl. split; [now f_equal|]. split; [now constructor | exact Hend].
    + exists (c :: s). repeat split; [constructor | exact Hc].
Qed.

Lemma extractVideoId_unfold url :
  extractVideoId url
  = match videoIdAt url with
    | Some v => Some v
    | None => match url with
              | [] => None
              | _ :: rest => extractVideoId rest
              end
    end.
Proof. destruct url; reflexivity. Qed.

Lemma videoIdAt_sound s v :
  videoIdAt s = Some v ->
  v <> [] /\ Forall (fun c => isIdChar c = true) v /\
  exists host rest,
    s = host ++ v ++ rest /\ (host = watchPrefix \/ host = shortPrefix) /\
    endsId rest.
Proof.
  assert (Hcap : forall r,
             match takeWhile isIdChar r with [] => None | v0 => Some v0 end = Some v ->
             v <> [] /\ Forall (fun c => isIdChar c = true) v /\
             exists rest, r = v ++ rest /\ endsId rest).
  { intros r H. destruct (takeWhile_split isIdChar r) as (rest & E & Hall & Hend).
    destruct (takeWhile isIdChar r) as [|c t]; [discriminate|].
    inversion H; subst v. split; [discriminate|]. split; [exact Hall|].
    now exists rest. }
  unfold videoIdAt.
  destruct (stripPrefix (js "youtube.com/watch?v=") s) as [r|] eqn:E1.
  - apply stripPrefix_spec in E1. intros H.
    destruct (Hcap r H) as (Hne & Hall & rest & -> & Hend).
    split; [exact Hne|]. split; [exact Hall|].
    exists watchPrefix, rest. split; [exact E1|]. split; [now left | exact Hend].
  - destruct (stripPrefix (js "youtu.be/") s) as [r|] eqn:E2; [|discriminate].
    apply stripPrefix_spec in E2. intros H.
    destruct (Hcap r H) as (Hne & Hall & rest & -> & Hend).
    split; [exact Hne|]. split; [exact Hall|].
    exists shortPrefix, rest. split; [exact E2|]. split; [now right | exact Hend].
Qed.

End Extraction.

(** X5.  The pattern of [validateYouTubeUrl] has no end anchor: whatever
    is appended to a URL that it accepts is accepted as well. *)
Theorem validateYouTubeUrl_accepts_any_suffix (url suffix : jsstring) :
  validateYouTubeUrl url = true ->
  validateYouTubeUrl (url ++ suffix) = true.
Proof. intros H. now apply validateYouTubeUrl_extensible. Qed.

(** A valid URL followed by the end of a quote and a shell command is
    accepted. *)
Lemma validateYouTubeUrl_accepts_any_suffix_witness :
  validateYouTubeUrl (sampleUrl ++ DQ ++ js "; echo oops #") = true.
Proof.
  apply (@validateYouTubeUrl_accepts_any_suffix sampleUrl
           (DQ ++ js "; echo oops #")).
  reflexivity.
Defined.

(** X6.  Every URL that [validateYouTubeUrl] accepts has an id for
    [extractVideoId]: the URL is one of the eight beginnings, eleven code
    units of the class of the pattern, and a rest; the id is those eleven
    code units together with all that follows them up to the first
    ampersand, question mark, hash or line feed.  So the fall-back never
    refuses a validated URL, and the id may be longer than eleven. *)
Theorem validated_url_has_id (url : jsstring) :
  validateYouTubeUrl url = true ->
  exists pre id11 rest,
    url = pre ++ id11 ++ rest /\ In pre validPrefixes /\
    List.length id11 = 11%nat /\
    Forall (fun c => isWordOrDash c = true) id11 /\
    extractVideoId url = Some (id11 ++ takeWhile isIdChar rest).
Proof.
  intros H. destruct (validateYouTubeUrl_shape url H) as (pre & r & -> & Hin & Hc).
  destruct (@classN_spec isWordOrDash 11 r Hc) as (id11 & rest & -> & Hlen & Hall).
  exists pre, id11, rest. repeat split; try assumption.
  destruct id11 as [|c t]; [discriminate Hlen|].
  inversion Hall as [|? ? Hc0 Ht]; subst.
  simpl app.
  rewrite (@extract_at_prefix pre c (t ++ rest) Hin
             (@isWordOrDash_isIdChar c Hc0)).
  f_equal. f_equal. apply takeWhile_all.
  apply Forall_forall. intros x Hx. apply isWordOrDash_isIdChar.
  exact (proj1 (Forall_forall _ _) Ht x Hx).
Qed.

(** The id of the sample URL with a time stamp and with trailing letters. *)
Lemma validated_url_has_id_witness :
  exists pre id11 rest,
    sampleUrl ++ js "XYZ&t=3" = pre ++ id11 ++ rest /\ In pre validPrefixes /\
    List.length id11 = 11%nat /\
    Forall (fun c => isWordOrDash c = true) id11 /\
    extractVideoId (sampleUrl ++ js "XYZ&t=3")
    = Some (id11 ++ takeWhile isIdChar rest).
Proof.
  apply (@validated_url_has_id (sampleUrl ++ js "XYZ&t=3")).
  reflexivity.
Defined.

Example extractVideoId_longer_than_eleven :
  extractVideoId (sampleUrl ++ js "XYZ&t=3") = Some (js "dQw4w9WgXcQXYZ").
Proof. vm_compute. reflexivity. Qed.

(** X7.  What [extractVideoId] returns is never empty, holds no
    ampersand, question mark, hash or line feed, stands in the URL right
    after [youtube.com/watch?v=] or [youtu.be/], and ends at the end of
    the URL or before one of those four characters. *)
Theorem extractVideoId_sound (url videoId : jsstring) :
  extractVideoId url = Some videoId ->
  videoId <> [] /\ Forall (fun c => isIdChar c = true) videoId /\
  exists pre host rest,
    url = pre ++ host ++ videoId ++ rest /\
    (host = watchPrefix \/ host = shortPrefix) /\ endsId rest.
Proof.
  induction url as [|c url IH]; rewrite extractVideoId_unfold.
  - destruct (videoIdAt []) eqn:E; [|discriminate].
    intros H. inversion H; subst.
    destruct (@videoIdAt_sound _ _ E) as (Hne & Hall & host & rest & Hs & Hh & He).
    split; [exact Hne|]. split; [exact Hall|]. now exists [], host, rest.
  - destruct (videoIdAt (c :: url)) eqn:E.
    + intros H. inversion H; subst.
      destruct (@videoIdAt_sound _ _ E) as (Hne & Hall & host & rest & Hs & Hh & He).
      split; [exact Hne|]. split; [exact Hall|]. now exists [], host, rest.
    + intros H. destruct (IH H) as (Hne & Hall & pre & host & rest & -> & Hh & He).
      split; [exact Hne|]. split; [exact Hall|].
      now exists (c :: pre), host, rest.
Qed.

Lemma extractVideoId_sound_witness :
  js "dQw4w9WgXcQ" <> [] /\
  Forall (fun c => isIdChar c = true) (js "dQw4w9WgXcQ") /\
  exists pre host rest,
    js "see https://youtu.be/dQw4w9WgXcQ?t=3"
    = pre ++ host ++ js "dQw4w9WgXcQ" ++ rest /\
    (host = watchPrefix \/ host = shortPrefix) /\ endsId rest.
Proof.
  apply (@extractVideoId_sound (js "see https://youtu.be/dQw4w9WgXcQ?t=3")
           (js "dQw4w9WgXcQ")).
  vm_compute. reflexivity.
Defined.

(* ================================================================== *)
(** * Durations and the choice of the format *)
(* ================================================================== *)

Section Durations.

Lemma padStart2_below_sixty (n : nat) :
  (n < 60)%nat -> padStart2 (Z_to_js (Z.of_nat n)) = twoDigits (Z.of_nat n).
Proof.
  intros H.
  do 60 (destruct n as [|n]; [vm_compute; reflexivity|]).
  lia.
Qed.

Lemma colon_unit : js ":" = [58%N].
Proof. reflexivity. Qed.

End Durations.

(** X8.  For a duration that is a safe integer and not negative,
    [formatDuration] gives the whole minutes in decimal, a colon, and the
    seconds within the minute as exactly two digits, whatever the
    environment. *)
Theorem formatDuration_minutes_seconds (e : Env) (seconds : Z) :
  0 <= seconds <= maxSafeInteger ->
  formatDuration e (JsInt seconds)
  = Z_to_js (seconds / 60) ++ 58%N :: twoDigits (seconds mod 60).
Proof.
  intros H. unfold formatDuration, isSafeInteger.
  rewrite Z.abs_eq by lia.
  destruct (Z.leb_spec seconds maxSafeInteger) as [_|Hgt]; [|lia].
  cbv zeta.
  rewrite Z.rem_mod_nonneg by lia. rewrite colon_unit. simpl app. f_equal. f_equal.
  pose proof (Z.mod_pos_bound seconds 60 ltac:(lia)) as Hb.
  rewrite <- (Z2Nat.id (seconds mod 60)) by lia.
  apply padStart2_below_sixty. lia.
Qed.

Lemma formatDuration_minutes_seconds_witness :
  formatDuration healthyEnv (JsInt 125)
  = Z_to_js (125 / 60) ++ 58%N :: twoDigits (125 mod 60).
Proof.
  apply (@formatDuration_minutes_seconds healthyEnv 125).
  unfold maxSafeInteger. lia.
Defined.

(** Safe integers, the largest included; beyond them, and for a double
    that is no integer, the string is the one of the environment. *)
Example formatDuration_examples :
  formatDuration healthyEnv (JsInt 0) = js "0:00" /\
  formatDuration healthyEnv (JsInt 125) = js "2:05" /\
  formatDuration healthyEnv (JsInt 59) = js "0:59" /\
  formatDuration healthyEnv (JsInt 3600) = js "60:00" /\
  formatDuration healthyEnv (JsInt (-30)) = js "-1:-30" /\
  formatDuration healthyEnv (JsInt maxSafeInteger) = js "150119987579016:31" /\
  (forall e, formatDuration e (JsInt (10 ^ 21)) = inexactDuration e (JsInt (10 ^ 21))) /\
  (forall e label, formatDuration e (JsOther label) = inexactDuration e (JsOther label)).
Proof. repeat split; try (vm_compute; reflexivity); intros; reflexivity. Qed.

Section Formats.

Lemma mp4UpTo720_mp4 f : Rev1.mp4UpTo720 f = true -> container f = js "mp4".
Proof.
  unfold Rev1.mp4UpTo720. intros H. apply andb_true_iff in H.
  now apply str_eqb_eq.
Qed.

End Formats.

(** X9.  The stream that the fall-back chooses is an mp4 stream of the
    document, and it is one of at most 720 lines whenever the document has
    such an mp4 stream; no stream is chosen only when the document has no
    mp4 stream at all. *)
Theorem chooseFormat_prefers_mp4_up_to_720 (data : InvData) :
  match Rev1.chooseFormat data with
  | Some f =>
      container f = js "mp4" /\
      exists streams,
        formatStreams data = Some streams /\ In f streams /\
        ((exists g, In g streams /\ Rev1.mp4UpTo720 g = true) ->
         Rev1.mp4UpTo720 f = true)
  | None =>
      forall streams, formatStreams data = Some streams ->
        Forall (fun g => container g <> js "mp4") streams
  end.
Proof.
  unfold Rev1.chooseFormat.
  destruct (formatStreams data) as [streams|]; [|discriminate].
  destruct (find Rev1.mp4UpTo720 streams) as [f|] eqn:E1.
  - apply find_some in E1. destruct E1 as [Hin Hf].
    split; [now apply mp4UpTo720_mp4|].
    exists streams. now repeat split.
  - destruct (find (fun f => str_eqb (container f) (js "mp4")) streams)
      as [f|] eqn:E2.
    + apply find_some in E2. destruct E2 as [Hin Hf].
      split; [now apply str_eqb_eq|].
      exists streams. split; [reflexivity|]. split; [exact Hin|].
      intros (g & Hg & Hg720).
      pose proof (find_none _ _ E1 g Hg). congruence.
    + intros s Hs. inversion Hs; subst s. apply Forall_forall.
      intros g Hg Hc. pose proof (find_none _ _ E2 g Hg) as Hn.
      simpl in Hn. apply str_eqb_eq in Hc. congruence.
Qed.

(** A 1080p stream listed first is passed over for the 360p stream. *)
Example chooseFormat_skips_1080p :
  Rev1.chooseFormat
    (mkInvData false
       (Some [mkFormat (js "webm") (Some (js "360p")) (js "u0");
              mkFormat (js "mp4") (Some (js "1080p")) (js "u1");
              mkFormat (js "mp4") (Some (js "360p")) (js "u2")])
       None None None None)
  = Some (mkFormat (js "mp4") (Some (js "360p")) (js "u2")).
Proof. vm_compute. reflexivity. Qed.

(* ================================================================== *)
(** * The Invidious fall-back *)
(* ================================================================== *)

(** X10.  When the fall-back returns, the file it names is the file it has
    just written, the last thing it did.  Right before the write it fetched
    the document of one of the instances for the id of the URL and then
    the body of the stream chosen from that document; the entry in the
    directory has the size of that body and the time of the clock; the
    name is the sanitized title of the document followed by [.mp4];
    before those two requests the fall-back only sent HTTP requests or
    failed to write. *)
Theorem fallback_returns_written_file
    (videoUrl : jsstring) (w w' : World) (result : DownloadResult) :
  Rev1.downloadViaInvidious videoUrl w = (Return result, w') ->
  exists videoId pre size t,
    extractVideoId videoUrl = Some videoId /\
    reaches w (pre ++ [EvWrite (filename result) size None]) w' /\
    Forall quietEvent pre /\
    fetchedFor (env w) videoId Rev1.instances pre result size /\
    dir w'
    = Some (putEntry (ensuredDir w) (mkFile (filename result) (clock w) size)) /\
    (exists d, dir w' = Some d /\
               statEntry d (filename result)
               = Some (mkFile (filename result) (clock w) size)) /\
    vi_title (videoInfo result) = Some t /\
    filename result = sanitizeFilename t ++ js ".mp4" /\
    vi_method (videoInfo result) = Some (js "Invidious").
Proof.
  intros H.
  destruct (@downloadViaInvidious_success _ _ _ _ H)
    as (videoId & pre & size & Hid & Hr & Hpre & Hfetched & Hdir).
  destruct (@fetchedFor_name _ _ _ _ _ _ Hfetched) as (t & Ht & Hname & Hm).
  exists videoId, pre, size, t.
  repeat (split; [assumption|]).
  split; [|now repeat split].
  eexists. split; [exact Hdir|].
  exact (statEntry_putEntry (ensuredDir w) (mkFile (filename result) (clock w) size)).
Qed.

(** The mirror serves 4096 bytes: [foo.mp4] of that size is in the
    directory. *)
Lemma fallback_returns_written_file_witness :
  let w := start mirrorEnv 7 None in
  let result := mkResult (js "foo.mp4")
                  (Rev1.invVideoInfo mirrorEnv sampleData
                     (mkFormat (js "mp4") (Some (js "360p"))
                        (js "https://cdn.example/v"))) in
  let w' := snd (Rev1.downloadViaInvidious sampleUrl w) in
  exists videoId pre size t,
    extractVideoId sampleUrl = Some videoId /\
    reaches w (pre ++ [EvWrite (filename result) size None]) w' /\
    Forall quietEvent pre /\
    fetchedFor (env w) videoId Rev1.instances pre result size /\
    dir w'
    = Some (putEntry (ensuredDir w) (mkFile (filename result) (clock w) size)) /\
    (exists d, dir w' = Some d /\
               statEntry d (filename result)
               = Some (mkFile (filename result) (clock w) size)) /\
    vi_title (videoInfo result) = Some t /\
    filename result = sanitizeFilename t ++ js ".mp4" /\
    vi_method (videoInfo result) = Some (js "Invidious").
Proof.
  intros w result w'.
  apply (@fallback_returns_written_file sampleUrl w w' result).
  vm_compute. reflexivity.
Defined.

Example fallback_writes_what_it_fetched :
  dir (snd (Rev1.downloadViaInvidious sampleUrl (start mirrorEnv 7 None)))
  = Some [mkFile (js "foo.mp4") 7 4096].
Proof. vm_compute. reflexivity. Qed.

(** X11.  When the fall-back fails it has written no file: either the URL
    has no id, and then nothing at all has happened, or every instance
    failed, after at most 21 HTTP requests and failed writes, and the
    directory holds what it held before.  It throws one of two messages. *)
Theorem fallback_failure_writes_nothing
    (videoUrl : jsstring) (w w' : World) (e : JsError) :
  Rev1.downloadViaInvidious videoUrl w = (Throw e, w') ->
  (extractVideoId videoUrl = None /\ message e = js "URL inválida" /\ w' = w)
  \/
  (message e = js "Todas as instâncias Invidious falharam" /\
   exists evs,
     reaches w evs w' /\ Forall quietEvent evs /\
     (List.length evs <= 21)%nat /\
     dir w' = Some (ensuredDir w) /\ clock w' = clock w).
Proof.
  intros H.
  destruct (extractVideoId videoUrl) as [videoId|] eqn:Hid.
  - right.
    destruct (@downloadViaInvidious_run videoUrl videoId w Hid) as (w0 & Hd0 & Hr0 & Hc0 & Hrun).
    rewrite Hrun in H. clear Hrun.
    destruct (tryInstances_spec videoId Rev1.instances w0 Hd0)
      as (evs & Hr & Hc & Hlen & Hcase).
    rewrite instances_count in Hlen.
    destruct (fst (Rev1.tryInstances videoId Rev1.instances w0)) as [[r|]|e0];
      try discriminate; [|contradiction].
    inversion H; subst. clear H. destruct Hcase as [Hq Hdir].
    split; [reflexivity|]. exists evs.
    split; [exact (reaches_trans Hr0 Hr)|]. split; [exact Hq|].
    split; [lia|]. split; [exact Hdir | exact (eq_trans Hc Hc0)].
  - left. unfold Rev1.downloadViaInvidious in H. rewrite Hid in H.
    unfold throwNew in H. inversion H. now repeat split.
Qed.

(** Without network every instance fails and the directory is untouched. *)
Lemma fallback_failure_writes_nothing_witness :
  let w := start offlineEnv 0 (Some twoFiles) in
  let e := mkError (js "Todas as instâncias Invidious falharam") [] in
  let w' := snd (Rev1.downloadViaInvidious sampleUrl w) in
  (extractVideoId sampleUrl = None /\ message e = js "URL inválida" /\ w' = w)
  \/
  (message e = js "Todas as instâncias Invidious falharam" /\
   exists evs,
     reaches w evs w' /\ Forall quietEvent evs /\
     (List.length evs <= 21)%nat /\
     dir w' = Some (ensuredDir w) /\ clock w' = clock w).
Proof.
  intros w e w'.
  apply (@fallback_failure_writes_nothing sampleUrl w w' e).
  vm_compute. reflexivity.
Defined.

(** A URL without an id is refused before any request. *)
Example fallback_refuses_url_without_id :
  Rev1.downloadViaInvidious (js "https://example.org/") (start mirrorEnv 0 None)
  = (Throw (mkError (js "URL inválida") []), start mirrorEnv 0 None).
Proof. vm_compute. reflexivity. Qed.

(* ================================================================== *)
(** * What a primary run costs and returns *)
(* ================================================================== *)

Section Counting.

Lemma probeEvents_execs probes :
  filter isExec (probeEvents probes) = probeEvents probes.
Proof.
  unfold probeEvents. induction probes as [|a l IH]; simpl; [reflexivity|].
  now rewrite IH.
Qed.

Lemma probeEvents_nonExec probes : filter nonExec (probeEvents probes) = [].
Proof. unfold probeEvents. induction probes as [|a l IH]; simpl; auto. Qed.

Lemma attemptEvents_execs l : forall first,
  List.length (filter isExec (attemptEvents first l)) = List.length l.
Proof.
  induction l as [|[c o] l IH]; intros first; simpl; [reflexivity|].
  rewrite filter_app. destruct first; simpl; now rewrite IH.
Qed.

Lemma attemptEvents_waits l : forall first,
  List.length (filter nonExec (attemptEvents first l))
  = (List.length l - (if first then 1 else 0))%nat.
Proof.
  induction l as [|[c o] l IH]; intros first; simpl.
  - now destruct first.
  - rewrite filter_app. destruct first; simpl; rewrite IH; simpl; lia.
Qed.

Lemma attemptEvents_execOrSleep l : forall first,
  Forall execOrSleep (attemptEvents first l).
Proof.
  induction l as [|[c o] l IH]; intros first; simpl; [constructor|].
  apply Forall_app. split.
  - destruct first; [constructor | constructor; [now right | constructor]].
  - constructor; [now left | apply IH].
Qed.

(** The events of a primary run: the version queries, at most one
    metadata query, the attempts. *)
Lemma downloadViaYtDlp_events videoUrl w :
  exists probes query attempts,
    reaches w (probeEvents probes ++ query ++ attemptEvents true attempts)
            (snd (Rev1.downloadViaYtDlp videoUrl w)) /\
    (List.length probes <= 3)%nat /\
    (production (env w) = false -> probes = []) /\
    (query = [] \/
     exists cmd res, query = [EvExec (infoCommand cmd videoUrl) 30000 res]) /\
    (List.length attempts <= 2)%nat.
Proof.
  unfold Rev1.downloadViaYtDlp.
  destruct (ensureDownloadsDir_run w) as (w0 & Hens & Hr0 & _ & _).
  rewrite (bind_Return _ Hens).
  destruct (detectYtDlp_spec notFound1 w0) as (probes & w1 & Hsnd & Hr1 & Hdet).
  assert (He0 : env w0 = env w) by apply Hr0.
  assert (Hw1 : reaches w (probeEvents probes) w1)
    by exact (reaches_trans Hr0 Hr1).
  exists probes.
  assert (Hoptions : List.length ytdlpOptions = 3%nat) by reflexivity.
  destruct Hdet as [(cmd & Hfst & Hd)|(Hp & Hf & Hm & Hfst)].
  - rewrite (bind_Return _ (run_pair _ Hfst Hsnd)).
    assert (Hprobes : (List.length probes <= 3)%nat /\
                      (production (env w) = false -> probes = [])).
    { unfold detected in Hd. rewrite He0 in Hd.
      destruct (production (env w)).
      - destruct Hd as (done & out & rest & _ & _ & Hopts). split; [|discriminate].
        rewrite Hopts, length_app, length_map in Hoptions.
        unfold Attempt in *. lia.
      - destruct Hd as [-> _]. split; [simpl; lia | reflexivity]. }
    destruct Hprobes as [Hlen Hdev].
    destruct (fetchInfo_spec cmd videoUrl noInfo1 w1) as (Hs2 & Hr2 & Hcase).
    set (res := fst (execAsync (infoCommand cmd videoUrl) 30000 w1)) in *.
    set (w2 := snd (execAsync (infoCommand cmd videoUrl) 30000 w1)) in *.
    exists [EvExec (infoCommand cmd videoUrl) 30000 res].
    destruct Hcase as [(e & Hfst2 & _)|(out & info & t & _ & _ & Hfst2)].
    + exists []. rewrite (bind_Throw _ (run_pair _ Hfst2 Hs2)). cbn [snd].
      split; [rewrite app_nil_r; exact (reaches_trans Hw1 Hr2)|].
      split; [exact Hlen|]. split; [exact Hdev|].
      split; [right; now exists cmd, res | simpl; lia].
    + rewrite (bind_Return _ (run_pair _ Hfst2 Hs2)).
      destruct (runStrategies_spec
                  (Rev1.downloadStrategies cmd t videoUrl) w2)
        as (attempts & rest & Hstr & Hr3 & _).
      exists attempts.
      assert (Hw3 : reaches w (probeEvents probes
                      ++ [EvExec (infoCommand cmd videoUrl) 30000 res]
                      ++ attemptEvents true attempts)
                (snd (Rev1.runStrategies
                        (Rev1.downloadStrategies cmd t videoUrl) w2)))
        by exact (reaches_trans Hw1 (reaches_trans Hr2 Hr3)).
      assert (Hatt : (List.length attempts <= 2)%nat).
      { apply (f_equal (@List.length jsstring)) in Hstr.
        rewrite length_app, length_map in Hstr. simpl in Hstr.
        unfold Attempt in *. lia. }
      split; [|split; [exact Hlen|split; [exact Hdev|split; [right; now exists cmd, res | exact Hatt]]]].
      unfold bind at 1.
      destruct (Rev1.runStrategies (Rev1.downloadStrategies cmd t videoUrl) w2)
        as [[[]|e] w3]; simpl in Hw3 |- *; [|exact Hw3].
      unfold bind at 1.
      pose proof (locateDownloaded_pure t notCreated1 emptyFile1 w3) as Hpure.
      destruct (locateDownloaded t notCreated1 emptyFile1 w3) as [[f|e] w4];
        simpl in Hpure; subst w4; exact Hw3.
  - exists [], []. rewrite (bind_Throw _ (run_pair _ Hfst Hsnd)). cbn [snd].
    rewrite He0 in Hp.
    split; [rewrite !app_nil_r; exact Hw1|].
    split; [unfold Attempt in *; rewrite <- (length_map fst), Hm, Hoptions; lia|].
    split; [intros Hdev; congruence|]. split; [now left | simpl; lia].
Qed.

End Counting.

Section Cost.

Lemma filter_noExec l : Forall noExec l -> filter isExec l = [].
Proof.
  induction 1 as [|e l He _ IH]; simpl; [reflexivity|].
  unfold noExec in He. now rewrite He.
Qed.

Lemma query_shape videoUrl (query : list Event) :
  (query = [] \/
   exists cmd res, query = [EvExec (infoCommand cmd videoUrl) 30000 res]) ->
  Forall execOrSleep query /\
  (List.length (filter isExec query) <= 1)%nat /\
  filter nonExec query = [].
Proof.
  intros [-> | (cmd & res & ->)]; simpl.
  - repeat split; [constructor | lia].
  - repeat split; [repeat constructor; now left | lia].
Qed.

Lemma primary_cost videoUrl w :
  let evs := newEvents (Rev1.downloadViaYtDlp videoUrl) w in
  Forall execOrSleep evs /\
  (List.length (filter isExec evs) <= 6)%nat /\
  (production (env w) = false -> (List.length (filter isExec evs) <= 3)%nat) /\
  (List.length (filter nonExec evs) <= 1)%nat.
Proof.
  destruct (downloadViaYtDlp_events videoUrl w)
    as (probes & query & attempts & Hr & Hp & Hdev & Hq & Ha).
  cbv zeta. rewrite (reaches_newEvents _ Hr).
  destruct (@query_shape videoUrl query Hq) as (Hq1 & Hq2 & Hq3).
  rewrite !filter_app, !length_app, probeEvents_execs, probeEvents_nonExec,
    Hq3, attemptEvents_execs, attemptEvents_waits.
  unfold probeEvents at 2 3. rewrite !length_map.
  split; [|split; [|split]].
  - apply Forall_app. split.
    + apply Forall_forall. intros e He. left.
      apply probeEvents_versionQuery in He. now destruct e.
    + apply Forall_app. split; [exact Hq1 | apply attemptEvents_execOrSleep].
  - unfold Attempt in *. lia.
  - intros H. rewrite (Hdev H). simpl. unfold Attempt in *. lia.
  - simpl. unfold Attempt in *. lia.
Qed.

End Cost.

(** X12.  A primary run only starts child processes and waits: at most six
    child processes in production (three version queries, the metadata
    query, two downloads), at most three elsewhere, and at most one wait
    of two seconds.  A whole request of the first revision, fall-back
    included, starts no more child processes than that. *)
Theorem primary_run_cost (videoUrl : jsstring) (w : World) :
  let evs := newEvents (Rev1.downloadViaYtDlp videoUrl) w in
  Forall execOrSleep evs /\
  (List.length (filter isExec evs) <= 6)%nat /\
  (production (env w) = false -> (List.length (filter isExec evs) <= 3)%nat) /\
  (List.length (filter nonExec evs) <= 1)%nat /\
  (List.length (filter isExec (newEvents (Rev1.downloadVideoForWeb videoUrl) w))
   <= 6)%nat.
Proof.
  destruct (primary_cost videoUrl w) as (H1 & H2 & H3 & H4). cbv zeta in *.
  repeat (split; [assumption|]).
  destruct (downloadVideoForWeb_events videoUrl w) as (fb & -> & Hfb).
  now rewrite filter_app, (filter_noExec Hfb), app_nil_r.
Qed.

Example primary_run_cost_worst_case :
  let env := scripted true
               (fun cmd t => if (t =? 5000) && negb (includes cmd (js "/opt"))
                             then Throw (err "not found")
                             else if t =? 300000 then Throw (err "failed")
                             else Return (js "{}"))
               [] (fun _ => Return (Some sampleInfo)) noHttp (fun _ => None) in
  let evs := newEvents (Rev1.downloadViaYtDlp sampleUrl) (start env 0 None) in
  List.length (filter isExec evs) = 6%nat /\
  List.length (filter nonExec evs) = 1%nat.
Proof. vm_compute. split; reflexivity. Qed.

Section SecondRevision.

Let onlyExec (e : Event) : Prop := isExec e = true.

Lemma emits_execAsync cmd timeout : emits onlyExec (execAsync cmd timeout).
Proof.
  intros w. exists [EvExec cmd timeout (fst (execAsync cmd timeout w))].
  split; [apply reaches_execAsync | repeat constructor].
Qed.

Lemma emits_probe options : emits onlyExec (probe options).
Proof.
  induction options as [|cmd rest IH]; simpl; [apply emits_ret|].
  apply emits_bind; [apply emits_tryCatch, emits_execAsync|].
  intros [out|e]; [apply emits_ret | exact IH].
Qed.

Lemma emits_detectYtDlp notFound : emits onlyExec (detectYtDlp notFound).
Proof.
  unfold detectYtDlp. apply emits_bind; [apply emits_getEnv|]. intros e.
  destruct (production e); [|apply emits_ret].
  apply emits_bind; [apply emits_probe|].
  intros [cmd|]; [apply emits_ret | apply emits_throwNew].
Qed.

Lemma emits_fetchInfo cmd videoUrl noInfo :
  emits onlyExec (fetchInfo cmd videoUrl noInfo).
Proof.
  unfold fetchInfo. apply emits_bind; [apply emits_execAsync|]. intros out.
  apply emits_bind; [apply emits_getEnv|]. intros e.
  apply emits_bind; [apply emits_liftOutcome|].
  intros [info|]; [|apply emits_throwNew].
  apply emits_bind; [apply emits_sanitizeFilenameOf|]. intros s.
  apply emits_bind; [apply emits_dateNow|]. intros t. apply emits_ret.
Qed.

Lemma emits_strategyLoop2 l : forall lastError,
  emits onlyExec (Rev2.strategyLoop l lastError).
Proof.
  induction l as [|cmd rest IH]; intros lastError; simpl; [apply emits_ret|].
  apply emits_bind; [apply emits_tryCatch, emits_execAsync|].
  intros [out|e]; [apply emits_ret | apply IH].
Qed.

Lemma emits_locateDownloaded P t a b : emits P (locateDownloaded t a b).
Proof. apply emits_pure. intros w. apply locateDownloaded_pure. Qed.

Lemma emits_download2 videoUrl : emits onlyExec (Rev2.download videoUrl).
Proof.
  unfold Rev2.download.
  apply emits_bind; [apply emits_ensureDownloadsDir|]. intros _.
  apply emits_bind; [apply emits_detectYtDlp|]. intros cmd.
  apply emits_bind; [apply emits_fetchInfo|]. intros [info t].
  apply emits_bind.
  { unfold Rev2.runStrategies. apply emits_bind; [apply emits_strategyLoop2|].
    intros [[] [e|]]; try apply emits_ret; [apply emits_throw | apply emits_throwNew]. }
  intros _. apply emits_bind; [apply emits_locateDownloaded|]. intros f.
  apply emits_bind; [apply emits_getEnv|]. intros e. apply emits_ret.
Qed.

End SecondRevision.

(** X13.  The second revision does nothing to the outside but start child
    processes: it never waits between strategies, never sends an HTTP
    request, and never writes or deletes a file itself. *)
Theorem second_revision_only_runs_processes (videoUrl : jsstring) (w : World) :
  exists evs,
    reaches w evs (snd (Rev2.downloadVideoForWeb videoUrl w)) /\
    Forall (fun e => isExec e = true) evs.
Proof.
  assert (H : emits (fun e => isExec e = true) (Rev2.downloadVideoForWeb videoUrl)).
  { unfold Rev2.downloadVideoForWeb.
    apply emits_bind; [apply emits_tryCatch, emits_download2|].
    intros [r|e]; [apply emits_ret | apply emits_throwNew]. }
  exact (H w).
Qed.

(** Three failed strategies of the second revision follow each other
    without a wait. *)
Example second_revision_does_not_wait :
  let env := scripted false
               (fun cmd t => if t =? 300000 then Throw (err "failed")
                             else Return (js "{}"))
               [] (fun _ => Return (Some sampleInfo)) noHttp (fun _ => None) in
  map isExec (trace (snd (Rev2.downloadVideoForWeb sampleUrl (start env 0 None))))
  = [true; true; true; true].
Proof. vm_compute. reflexivity. Qed.

(** * What a successful yt-dlp download returns *)

Section Results.

Lemma locateDownloaded_success t notCreated emptyFile w f w' :
  locateDownloaded t notCreated emptyFile w = (Return f, w') ->
  w' = w /\
  startsWith f t = true /\
  exists d entry,
    dir w = Some d /\ In f (map fname d) /\
    statEntry d f = Some entry /\ fsize entry <> 0.
Proof.
  intros H.
  pose proof (locateDownloaded_pure t notCreated emptyFile w) as Hpure.
  rewrite H in Hpure. simpl in Hpure. subst w'. split; [reflexivity|].
  destruct (dir w) as [d|] eqn:Hd.
  - pose proof (locateDownloaded_spec w t notCreated emptyFile Hd) as Hs.
    cbv zeta in Hs. destruct Hs as (_ & _ & Hs).
    destruct (candidates d (map fname d) t) as [|g rest].
    + destruct Hs as (_ & Hs). rewrite Hs in H. discriminate.
    + destruct Hs as (Hin & Hst & _ & _ & entry & He & Hs).
      rewrite Hs in H. destruct (fsize entry =? 0) eqn:Hz; [discriminate|].
      assert (g = f) by congruence. subst g.
      split; [exact Hst|]. exists d, entry.
      repeat split; try assumption. now apply Z.eqb_neq.
  - exfalso. unfold locateDownloaded, bind, readdirSync in H.
    rewrite Hd in H. discriminate.
Qed.

Lemma startsWith_app_l s p q :
  startsWith s (p ++ q) = true -> startsWith s p = true.
Proof.
  rewrite !startsWith_spec. intros [post ->]. exists (q ++ post).
  now rewrite app_assoc.
Qed.

Lemma startsWith_nonempty s p :
  startsWith s p = true -> p <> [] -> s <> [].
Proof.
  rewrite startsWith_spec. intros [post ->] Hp H.
  apply app_eq_nil in H. now destruct H.
Qed.

Lemma title_prefix cmd videoUrl noInfo w w' info t f :
  fetchInfo cmd videoUrl noInfo w = (Return (info, t), w') ->
  startsWith f t = true ->
  exists tt,
    title info = Some tt /\ f <> [] /\
    startsWith f match sanitizeFilename tt with
                 | [] => js "video_"
                 | _ => sanitizeFilename tt
                 end = true.
Proof.
  intros Hf Hs.
  destruct (@fetchInfo_title_spec _ _ _ _ _ _ _ Hf) as (Hne & tt & Ht & E).
  exists tt. split; [exact Ht|]. split; [exact (@startsWith_nonempty f t Hs Hne)|].
  destruct (sanitizeFilename tt) as [|c s]; subst t.
  - exact (@startsWith_app_l f _ _ Hs).
  - exact Hs.
Qed.

Lemma download1_success videoUrl w result w' :
  Rev1.downloadViaYtDlp videoUrl w = (Return result, w') ->
  namesNonEmptyFile result w' /\ namedAfterTitle result /\
  vi_method (videoInfo result) = Some (js "yt-dlp").
Proof.
  intros H. unfold Rev1.downloadViaYtDlp, bind in H.
  destruct (ensureDownloadsDir w) as [[[]|e0] w0]; [|discriminate].
  destruct (detectYtDlp _ w0) as [[cmd|e1] w1]; [|discriminate].
  destruct (fetchInfo cmd videoUrl _ w1) as [[[info t]|e2] w2] eqn:Hinfo;
    [|discriminate].
  destruct (Rev1.runStrategies _ w2) as [[[]|e3] w3]; [|discriminate].
  destruct (locateDownloaded t notCreated1 emptyFile1 w3) as [[f|e4] w4] eqn:Hloc;
    [|discriminate].
  destruct (@locateDownloaded_success _ _ _ _ _ _ Hloc) as (-> & Hst & Hfile).
  unfold getEnv, ret in H.
  assert (E : result = mkResult f (ytVideoInfo (env w3) info (Some (js "yt-dlp")))
              /\ w' = w3)
    by (split; congruence).
  destruct E as [-> ->]. split; [exact Hfile|]. split; [|reflexivity].
  exact (@title_prefix _ _ _ _ _ _ _ _ Hinfo Hst).
Qed.

Lemma download2_success videoUrl w result w' :
  Rev2.download videoUrl w = (Return result, w') ->
  namesNonEmptyFile result w' /\ namedAfterTitle result.
Proof.
  intros H. unfold Rev2.download, bind in H.
  destruct (ensureDownloadsDir w) as [[[]|e0] w0]; [|discriminate].
  destruct (detectYtDlp _ w0) as [[cmd|e1] w1]; [|discriminate].
  destruct (fetchInfo cmd videoUrl _ w1) as [[[info t]|e2] w2] eqn:Hinfo;
    [|discriminate].
  destruct (Rev2.runStrategies _ w2) as [[[]|e3] w3]; [|discriminate].
  match type of H with
  | context [locateDownloaded t ?a ?b w3] =>
      destruct (locateDownloaded t a b w3) as [[f|e4] w4] eqn:Hloc;
        [|discriminate]
  end.
  destruct (@locateDownloaded_success _ _ _ _ _ _ Hloc) as (-> & Hst & Hfile).
  unfold getEnv, ret in H.
  assert (E : result = mkResult f (ytVideoInfo (env w3) info None) /\ w' = w3)
    by (split; congruence).
  destruct E as [-> ->]. split; [exact Hfile|].
  exact (@title_prefix _ _ _ _ _ _ _ _ Hinfo Hst).
Qed.

End Results.

(** X14.  When the primary path returns, the file it names is an entry of
    the downloads directory that is not empty; the name is not empty and
    starts with the sanitized title of the video (with [video_] when the
    title sanitizes to nothing); the method is [yt-dlp]. *)
Theorem primary_success_names_nonempty_file
    (videoUrl : jsstring) (w w' : World) (result : DownloadResult) :
  Rev1.downloadViaYtDlp videoUrl w = (Return result, w') ->
  namesNonEmptyFile result w' /\ namedAfterTitle result /\
  vi_method (videoInfo result) = Some (js "yt-dlp").
Proof. apply download1_success. Qed.

Lemma primary_success_names_nonempty_file_witness :
  let w := start healthyEnv 0 None in
  let result := mkResult (js "foo.mp4")
                  (ytVideoInfo healthyEnv sampleInfo (Some (js "yt-dlp"))) in
  let w' := snd (Rev1.downloadViaYtDlp sampleUrl w) in
  namesNonEmptyFile result w' /\ namedAfterTitle result /\
  vi_method (videoInfo result) = Some (js "yt-dlp").
Proof.
  intros w result w'.
  apply (@primary_success_names_nonempty_file sampleUrl w w' result).
  vm_compute. reflexivity.
Defined.

(** X15.  In the second revision, which has no fall-back, every request
    that succeeds names an entry of the downloads directory that is not
    empty, and whose name starts with the sanitized title. *)
Theorem second_revision_success_names_nonempty_file
    (videoUrl : jsstring) (w w' : World) (result : DownloadResult) :
  Rev2.downloadVideoForWeb videoUrl w = (Return result, w') ->
  namesNonEmptyFile result w' /\ namedAfterTitle result.
Proof.
  intros H. unfold Rev2.downloadVideoForWeb, bind in H.
  rewrite tryCatch_run in H.
  destruct (Rev2.download videoUrl w) as [[r|e] w1] eqn:Hd; simpl in H.
  - unfold ret in H. assert (E : r = result /\ w1 = w') by (split; congruence).
    destruct E as [-> ->]. exact (@download2_success _ _ _ _ Hd).
  - unfold throwNew in H. discriminate.
Qed.

Lemma second_revision_success_names_nonempty_file_witness :
  let w := start healthyEnv 0 None in
  let result := mkResult (js "foo.mp4")
                  (ytVideoInfo healthyEnv sampleInfo None) in
  let w' := snd (Rev2.downloadVideoForWeb sampleUrl w) in
  namesNonEmptyFile result w' /\ namedAfterTitle result.
Proof.
  intros w result w'.
  apply (@second_revision_success_names_nonempty_file sampleUrl w w' result).
  vm_compute. reflexivity.
Defined.
(** * The routes: what they answer *)

Section Routes.

Variable download : jsstring -> M DownloadResult.

Lemma postDownloadWith_answers (req : Request) (w : World) :
  exists resp,
    fst (postDownloadWith download req w) = Return resp /\
    match body resp with
    | ErrorBody msg =>
        (status resp = 400 /\ snd (postDownloadWith download req w) = w) \/
        (status resp = 500 /\ msg = internalError)
    | SuccessBody _ file downloadUrl info =>
        status resp = 200 /\
        exists url result w1 encoded,
          truthyStr (req_url req) = Some url /\
          validateYouTubeUrl url = true /\
          download url w = (Return result, w1) /\
          snd (postDownloadWith download req w) = w1 /\
          file = filename result /\ info = videoInfo result /\
          encodeURIComponent (env w1) file = Return encoded /\
          downloadUrl = js "/download-file/" ++ encoded
    end.
Proof.
  unfold postDownloadWith. unfold bind at 1. unfold dateNow at 1.
  destruct (truthyStr (req_url req)) as [url|] eqn:Hurl.
  2:{ eexists. split; [reflexivity|]. left. now split. }
  destruct (validateYouTubeUrl url) eqn:Hv; cbn [negb].
  2:{ eexists. split; [reflexivity|]. left. now split. }
  destruct (negb (existsb _ _)).
  { eexists. split; [reflexivity|]. left. now split. }
  unfold bind at 1. rewrite tryCatch_run.
  unfold bind, dateNow, getEnv, liftOutcome, ret.
  destruct (download url w) as [[result|e] w1] eqn:Hrun; cbn [fst snd].
  - destruct (encodeURIComponent (env w1) (filename result)) as [enc|e] eqn:Henc;
      cbn [fst snd].
    + eexists. split; [reflexivity|]. cbn [body status]. split; [reflexivity|].
      exists url, result, w1, enc. repeat split; try reflexivity; try assumption.
      unfold tryCatch. cbn beta. rewrite Hrun. cbn beta iota. rewrite Henc. reflexivity.
    + eexists. split; [reflexivity|]. right. now split.
  - eexists. split; [reflexivity|]. right. now split.
Qed.

End Routes.

(** X16.  The route [/download] always answers, whatever the download
    does: with 400 and nothing done, with 500 and the generic message, or
    with 200; and it answers 200 only when the URL was accepted, the
    download returned, and the name of the file could be encoded for the
    link, which is then [/download-file/] followed by the encoded name. *)
Theorem route_always_answers
    (download : jsstring -> M DownloadResult) (req : Request) (w : World) :
  exists resp,
    fst (postDownloadWith download req w) = Return resp /\
    match body resp with
    | ErrorBody msg =>
        (status resp = 400 /\ snd (postDownloadWith download req w) = w) \/
        (status resp = 500 /\ msg = internalError)
    | SuccessBody _ file downloadUrl info =>
        status resp = 200 /\
        exists url result w1 encoded,
          truthyStr (req_url req) = Some url /\
          validateYouTubeUrl url = true /\
          download url w = (Return result, w1) /\
          snd (postDownloadWith download req w) = w1 /\
          file = filename result /\ info = videoInfo result /\
          encodeURIComponent (env w1) file = Return encoded /\
          downloadUrl = js "/download-file/" ++ encoded
    end.
Proof. apply postDownloadWith_answers. Qed.

(** A download that succeeded is still answered with 500 when the name of
    its file cannot be encoded (a lone surrogate in the title). *)
Example route_encoding_failure :
  let env := mkEnv true None (execOracle healthyEnv) (fetchOracle healthyEnv)
               (unlinkOracle healthyEnv) (writeOracle healthyEnv)
               (enoent healthyEnv) (jsonParse healthyEnv)
               (fun _ => Throw (err "URI malformed"))
               (toLocaleString healthyEnv) (stackOf healthyEnv)
               (inexactDuration healthyEnv) in
  let w := start env 0 None in
  (exists r, fst (Rev1.downloadVideoForWeb sampleUrl w) = Return r) /\
  fst (Rev1.postDownload (mkRequest (Some sampleUrl) None) w)
  = Return (mkHttp 500 (ErrorBody internalError)).
Proof. cbv zeta. split; [eexists|]; vm_compute; reflexivity. Qed.

(** * Disk usage and the removal of one file *)

Section Files.

Lemma usageLoop_run (w : World) (d : Dir) :
  dir w = Some d -> NoDup (map fname d) ->
  forall l acc,
    incl l d ->
    usageLoop (map fname l) acc w
    = (Return (fst acc + fold_right Z.add 0 (map fsize l),
               snd acc + Z.of_nat (List.length l)), w).
Proof.
  intros Hd Hnd. induction l as [|f l IH]; intros acc Hin.
  - simpl. unfold ret. destruct acc as [a b]. simpl. now rewrite !Z.add_0_r.
  - cbn [map usageLoop]. unfold bind. rewrite tryCatch_run.
    unfold statSync. rewrite Hd.
    rewrite (@statEntry_In d f Hnd (Hin f (or_introl eq_refl))). cbn [fst snd].
    rewrite IH by (intros g Hg; apply Hin; now right).
    cbn [fst snd map fold_right List.length]. rewrite Nat2Z.inj_succ.
    f_equal. f_equal. f_equal; lia.
Qed.

Lemma getDiskUsage_run (w : World) :
  snd (getDiskUsage w) = w /\
  exists totalSize fileCount,
    fst (getDiskUsage w) = Return (totalSize, fileCount) /\
    (dir w = None -> totalSize = 0 /\ fileCount = 0) /\
    (forall d, dir w = Some d -> NoDup (map fname d) ->
               totalSize = fold_right Z.add 0 (map fsize d) /\
               fileCount = Z.of_nat (List.length d)).
Proof.
  unfold getDiskUsage, bind, existsDownloadsDir.
  destruct (dir w) as [d|] eqn:Hd; cbn [negb].
  - rewrite tryCatch_run. unfold readdirSync. rewrite Hd. cbn [fst snd].
    assert (Hpure : forall l acc,
               snd (usageLoop l acc w) = w /\
               exists r, fst (usageLoop l acc w) = Return r).
    { induction l as [|f l IH]; intros acc; simpl.
      - split; [reflexivity | now eexists].
      - unfold bind. rewrite tryCatch_run. unfold statSync. rewrite Hd.
        destruct (statEntry d f); cbn [fst snd]; [apply IH|].
        split; [reflexivity | now eexists]. }
    destruct (Hpure (map fname d) (0, 0)) as (Hs & [t c] & Hf).
    split; [exact Hs|]. exists t, c. split; [exact Hf|].
    split; [discriminate|].
    intros d' Hd' Hnd. assert (d' = d) by congruence. subst d'.
    rewrite (@usageLoop_run w d Hd Hnd d (0, 0) (incl_refl d)) in Hf.
    cbn [fst snd] in Hf. inversion Hf. now split.
  - split; [reflexivity|]. exists 0, 0. split; [reflexivity|].
    split; [now split | discriminate].
Qed.

Lemma statEntry_removeEntry_other (d : Dir) name other :
  other <> name ->
  statEntry (removeEntry d name) other = statEntry d other.
Proof.
  intros Hne. induction d as [|e d IH]; simpl; [reflexivity|].
  destruct (str_eqb (fname e) name) eqn:E.
  - destruct (str_eqb (fname e) other) eqn:E'; [|reflexivity].
    apply str_eqb_eq in E, E'. congruence.
  - simpl. now rewrite IH.
Qed.

Lemma statEntry_name (d : Dir) name e :
  statEntry d name = Some e -> fname e = name /\ In e d.
Proof.
  induction d as [|f d IH]; simpl; [discriminate|].
  destruct (str_eqb (fname f) name) eqn:E.
  - intros H. inversion H; subst. apply str_eqb_eq in E. now split; [|left].
  - intros H. destruct (IH H). now split; [|right].
Qed.

Lemma statEntry_removeEntry_same (d : Dir) name :
  NoDup (map fname d) -> statEntry (removeEntry d name) name = None.
Proof.
  induction d as [|e d IH]; intros Hnd; simpl; [reflexivity|].
  simpl in Hnd. inversion Hnd as [|? ? Hnot Hnd']; subst.
  destruct (str_eqb (fname e) name) eqn:E.
  - apply str_eqb_eq in E. subst name.
    destruct (statEntry d (fname e)) as [g|] eqn:G; [|reflexivity].
    destruct (@statEntry_name _ _ _ G) as [Hg Hin].
    exfalso. apply Hnot. rewrite <- Hg. now apply in_map.
  - simpl. rewrite E. now apply IH.
Qed.

Lemma postCleanupFile_run (name : jsstring) (w : World) (d : Dir) :
  dir w = Some d -> NoDup (map fname d) -> name <> [] ->
  exists resp d',
    fst (postCleanupFile (Some name) w) = Return resp /\
    dir (snd (postCleanupFile (Some name) w)) = Some d' /\
    NoDup (map fname d') /\
    (forall other, other <> name -> statEntry d' other = statEntry d other) /\
    (c_success resp = true <-> statEntry d' name = None) /\
    c_status resp = (if c_success resp then 200 else 500) /\
    (statEntry d name = None ->
     postCleanupFile (Some name) w = (Return alreadyRemoved, w)).
Proof.
  intros Hd Hnd Hne. unfold postCleanupFile.
  destruct name as [|c name]; [congruence|]. cbn [truthyStr].
  set (n := c :: name). unfold bind, existsSync. rewrite Hd.
  destruct (statEntry d n) as [e|] eqn:He; cbn [negb].
  - rewrite tryCatch_run. unfold unlinkSync. rewrite Hd, He.
    destruct (unlinkOracle (env w) (trace w) n) as [err|]; cbn [fst snd].
    + exists (mkCleanup 500 false (js "Erro ao remover arquivo do servidor")), d.
      split; [reflexivity|]. split; [exact Hd|]. split; [exact Hnd|].
      split; [reflexivity|]. cbn [c_success c_status]. rewrite He.
      repeat split; discriminate.
    + exists (mkCleanup 200 true (js "Arquivo removido com sucesso")),
             (removeEntry d n).
      split; [reflexivity|]. split; [reflexivity|].
      split; [rewrite (@removeEntry_filter d n Hnd); now apply NoDup_filter_names|].
      split; [intros other Ho; now apply statEntry_removeEntry_other|].
      cbn [c_success c_status].
      split; [split; [intros _; now apply statEntry_removeEntry_same | reflexivity]|].
      split; [reflexivity | discriminate].
  - exists alreadyRemoved, d.
    split; [reflexivity|]. split; [exact Hd|]. split; [exact Hnd|].
    split; [reflexivity|]. cbn [alreadyRemoved c_success c_status]. rewrite He.
    repeat split; reflexivity.
Qed.

Lemma twoFiles_NoDup : NoDup (map fname twoFiles).
Proof.
  repeat constructor; simpl; intros H;
    repeat (destruct H as [H|H]; [discriminate H|]); exact H.
Qed.

End Files.

(** X17.  [getDiskUsage] never throws and changes nothing; without a
    downloads directory it reports zero bytes and zero files, and
    otherwise the sum of the sizes and the number of the entries. *)
Theorem getDiskUsage_sums_directory (w : World) :
  snd (getDiskUsage w) = w /\
  exists totalSize fileCount,
    fst (getDiskUsage w) = Return (totalSize, fileCount) /\
    (dir w = None -> totalSize = 0 /\ fileCount = 0) /\
    (forall d, dir w = Some d -> NoDup (map fname d) ->
               totalSize = fold_right Z.add 0 (map fsize d) /\
               fileCount = Z.of_nat (List.length d)).
Proof. apply getDiskUsage_run. Qed.

Example getDiskUsage_twoFiles :
  fst (getDiskUsage (start healthyEnv 0 (Some twoFiles))) = Return (1000, 2).
Proof. vm_compute. reflexivity. Qed.

(** X18.  [/cleanup-file] with a plain file name answers without
    throwing; it leaves every other file as it was; it reports success
    exactly when no file of that name is left, with status 200, and
    failure with status 500; and a request for a file that is not there
    answers 200 and changes nothing, so a repeated request is harmless. *)
Theorem cleanup_file_removes_only_that_file
    (name : jsstring) (w : World) (d : Dir) :
  dir w = Some d -> NoDup (map fname d) -> name <> [] ->
  plainName name = true ->
  let w' := snd (postCleanupFile (Some name) w) in
  exists resp d',
    fst (postCleanupFile (Some name) w) = Return resp /\
    dir w' = Some d' /\
    (forall other, other <> name -> statEntry d' other = statEntry d other) /\
    (c_success resp = true <-> statEntry d' name = None) /\
    c_status resp = (if c_success resp then 200 else 500) /\
    (c_success resp = true ->
     postCleanupFile (Some name) w'
     = (Return (mkCleanup 200 true (js "Arquivo já foi removido ou não existe")),
        w')).
Proof.
  intros Hd Hnd Hne _ w'.
  destruct (@postCleanupFile_run name w d Hd Hnd Hne)
    as (resp & d' & Hf & Hd' & Hnd' & Hother & Hiff & Hst & _).
  exists resp, d'. repeat (split; [assumption|]).
  intros Hs. apply Hiff in Hs.
  destruct (@postCleanupFile_run name w' d' Hd' Hnd' Hne) 
    as (r2 & d2 & _ & _ & _ & _ & _ & _ & H).
  exact (H Hs).
Qed.

Lemma cleanup_file_removes_only_that_file_witness :
  let name := js "a.mp4" in
  let w := start healthyEnv 0 (Some twoFiles) in
  let w' := snd (postCleanupFile (Some name) w) in
  exists resp d',
    fst (postCleanupFile (Some name) w) = Return resp /\
    dir w' = Some d' /\
    (forall other, other <> name -> statEntry d' other = statEntry twoFiles other) /\
    (c_success resp = true <-> statEntry d' name = None) /\
    c_status resp = (if c_success resp then 200 else 500) /\
    (c_success resp = true ->
     postCleanupFile (Some name) w'
     = (Return (mkCleanup 200 true (js "Arquivo já foi removido ou não existe")),
        w')).
Proof.
  intros name w.
  apply (@cleanup_file_removes_only_that_file name w twoFiles).
  - reflexivity.
  - exact twoFiles_NoDup.
  - discriminate.
  - reflexivity.
Defined.

Example cleanup_file_twice :
  let w := start healthyEnv 0 (Some twoFiles) in
  let w1 := snd (postCleanupFile (Some (js "a.mp4")) w) in
  dir w1 = Some [mkFile (js "b.mp4") 2000 300] /\
  fst (postCleanupFile (Some (js "a.mp4")) w1)
  = Return (mkCleanup 200 true (js "Arquivo já foi removido ou não existe")) /\
  fst (postCleanupFile None w)
  = Return (mkCleanup 400 false (js "Nome do arquivo é obrigatório")).
Proof. vm_compute. repeat split; reflexivity. Qed.

(** * The second revision: its runner and its classifier *)

Section SecondRunner.

Lemma strategyLoop2_spec strategies : forall lastError w,
  exists attempts rest,
    strategies = map fst attempts ++ rest /\
    reaches w (plainAttemptEvents attempts)
            (snd (Rev2.strategyLoop strategies lastError w)) /\
    ((exists done command out,
        attempts = done ++ [(command, Return out)] /\ Forall failed done /\
        fst (Rev2.strategyLoop strategies lastError w)
        = Return (true, lastErrorOf done lastError))
     \/
     (rest = [] /\ Forall failed attempts /\
      fst (Rev2.strategyLoop strategies lastError w)
      = Return (false, lastErrorOf attempts lastError))).
Proof.
  induction strategies as [|command rest IH]; intros lastError w.
  - exists [], []. split; [reflexivity|]. split; [apply reaches_refl|].
    right. repeat split. constructor.
  - assert (Hrun : Rev2.strategyLoop (command :: rest) lastError w
                   = let (o, w1) := execAsync command 300000 w in
                     match o with
                     | Return _ => (Return (true, lastError), w1)
                     | Throw e => Rev2.strategyLoop rest (Some e) w1
                     end).
    { cbn [Rev2.strategyLoop]. unfold bind, tryCatch.
      destruct (execAsync command 300000 w) as [[out|e] w1]; reflexivity. }
    rewrite Hrun. clear Hrun.
    pose proof (reaches_execAsync command 300000 w) as Hreach.
    destruct (execAsync command 300000 w) as [[out|e] w1]; cbn [fst snd] in *.
    + exists [(command, Return out)], rest. split; [reflexivity|].
      split; [exact Hreach|].
      left. exists [], command, out. split; [reflexivity|].
      split; [constructor | reflexivity].
    + destruct (IH (Some e) w1) as (attempts & rest' & Hs & Hr & Hcase).
      exists ((command, Throw e) :: attempts), rest'. split; [|split].
      * simpl. now rewrite Hs.
      * exact (@reaches_trans _ _ _ _ _ Hreach Hr).
      * destruct Hcase as [(done & c & out & -> & Hd & Hres)|(-> & Hf & Hres)].
        -- left. exists ((command, Throw e) :: done), c, out.
           repeat split; [constructor; [apply failed_Throw | exact Hd]|].
           exact Hres.
        -- right. repeat split; [constructor; [apply failed_Throw | exact Hf]|].
           exact Hres.
Qed.

Lemma runStrategies2_spec (strategies : list jsstring) (w : World) :
  exists attempts rest,
    strategies = map fst attempts ++ rest /\
    reaches w (plainAttemptEvents attempts)
            (snd (Rev2.runStrategies strategies w)) /\
    ((exists done command out,
        attempts = done ++ [(command, Return out)] /\ Forall failed done /\
        fst (Rev2.runStrategies strategies w) = Return tt)
     \/
     (rest = [] /\ Forall failed attempts /\
      ((exists done command e,
          attempts = done ++ [(command, Throw e)] /\
          fst (Rev2.runStrategies strategies w) = Throw e)
       \/
       (strategies = [] /\
        exists e, message e = js "Todas as estratégias de download falharam" /\
                  fst (Rev2.runStrategies strategies w) = Throw e)))).
Proof.
  destruct (strategyLoop2_spec strategies None w)
    as (attempts & rest & Hs & Hr & Hcase).
  exists attempts, rest. unfold Rev2.runStrategies, bind.
  destruct (Rev2.strategyLoop strategies None w) as [[[b le]|e] w1] eqn:Hrun;
    simpl in Hr, Hcase.
  - destruct Hcase as [(done & c & out & -> & Hd & Hres)|(-> & Hf & Hres)];
      inversion Hres; subst b le; simpl.
    + split; [assumption|]. split; [exact Hr|].
      left. exists done, c, out. now repeat split.
    + split; [assumption|].
      destruct attempts as [|a l].
      * simpl. split; [exact Hr|]. right.
        split; [reflexivity|]. split; [constructor|].
        right. split; [now rewrite Hs|]. eexists. split; [|reflexivity].
        reflexivity.
      * destruct (@lastErrorOf_failed (a :: l) None Hf)
          as (done & c & e & E & Hl); [discriminate|].
        rewrite Hl. simpl. split; [exact Hr|]. right.
        split; [reflexivity|]. split; [exact Hf|].
        left. exists done, c, e. now split.
  - destruct Hcase as [(? & ? & ? & _ & _ & Hres)|(_ & _ & Hres)]; discriminate.
Qed.

End SecondRunner.

(** X19.  The strategy runner of the second revision attempts a prefix of
    its strategies, in order and with nothing between two attempts; it
    stops at the first attempt that succeeds, or attempts them all and
    throws the error of the last one (a fixed error when there is no
    strategy). *)
Theorem second_revision_runner_order (strategies : list jsstring) (w : World) :
  exists attempts rest,
    strategies = map fst attempts ++ rest /\
    reaches w (plainAttemptEvents attempts)
            (snd (Rev2.runStrategies strategies w)) /\
    ((exists done command out,
        attempts = done ++ [(command, Return out)] /\ Forall failed done /\
        fst (Rev2.runStrategies strategies w) = Return tt)
     \/
     (rest = [] /\ Forall failed attempts /\
      ((exists done command e,
          attempts = done ++ [(command, Throw e)] /\
          fst (Rev2.runStrategies strategies w) = Throw e)
       \/
       (strategies = [] /\
        exists e, message e = js "Todas as estratégias de download falharam" /\
                  fst (Rev2.runStrategies strategies w) = Throw e)))).
Proof. exact (runStrategies2_spec strategies w). Qed.

Section Classifier.

Lemma contains_trans (s t u : jsstring) :
  contains s t -> contains t u -> contains s u.
Proof.
  intros (a & b & ->) (c & d & ->). exists (a ++ c), (d ++ b).
  now rewrite <- !app_assoc.
Qed.

Lemma strategy_format cmd fmt extra t url :
  contains (Rev2.strategy cmd fmt extra t url) (js "format").
Proof.
  unfold Rev2.strategy.
  exists (cmd ++ js " --"),
         (js " " ++ quoted fmt ++ extra ++ js " --output "
          ++ quoted (outputTemplate t) ++ js " --no-warnings " ++ quoted url).
  rewrite <- !app_assoc. f_equal.
Qed.

Lemma strategies_format cmd t url strategy :
  In strategy (Rev2.downloadStrategies cmd t url) ->
  contains strategy (js "format").
Proof.
  unfold Rev2.downloadStrategies.
  intros [<-|[<-|[<-|[]]]]; apply strategy_format.
Qed.

Lemma classifyError_format msg :
  includes msg (js "format") = true ->
  In (Rev2.classifyError msg) specificMessages.
Proof.
  intros H. unfold Rev2.classifyError. rewrite H. cbn [orb].
  unfold specificMessages.
  repeat match goal with
         | |- context [includes msg ?p] => destruct (includes msg p); cbn [orb]
         end;
  lazymatch goal with
  | |- In ?m (?m :: _) => exact (or_introl eq_refl)
  | |- In ?m (_ :: ?m :: _) => exact (or_intror (or_introl eq_refl))
  | |- In ?m (_ :: _ :: ?m :: _) =>
      exact (or_intror (or_intror (or_introl eq_refl)))
  | |- In ?m (_ :: _ :: _ :: ?m :: _) =>
      exact (or_intror (or_intror (or_intror (or_introl eq_refl))))
  | |- In ?m (_ :: _ :: _ :: _ :: ?m :: _) =>
      exact (or_intror (or_intror (or_intror (or_intror (or_introl eq_refl)))))
  end.
Qed.

Lemma specificMessages_distinct m :
  In m specificMessages ->
  m <> Rev2.commandMessage /\ m <> Rev2.defaultMessage.
Proof.
  unfold specificMessages. simpl.
  intros [<-|[<-|[<-|[<-|[<-|[]]]]]]; split; intros H; vm_compute in H;
    discriminate H.
Qed.

Lemma quoting_message msg cmd t url strategy :
  In strategy (Rev2.downloadStrategies cmd t url) ->
  contains msg strategy ->
  In (Rev2.classifyError msg) specificMessages /\
  Rev2.classifyError msg <> Rev2.commandMessage /\
  Rev2.classifyError msg <> Rev2.defaultMessage.
Proof.
  intros Hin Hc.
  assert (H : In (Rev2.classifyError msg) specificMessages).
  { apply classifyError_format. apply includes_spec.
    exact (@contains_trans _ _ _ Hc (@strategies_format _ _ _ _ Hin)). }
  split; [exact H | now apply specificMessages_distinct].
Qed.

End Classifier.

(** X20.  Every download command of the second revision holds the word
    [format], which the classifier looks for before it looks for a failed
    command: an error whose message quotes the command that failed, as the
    errors of a child process do, is never reported as a failure to run
    yt-dlp, nor with the default message. *)
Theorem quoted_strategy_never_command_failure
    (msg cmd sanitizedTitle videoUrl strategy : jsstring) :
  In strategy (Rev2.downloadStrategies cmd sanitizedTitle videoUrl) ->
  contains msg strategy ->
  In (Rev2.classifyError msg) specificMessages /\
  Rev2.classifyError msg <> Rev2.commandMessage /\
  Rev2.classifyError msg <> Rev2.defaultMessage.
Proof. apply quoting_message. Qed.

Lemma quoted_strategy_never_command_failure_witness :
  let strategy := Rev2.strategy (js "yt-dlp") (js "best[ext=mp4]/best") []
                    (js "foo") sampleUrl in
  let msg := js "Command failed: " ++ strategy ++ js " ERROR: exit code 1" in
  In (Rev2.classifyError msg) specificMessages /\
  Rev2.classifyError msg <> Rev2.commandMessage /\
  Rev2.classifyError msg <> Rev2.defaultMessage.
Proof.
  intros strategy msg.
  apply (@quoted_strategy_never_command_failure msg (js "yt-dlp") (js "foo")
           sampleUrl strategy).
  - right. right. left. reflexivity.
  - exists (js "Command failed: "), (js " ERROR: exit code 1"). reflexivity.
Defined.

Example failed_command_reported_as_format :
  Rev2.classifyError
    (js "Command failed: "
     ++ Rev2.strategy (js "yt-dlp") (js "best[ext=mp4]/best") [] (js "foo") sampleUrl
     ++ js " ERROR: exit code 1")
  = Rev2.formatMessage
  /\ Rev2.classifyError (js "Command failed: yt-dlp --dump-json") = Rev2.commandMessage.
Proof. vm_compute. split; reflexivity. Qed.

